(** * PortfolioGenerator: a shallow embedding of the layout engine

    This development embeds [src/lib/PortfolioGenerator.js] and proves
    properties of its layout rules.

    Conventions of the embedding.
    - A JavaScript number that measures a length (points, pixels as a
      ratio, DPI) is an exact rational [Q]; the theorems therefore speak
      about the arithmetic the code writes down, not about the rounding
      of IEEE doubles.  Equality of such numbers is [==] ([Qeq]).
      In [Q], [x / 0] is [0], in JavaScript it is not: the statements
      that depend on the value of a quotient assume a non-zero divisor
      (positive image sizes, at least one image in a grid).
    - Array lengths and indices are integers [Z].
    - A field that may be missing from a JSON object is an [option].
      A [config.json] that parses to [null] is told apart from the
      other values, of which the fields of [Config] are read.
    - The PDF writer is a record [Doc] that carries the running cursor
      [doc_y], the current font and size, and the log [doc_ops] of the
      calls the writer carried out, oldest first.  The generator reads
      [doc.y] only after a [doc.text], so [doc_y] is kept up to date by
      [doc_text] and [addPage] only.  A text that does not stay on the
      page makes PDFKit add pages of its own: the cursor it then leaves
      is a variable of the section, and the statements about the
      position of a text assume that the texts before it stay on the
      page.
    - The file system ([path.join], the probe of an image file, the
      reading and parsing of a [project.json]), [sharp], the text
      metrics of the writer and [String.prototype.trim] are variables of
      the section [Generator].
    - [loadProjects] takes the listing of the input directory, and the
      loop of [createPDF] over the projects is [createAllProjectPages].
    - [createCoverPage] is not modelled: it hands [config.title] and
      [config.author] to the writer as they are, and what the writer
      draws for a missing one is not in the source. *)

From Stdlib Require Import ZArith QArith Qround Qminmax Lia Lqa.
From Stdlib Require Import Bool List String Ascii.
Import ListNotations.

Local Open Scope string_scope.
Local Open Scope Z_scope.
Local Open Scope Q_scope.

(** ** JavaScript values and operators used by the generator *)

(** [a > b] on numbers. *)
Definition Qgtb (a b : Q) : bool := negb (Qle_bool a b).

(** [a < b] on numbers. *)
Definition Qltb (a b : Q) : bool := negb (Qle_bool b a).

(** [v || d] where [v] is a possibly missing number: a missing field is
    [undefined], and [0] is falsy as well; every other number is truthy. *)
Definition or_num (v : option Q) (d : Q) : Q :=
  match v with
  | Some q => if Qeq_bool q 0 then d else q
  | None => d
  end.

(** Truthiness of a string: only the empty string is falsy. *)
Definition truthy_str (s : string) : bool :=
  match s with
  | EmptyString => false
  | String _ _ => true
  end.

(** Truthiness of a possibly missing string. *)
Definition truthy_ostr (v : option string) : bool :=
  match v with
  | Some s => truthy_str s
  | None => false
  end.

(** [v || d] on possibly missing strings. *)
Definition or_str (v : option string) (d : string) : string :=
  match v with
  | Some s => if truthy_str s then s else d
  | None => d
  end.

(** Truthiness of a possibly missing boolean. *)
Definition truthy_obool (v : option bool) : bool :=
  match v with
  | Some b => b
  | None => false
  end.

(** [Math.round]: the nearest integer, halves going up. *)
Definition Math_round (q : Q) : Z := Qfloor (q + (1 # 2)).

(** [Math.min] of three numbers. *)
Definition Qmin3 (a b c : Q) : Q := Qmin a (Qmin b c).

(** ** Data model *)

(** The [imageBorder] object of [config.json]. *)
Record ImageBorder := mkImageBorder {
  enabled : option bool;
  border_width : option Q;
  border_color : option string
}.

(** The [fonts] object of [config.json]. *)
Record Fonts := mkFonts {
  font_title : string;
  font_heading : string;
  font_body : string;
  font_caption : string
}.

(** The parsed [config.json]. *)
Record Config := mkConfig {
  cfg_title : option string;
  cfg_subtitle : option string;
  cfg_author : option string;
  cfg_email : option string;
  cfg_website : option string;
  cfg_output : option string;
  cfg_pageSize : option string;
  cfg_orientation : option string;
  cfg_margin : option Q;
  cfg_dpi : option Q;
  cfg_fonts : option Fonts;
  cfg_imageBorder : option ImageBorder
}.

(** An element of [project.processedImages]. *)
Record ImageRecord := mkImageRecord {
  img_name : string;
  img_path : string;
  img_width : Z;
  img_height : Z;
  img_format : string;
  img_border : bool
}.

(** What [sharp(path).metadata()] returns. *)
Record Metadata := mkMetadata {
  md_width : Z;
  md_height : Z;
  md_format : string
}.

(** An entry of the [images] array of [project.json]: a bare file name,
    or an object with the optional fields [name], [file] and [border]. *)
Inductive ImageItem :=
| ItemString (name : string)
| ItemObject (name file : option string) (border : option bool).

(** An entry of [layout.pages]. *)
Record LayoutPage := mkLayoutPage {
  page_type : string;
  page_content : list string
}.

(** The [layout] object of [project.json]. *)
Record Layout := mkLayout {
  layout_pages : option (list LayoutPage)
}.

(** A project: the parsed [project.json], the [path] set by
    [loadProjects] and the [processedImages] set by
    [processProjectImages]. *)
Record Project := mkProject {
  proj_path : string;
  proj_title : string;
  proj_medium : string;
  proj_year : string;
  proj_description : string;
  proj_duration : option string;
  proj_collective : option string;
  proj_curator : option string;
  proj_publisher : option string;
  proj_link : option string;
  proj_images : option (list ImageItem);
  proj_layout : option Layout;
  processedImages : list ImageRecord
}.

(** A rectangle in document points. *)
Record Rect := mkRect {
  rx : Q;
  ry : Q;
  rw : Q;
  rh : Q
}.

(** ** ImageFitter: the placement computed by [addImageToPage] *)

(** Lines 585-596 of [addImageToPage]: the size that keeps the aspect
    ratio, then the centring in the box [(x, y, maxWidth, maxHeight)]. *)
Definition placement (image : ImageRecord) (x y maxWidth maxHeight : Q) : Rect :=
  let aspectRatio := inject_Z (img_width image) / inject_Z (img_height image) in
  let width := maxWidth in
  let height := maxWidth / aspectRatio in
  let '(width, height) :=
    if Qgtb height maxHeight
    then (maxHeight * aspectRatio, maxHeight)
    else (width, height) in
  let centerX := x + (maxWidth - width) / 2 in
  let centerY := y + (maxHeight - height) / 2 in
  mkRect centerX centerY width height.

(** ** The PDF writer *)

(** What is handed to [doc.image]: the buffer that [sharp] produced for a
    resize request (source path, target width and height, JPEG quality),
    or the path of the original file. *)
Inductive ImageSource :=
| FromBuffer (path : string) (targetWidth targetHeight quality : Z)
| FromPath (path : string).

(** A call the writer carried out.  [OpImage] is a [doc.image] that
    returned; [OpBorder] stands for the chain
    [save().lineWidth(w).strokeColor(c).rect(x, y, w, h).stroke().restore()]. *)
Inductive DrawOp :=
| OpText (font : string) (size : Q) (text : string) (x y : Q)
         (width : option Q) (align : option string)
| OpImage (src : ImageSource) (r : Rect)
| OpBorder (lineWidth : Q) (color : string) (r : Rect)
| OpAddPage.

(** The writer: page size, the margins it was constructed with (the
    top, bottom and right ones are read), the running cursor, the font
    state and the calls issued so far. *)
Record Doc := mkDoc {
  doc_width : Q;
  doc_height : Q;
  doc_marginTop : Q;
  doc_marginBottom : Q;
  doc_marginRight : Q;
  doc_y : Q;
  doc_font : string;
  doc_fontSize : Q;
  doc_ops : list DrawOp
}.

Definition emit (op : DrawOp) (doc : Doc) : Doc :=
  mkDoc (doc_width doc) (doc_height doc) (doc_marginTop doc)
        (doc_marginBottom doc) (doc_marginRight doc) (doc_y doc)
        (doc_font doc) (doc_fontSize doc) (doc_ops doc ++ [op]).

Definition set_y (y : Q) (doc : Doc) : Doc :=
  mkDoc (doc_width doc) (doc_height doc) (doc_marginTop doc)
        (doc_marginBottom doc) (doc_marginRight doc) y
        (doc_font doc) (doc_fontSize doc) (doc_ops doc).

(** [doc.fontSize(size)]. *)
Definition fontSize (size : Q) (doc : Doc) : Doc :=
  mkDoc (doc_width doc) (doc_height doc) (doc_marginTop doc)
        (doc_marginBottom doc) (doc_marginRight doc) (doc_y doc)
        (doc_font doc) size (doc_ops doc).

(** [doc.font(name)]. *)
Definition font (name : string) (doc : Doc) : Doc :=
  mkDoc (doc_width doc) (doc_height doc) (doc_marginTop doc)
        (doc_marginBottom doc) (doc_marginRight doc) (doc_y doc)
        name (doc_fontSize doc) (doc_ops doc).

(** [doc.addPage()]: a page break; the cursor returns to the top margin. *)
Definition addPage (doc : Doc) : Doc :=
  set_y (doc_marginTop doc) (emit OpAddPage doc).

(** The calls a routine [f] added to the log of [doc]. *)
Definition emitted (f : Doc -> Doc) (doc : Doc) : list DrawOp :=
  skipn (List.length (doc_ops doc)) (doc_ops (f doc)).

(** ** Strings: suffix tests *)

(** [s.endsWith(suffix)]. *)
Definition endsWith (s suffix : string) : bool :=
  let ls := String.length s in
  let lf := String.length suffix in
  if (lf <=? ls)%nat
  then String.eqb (substring (ls - lf) lf s) suffix
  else false.

(** The canonical form of a character under the [i] flag of a regular
    expression without the [u] flag: the upper-case form, which for the
    characters below 128 changes the letters [a] to [z] only, and which
    never turns another character into one below 128. *)
Definition canonicalize (c : ascii) : ascii :=
  let n := nat_of_ascii c in
  if ((97 <=? n) && (n <=? 122))%nat then ascii_of_nat (n - 32) else c.

(** Matching the literal [pat] at the start of [s], ignoring case: the
    rest of [s] after the match. *)
Fixpoint match_lit (pat s : string) : option string :=
  match pat with
  | EmptyString => Some s
  | String p pat' =>
      match s with
      | EmptyString => None
      | String c s' =>
          if Ascii.eqb (canonicalize c) (canonicalize p)
          then match_lit pat' s'
          else None
      end
  end.

(** The literal [pat] followed by [$]. *)
Definition match_lit_end (pat s : string) : bool :=
  match match_lit pat s with
  | Some EmptyString => true
  | _ => false
  end.

(** [/\.(jpg|jpeg|png)$/i] tried at the start of [s]. *)
Definition match_image_here (s : string) : bool :=
  match match_lit "." s with
  | Some rest =>
      match_lit_end "jpg" rest || match_lit_end "jpeg" rest
      || match_lit_end "png" rest
  | None => false
  end.

(** [item.match(/\.(jpg|jpeg|png)$/i)] as a condition: the expression is
    tried at every position of [item], the first one first. *)
Fixpoint isImageToken (item : string) : bool :=
  match_image_here item ||
  match item with
  | EmptyString => false
  | String _ rest => isImageToken rest
  end.

(** The filter of the [gallery] case of [createProjectPage]. *)
Definition galleryFilter (item : string) : bool :=
  endsWith item ".jpg" || endsWith item ".png" || endsWith item ".jpeg".

(** ** Configuration defaults *)

(** [this.config.margin || 30]. *)
Definition margin_of (cfg : Config) : Q := or_num (cfg_margin cfg) 30.

(** [this.config.dpi || 300]. *)
Definition dpi_of (cfg : Config) : Q := or_num (cfg_dpi cfg) 300.

(** [this.config.fonts || { title: 'Helvetica-Bold', ... }]. *)
Definition fonts_of (cfg : Config) : Fonts :=
  match cfg_fonts cfg with
  | Some f => f
  | None => mkFonts "Helvetica-Bold" "Helvetica" "Helvetica" "Helvetica-Oblique"
  end.

(** The options [createPDF] passes to [new PDFDocument]. *)
Record PDFOptions := mkPDFOptions {
  opt_size : string;
  opt_layout : string;
  opt_top : Q;
  opt_bottom : Q;
  opt_left : Q;
  opt_right : Q;
  opt_Title : string;
  opt_Author : string
}.

Definition pdfOptions (cfg : Config) : PDFOptions :=
  mkPDFOptions
    (or_str (cfg_pageSize cfg) "A4")
    (or_str (cfg_orientation cfg) "landscape")
    (or_num (cfg_margin cfg) 30)
    (or_num (cfg_margin cfg) 30)
    (or_num (cfg_margin cfg) 30)
    (or_num (cfg_margin cfg) 30)
    (or_str (cfg_title cfg) "Portfolio")
    (or_str (cfg_author cfg) "Artist").

(** What reading and parsing [config.json] gives: an exception, the
    value [null], or another value, of which the generator reads the
    fields of [Config] (a value that is not an object has none of
    them). *)
Inductive ConfigFile :=
| Unreadable
| ParsedNull
| Parsed (cfg : Config).

(** The configuration [loadConfig] leaves in [this.config]: the parsed
    value, [None] standing for [null], or the fallback object when
    reading or parsing threw. *)
Definition loadConfig (file : ConfigFile) : option Config :=
  match file with
  | Unreadable =>
      Some (mkConfig (Some "Portfolio") (Some "Creative Work") (Some "Artist")
                     (Some "") (Some "") (Some "portfolio.pdf") (Some "A4")
                     None (Some 50) None None None)
  | ParsedNull => None
  | Parsed cfg => Some cfg
  end.

(** The options with which [createPDF] creates the document; [None]
    when [this.config] is [null]: reading [this.config.dpi] throws
    before any document is created. *)
Definition createPDF_options (config : option Config) : option PDFOptions :=
  match config with
  | Some cfg => Some (pdfOptions cfg)
  | None => None
  end.

(** ** Gallery grid arithmetic *)

(** [Math.ceil(Math.sqrt(n))] for an array length [n]: the integer
    square root, plus one unless [n] is a perfect square. *)
Definition ceil_sqrt (n : Z) : Z :=
  let s := Z.sqrt n in
  if (s * s =? n)%Z then s else (s + 1)%Z.

(** The elements of an array with their indices, as the loop
    [for (let i = 0; i < images.length; i++)] visits them. *)
Fixpoint indexed {A : Type} (i : Z) (l : list A) : list (Z * A) :=
  match l with
  | [] => []
  | a :: rest => (i, a) :: indexed (i + 1)%Z rest
  end.

(** [cols] and [rows] of the grid for [n] images. *)
Definition gridCols (n : Z) : Z := ceil_sqrt n.

Definition gridRows (n : Z) : Z :=
  Qceiling (inject_Z n / inject_Z (gridCols n)).

(** [imageWidth] and [imageHeight] of the grid. *)
Definition cellWidth (availableWidth : Q) (n : Z) : Q :=
  (availableWidth - 20 * (inject_Z (gridCols n) - 1)) / inject_Z (gridCols n).

Definition cellHeight (availableHeight : Q) (n : Z) : Q :=
  (availableHeight - 20 * (inject_Z (gridRows n) - 1)) / inject_Z (gridRows n).

(** [col] and [row] of the image with index [i]. *)
Definition gridCol (n i : Z) : Z := Z.rem i (gridCols n).

Definition gridRow (n i : Z) : Z :=
  Qfloor (inject_Z i / inject_Z (gridCols n)).

(** The box of the image with index [i] in a grid of [n] images. *)
Definition gridCell (margin availableWidth availableHeight : Q) (n i : Z) : Rect :=
  let imageWidth := cellWidth availableWidth n in
  let imageHeight := cellHeight availableHeight n in
  let x := margin + inject_Z (gridCol n i) * (imageWidth + 20) in
  let y := margin + inject_Z (gridRow n i) * (imageHeight + 20) in
  mkRect x y imageWidth imageHeight.

(** The calls [addImageToPage(doc, image, x, y, maxWidth, maxHeight)]
    that [createGalleryPage] makes, in order: the image and its box. *)
Definition galleryCalls (cfg : Config) (doc : Doc) (images : list ImageRecord)
  : list (ImageRecord * Rect) :=
  let margin := margin_of cfg in
  let pageWidth := doc_width doc in
  let pageHeight := doc_height doc in
  let availableWidth := pageWidth - margin * 2 in
  let availableHeight := pageHeight - margin * 2 in
  match images with
  | [image0] =>
      [(image0, mkRect margin margin availableWidth availableHeight)]
  | [image0; image1] =>
      let imageHeight := (availableHeight - 20) / 2 in
      [(image0, mkRect margin margin availableWidth imageHeight);
       (image1, mkRect margin (margin + imageHeight + 20)
                       availableWidth imageHeight)]
  | _ =>
      let n := Z.of_nat (List.length images) in
      map (fun '(i, image) =>
             (image, gridCell margin availableWidth availableHeight n i))
          (indexed 0 images)
  end.

(** ** Image references *)

(** [imageName] as the loop of [processProjectImages] computes it;
    [None] is [undefined]. *)
Definition imageName (item : ImageItem) : option string :=
  match item with
  | ItemString name => Some name
  | ItemObject name file _ => if truthy_ostr name then name else file
  end.

(** [imageConfig.border || false]. *)
Definition imageConfigBorder (item : ImageItem) : bool :=
  match item with
  | ItemString _ => false
  | ItemObject _ _ border => truthy_obool border
  end.

(** [images.slice(i, j)] for [i <= j]. *)
Definition slice {A : Type} (i j : nat) (l : list A) : list A :=
  firstn (j - i) (skipn i l).

(** [array.find(pred)]. *)
Definition findImage (name : string) (images : list ImageRecord)
  : option ImageRecord :=
  find (fun img => String.eqb (img_name img) name) images.

(** [array.filter(Boolean)] on the results of [find]. *)
Definition filterBoolean {A : Type} (l : list (option A)) : list A :=
  flat_map (fun o => match o with Some a => [a] | None => [] end) l.

(** The template text of an optional field that was tested to be truthy. *)
Definition ostr (v : option string) : string :=
  match v with
  | Some s => s
  | None => "undefined"
  end.

Definition bullet : string := " • ".

Definition newline : string := String (ascii_of_nat 10) EmptyString.

(** ** Sample inputs *)

(** A configuration without [margin] and [dpi], borders off. *)
Definition sample_config : Config :=
  mkConfig (Some "Portfolio") (Some "Creative Work") (Some "Artist")
           None None None (Some "A4") (Some "landscape") None None None
           (Some (mkImageBorder (Some false) (Some (5 # 10)) (Some "#CCCCCC"))).

(** The same configuration with borders on. *)
Definition bordered_config : Config :=
  mkConfig (Some "Portfolio") (Some "Creative Work") (Some "Artist")
           None None None (Some "A4") (Some "landscape") None None None
           (Some (mkImageBorder (Some true) None None)).

(** A configuration with a negative [margin] and a negative [dpi]. *)
Definition negative_config : Config :=
  mkConfig (Some "Portfolio") None (Some "Artist") None None None
           (Some "A4") (Some "landscape") (Some (- (10))) (Some (- (72)))
           None None.

(** An empty A4 page in landscape, margins of 30 points. *)
Definition landscape_doc : Doc :=
  mkDoc (84189 # 100) (59528 # 100) 30 30 30 30 "Helvetica" 12 [].

(** An empty square page whose content area is 540 by 540 points. *)
Definition square_doc : Doc :=
  mkDoc 600 600 30 30 30 30 "Helvetica" 12 [].

Definition photo (name : string) (width height : Z) (border : bool)
  : ImageRecord :=
  mkImageRecord name ("/portfolio/demo/" ++ name) width height "jpeg" border.

Definition five_photos : list ImageRecord :=
  [photo "a.jpg" 800 600 false; photo "b.jpg" 600 800 false;
   photo "c.jpg" 800 800 false; photo "d.jpg" 1600 900 false;
   photo "e.jpg" 900 1600 false].

(** A text of one line: the line height of its font, which for the
    standard fonts of PDFKit is 1.19 times the font size in
    Helvetica-Bold and 1.156 times the font size in Helvetica and
    Helvetica-Oblique. *)
Definition one_line_measure (fontName : string) (size : Q) (text : string)
    (width : Q) : Q :=
  if String.eqb fontName "Helvetica-Bold"
  then size * (1190 # 1000)
  else size * (1156 # 1000).

(** A cursor for the texts that leave the page: the top margin.  No text
    of the sample inputs leaves the page. *)
Definition restart_at_top (doc : Doc) (text : string) (y width : Q) : Q :=
  doc_marginTop doc.

Definition no_trim (s : string) : string := s.

Definition slash_join (a b : string) : string := a ++ "/" ++ b.

(** A directory in which every file but [missing.jpg] is an 800 by 600
    JPEG. *)
Definition demo_probe (path : string) : option Metadata :=
  if String.eqb path "/portfolio/demo/missing.jpg"
  then None
  else Some (mkMetadata 800 600 "jpeg").

Definition resize_ok (path : string) (width height quality : Z) : bool := true.

Definition draw_ok (src : ImageSource) : bool := true.

Definition demo_project (images : option (list ImageItem))
    (layout : option Layout) (processed : list ImageRecord) : Project :=
  mkProject "/portfolio/demo" "Untitled" "Photography" "2024"
            "A short text." None None None None None images layout processed.

Set Default Proof Using "Type".

Section Generator.

(** *** External collaborators

    - [measure font size text width]: the height PDFKit gives to [text]
      wrapped at [width] in the given font; it is what
      [doc.heightOfString] returns and the amount by which [doc.text]
      advances [doc.y] when the text stays on the page.
    - [overflow_y doc text y width]: the cursor PDFKit leaves after a
      [doc.text] at [y] that does not stay on the page of [doc]: PDFKit
      then adds pages of its own and goes on below their top margin.
    - [js_trim]: [String.prototype.trim].
    - [path_join]: [path.join].
    - [probe p]: the metadata of the file at [p] when [fs.access] and
      [sharp(p).metadata()] both succeed, [None] when one of them fails.
    - [sharp_ok p w h q]: the resize of [p] to [w] by [h] at JPEG
      quality [q] produced a buffer.
    - [image_ok src]: [doc.image] accepted [src] without throwing. *)
Variable measure : string -> Q -> string -> Q -> Q.
Variable overflow_y : Doc -> string -> Q -> Q -> Q.
Variable js_trim : string -> string.
Variable path_join : string -> string -> string.
Variable probe : string -> option Metadata.
Variable sharp_ok : string -> Z -> Z -> Z -> bool.
Variable image_ok : ImageSource -> bool.

(** A text of height [height] drawn at [y] stays on the page of [doc]:
    it has some height and ends above the bottom margin, so that no line
    of it makes the writer add a page. *)
Definition stays_on_page (doc : Doc) (y height : Q) : bool :=
  Qltb 0 height && Qltb (y + height) (doc_height doc - doc_marginBottom doc).

(** [doc.text(text, x, y, { width, align })] in the current font: the
    call is logged.  Without a [width] the text wraps at the right
    margin.  The cursor moves below the text when the text stays on the
    page; when it does not, the writer goes on by its own rules and
    leaves the cursor at [overflow_y]. *)
Definition doc_text (doc : Doc) (text : string) (x y : Q)
    (width : option Q) (align : option string) : Doc :=
  let wrap :=
    match width with
    | Some w => w
    | None => doc_width doc - x - doc_marginRight doc
    end in
  let height := measure (doc_font doc) (doc_fontSize doc) text wrap in
  let cursor :=
    if stays_on_page doc y height
    then y + height
    else overflow_y doc text y wrap in
  set_y cursor
        (emit (OpText (doc_font doc) (doc_fontSize doc) text x y width align)
              doc).

(** [doc.heightOfString(text, { width })] in the current font. *)
Definition heightOfString (doc : Doc) (text : string) (width : Q) : Q :=
  measure (doc_font doc) (doc_fontSize doc) text width.

(** *** ImageCatalog *)

(** The loop of [processProjectImages]; [None] when [path.join] throws
    on an [undefined] name, which rejects the whole call. *)
Fixpoint processImageItems (path : string) (items : list ImageItem)
    (processed : list ImageRecord) : option (list ImageRecord) :=
  match items with
  | [] => Some processed
  | imageItem :: rest =>
      match imageName imageItem with
      | None => None
      | Some name =>
          let imagePath := path_join path name in
          match probe imagePath with
          | Some metadata =>
              processImageItems path rest
                (processed ++
                 [mkImageRecord name imagePath (md_width metadata)
                    (md_height metadata) (md_format metadata)
                    (imageConfigBorder imageItem)])
          | None => processImageItems path rest processed
          end
      end
  end.

Definition set_processedImages (project : Project)
    (images : list ImageRecord) : Project :=
  mkProject (proj_path project) (proj_title project) (proj_medium project)
    (proj_year project) (proj_description project) (proj_duration project)
    (proj_collective project) (proj_curator project)
    (proj_publisher project) (proj_link project) (proj_images project)
    (proj_layout project) images.

Definition processProjectImages (project : Project) : option Project :=
  let images :=
    match proj_images project with
    | Some l => l
    | None => []
    end in
  match processImageItems (proj_path project) images [] with
  | Some processed => Some (set_processedImages project processed)
  | None => None
  end.

(** *** ImageFitter and image drawing *)

(** [borderConfig && borderConfig.enabled] as a condition. *)
Definition globalBorder (cfg : Config) : bool :=
  match cfg_imageBorder cfg with
  | Some borderConfig => truthy_obool (enabled borderConfig)
  | None => false
  end.

(** [borderConfig?.width || 0.5]. *)
Definition borderWidth (cfg : Config) : Q :=
  match cfg_imageBorder cfg with
  | Some borderConfig => or_num (border_width borderConfig) (5 # 10)
  | None => 5 # 10
  end.

(** [borderConfig?.color || '#CCCCCC']. *)
Definition borderColor (cfg : Config) : string :=
  match cfg_imageBorder cfg with
  | Some borderConfig => or_str (border_color borderConfig) "#CCCCCC"
  | None => "#CCCCCC"
  end.

(** The source that [doc.image] drew, [None] when every attempt threw
    and the outer [catch] of [addImageToPage] took over. *)
Definition drawnSource (cfg : Config) (image : ImageRecord) (r : Rect)
  : option ImageSource :=
  let dpi := dpi_of cfg in
  let targetWidth := Math_round (rw r * dpi / 72) in
  let targetHeight := Math_round (rh r * dpi / 72) in
  let original := FromPath (img_path image) in
  if Qltb dpi 300 || (img_width image >? targetWidth * 2)%Z
  then
    let quality := if Qle_bool 300 dpi then 95%Z else 85%Z in
    let processedBuffer :=
      FromBuffer (img_path image) targetWidth targetHeight quality in
    if sharp_ok (img_path image) targetWidth targetHeight quality
       && image_ok processedBuffer
    then Some processedBuffer
    else if image_ok original then Some original else None
  else if image_ok original then Some original else None.

Definition addImageToPage (cfg : Config) (doc : Doc) (image : ImageRecord)
    (x y maxWidth maxHeight : Q) : Doc :=
  let r := placement image x y maxWidth maxHeight in
  match drawnSource cfg image r with
  | None => doc
  | Some src =>
      let doc := emit (OpImage src r) doc in
      let shouldDrawBorder := img_border image || globalBorder cfg in
      if shouldDrawBorder
      then emit (OpBorder (borderWidth cfg) (borderColor cfg) r) doc
      else doc
  end.

(** *** Pages *)

Definition createGalleryPage (cfg : Config) (doc : Doc)
    (images : list ImageRecord) : Doc :=
  fold_left
    (fun doc call =>
       let '(image, box) := call in
       addImageToPage cfg doc image (rx box) (ry box) (rw box) (rh box))
    (galleryCalls cfg doc images) doc.

Definition createFullPage (cfg : Config) (doc : Doc) (image : ImageRecord)
  : Doc :=
  let margin := margin_of cfg in
  let pageWidth := doc_width doc in
  let pageHeight := doc_height doc in
  addImageToPage cfg doc image margin margin
    (pageWidth - margin * 2) (pageHeight - margin * 2).

(** The info page of the default layout. *)
Definition createInfoPage (cfg : Config) (doc : Doc) (project : Project)
  : Doc :=
  let margin := margin_of cfg in
  let pageWidth := doc_width doc in
  let doc := font "Helvetica-Bold" (fontSize 24 doc) in
  let doc := doc_text doc (proj_title project) margin (margin + 20)
                      None None in
  let mediumYearText :=
    proj_medium project ++ bullet ++ proj_year project in
  let mediumYearText :=
    if truthy_ostr (proj_duration project)
    then mediumYearText ++ bullet ++ ostr (proj_duration project)
    else mediumYearText in
  let doc := font "Helvetica" (fontSize 14 doc) in
  let doc := doc_text doc mediumYearText margin (doc_y doc + 20)
                      None None in
  let doc :=
    if truthy_ostr (proj_collective project)
       || truthy_ostr (proj_curator project)
       || truthy_ostr (proj_publisher project)
    then
      let creditsText := "" in
      let creditsText :=
        if truthy_ostr (proj_collective project)
        then creditsText ++ "Collective: " ++ ostr (proj_collective project)
        else creditsText in
      let creditsText :=
        if truthy_ostr (proj_curator project)
        then creditsText ++ "Curator: " ++ ostr (proj_curator project)
        else creditsText in
      let creditsText :=
        if truthy_ostr (proj_publisher project)
        then creditsText ++ "Published by: " ++ ostr (proj_publisher project)
        else creditsText in
      let doc := font "Helvetica-Oblique" (fontSize 12 doc) in
      doc_text doc creditsText margin (doc_y doc + 15) None None
    else doc in
  let doc :=
    if truthy_str (proj_description project)
    then
      let doc := font "Helvetica" (fontSize 12 doc) in
      doc_text doc (proj_description project) margin (doc_y doc + 30)
               (Some (pageWidth - margin * 2)) (Some "left")
    else doc in
  if truthy_ostr (proj_link project)
  then
    let doc := font "Helvetica-Oblique" (fontSize 10 doc) in
    doc_text doc (ostr (proj_link project)) margin (doc_y doc + 20)
             (Some (pageWidth - margin * 2)) (Some "left")
  else doc.

(** [project.medium], followed by the duration when there is one. *)
Definition mediumText (project : Project) : string :=
  if truthy_ostr (proj_duration project)
  then proj_medium project ++ bullet ++ ostr (proj_duration project)
  else proj_medium project.

(** One turn of the loop of [createSingleColumnInfoPage]; the state is
    the writer and [currentY]. *)
Definition singleColumnItem (cfg : Config) (project : Project)
    (st : Doc * Q) (item : string) : Doc * Q :=
  let '(doc, currentY) := st in
  let margin := margin_of cfg in
  let pageWidth := doc_width doc in
  let pageHeight := doc_height doc in
  let fonts := fonts_of cfg in
  if String.eqb item "title" then
    let doc := font (font_title fonts) (fontSize 24 doc) in
    let doc := doc_text doc (proj_title project) margin currentY None None in
    (doc, doc_y doc + 20)
  else if String.eqb item "medium" then
    let doc := font (font_heading fonts) (fontSize 14 doc) in
    let doc := doc_text doc (mediumText project) margin currentY None None in
    (doc, doc_y doc + 10)
  else if String.eqb item "year" then
    let doc := font (font_heading fonts) (fontSize 14 doc) in
    let doc := doc_text doc (proj_year project) margin currentY None None in
    (doc, doc_y doc + 10)
  else if String.eqb item "credits" then
    if truthy_ostr (proj_collective project)
       || truthy_ostr (proj_curator project)
       || truthy_ostr (proj_publisher project)
    then
      let doc := font (font_caption fonts) (fontSize 12 doc) in
      let creditsText := "" in
      let creditsText :=
        if truthy_ostr (proj_collective project)
        then creditsText ++ "Collective: " ++ ostr (proj_collective project)
               ++ newline
        else creditsText in
      let creditsText :=
        if truthy_ostr (proj_curator project)
        then creditsText ++ "Curator: " ++ ostr (proj_curator project)
               ++ newline
        else creditsText in
      let creditsText :=
        if truthy_ostr (proj_publisher project)
        then creditsText ++ "Published by: " ++ ostr (proj_publisher project)
        else creditsText in
      let doc := doc_text doc (js_trim creditsText) margin currentY
                          None None in
      (doc, doc_y doc + 15)
    else (doc, currentY)
  else if String.eqb item "description" then
    let doc := font (font_body fonts) (fontSize 12 doc) in
    let doc := doc_text doc (proj_description project) margin currentY
                        (Some (pageWidth - margin * 2)) None in
    (doc, doc_y doc + 20)
  else if String.eqb item "link" then
    if truthy_ostr (proj_link project)
    then
      let doc := font (font_caption fonts) (fontSize 10 doc) in
      let doc := doc_text doc (ostr (proj_link project)) margin currentY
                          (Some (pageWidth - margin * 2)) None in
      (doc, doc_y doc + 15)
    else (doc, currentY)
  else if isImageToken item then
    match findImage item (processedImages project) with
    | Some image =>
        let remainingHeight := pageHeight - currentY - margin in
        let maxImageHeight :=
          Qmin3 (remainingHeight * (6 # 10)) (pageHeight * (4 # 10)) 400 in
        let doc := addImageToPage cfg doc image margin currentY
                                  (pageWidth - margin * 2) maxImageHeight in
        (doc, currentY + (maxImageHeight + 20))
    | None => (doc, currentY)
    end
  else (doc, currentY).

Definition createSingleColumnInfoPage (cfg : Config) (doc : Doc)
    (project : Project) (page : LayoutPage) : Doc :=
  let margin := margin_of cfg in
  let currentY := margin + 20 in
  fst (fold_left (singleColumnItem cfg project) (page_content page)
                 (doc, currentY)).

(** [textColumnWidth] of the two-column info page. *)
Definition textColumnWidth (cfg : Config) (doc : Doc) : Q :=
  let margin := margin_of cfg in
  let pageWidth := doc_width doc in
  let columnGap := 40 in
  (pageWidth - margin * 2 - columnGap) * (45 # 100).

(** [imageColumnWidth] of the two-column info page. *)
Definition imageColumnWidth (cfg : Config) (doc : Doc) : Q :=
  let margin := margin_of cfg in
  let pageWidth := doc_width doc in
  let columnGap := 40 in
  (pageWidth - margin * 2 - columnGap) * (55 # 100).

(** The table [lineSpacing] of [createTwoColumnInfoPage]: the height the
    first pass counts for a keyword (the entry of [description] is
    computed from the text). *)
Definition lineSpacing_title : Q := 44 + 20.

Definition lineSpacing_medium : Q := 14 + 10.

Definition lineSpacing_year : Q := 14 + 10.

Definition lineSpacing_link : Q := 10 + 15.

(** One turn of the loop that adds up [textHeight]. *)
Definition textHeightItem (project : Project) (descriptionHeight : Q)
    (textHeight : Q) (item : string) : Q :=
  if isImageToken item then textHeight
  else if String.eqb item "title" then textHeight + lineSpacing_title
  else if String.eqb item "medium" then textHeight + lineSpacing_medium
  else if String.eqb item "year" then textHeight + lineSpacing_year
  else if String.eqb item "description"
  then textHeight + (descriptionHeight + 20)
  else if String.eqb item "link" then
    if truthy_ostr (proj_link project)
    then textHeight + lineSpacing_link
    else textHeight
  else textHeight.

(** The first pass of [createTwoColumnInfoPage]: [textHeight] after the
    loop over [page.content]. *)
Definition twoColumnTextHeight (cfg : Config) (doc : Doc)
    (project : Project) (page : LayoutPage) : Q :=
  let fonts := fonts_of cfg in
  let doc := font (font_body fonts) (fontSize 12 doc) in
  let descriptionHeight :=
    heightOfString doc (proj_description project)
                   (textColumnWidth cfg doc) in
  fold_left (textHeightItem project descriptionHeight)
            (page_content page) 0.

(** One turn of the loop that renders the text column. *)
Definition twoColumnItem (cfg : Config) (project : Project)
    (textColumnWidth : Q) (st : Doc * Q) (item : string) : Doc * Q :=
  let '(doc, currentY) := st in
  let margin := margin_of cfg in
  let fonts := fonts_of cfg in
  if isImageToken item then (doc, currentY)
  else if String.eqb item "title" then
    let doc := font (font_title fonts) (fontSize 24 doc) in
    let doc := doc_text doc (proj_title project) margin currentY
                        (Some textColumnWidth) None in
    (doc, doc_y doc + 20)
  else if String.eqb item "medium" then
    let doc := font (font_heading fonts) (fontSize 14 doc) in
    let doc := doc_text doc (mediumText project) margin currentY
                        (Some textColumnWidth) None in
    (doc, doc_y doc + 10)
  else if String.eqb item "year" then
    let doc := font (font_heading fonts) (fontSize 14 doc) in
    let doc := doc_text doc (proj_year project) margin currentY
                        (Some textColumnWidth) None in
    (doc, doc_y doc + 10)
  else if String.eqb item "description" then
    let doc := font (font_body fonts) (fontSize 12 doc) in
    let doc := doc_text doc (proj_description project) margin currentY
                        (Some textColumnWidth) None in
    (doc, doc_y doc + 20)
  else if String.eqb item "link" then
    if truthy_ostr (proj_link project)
    then
      let doc := font (font_caption fonts) (fontSize 10 doc) in
      let doc := doc_text doc (ostr (proj_link project)) margin currentY
                          (Some textColumnWidth) None in
      (doc, doc_y doc + 15)
    else (doc, currentY)
  else (doc, currentY).

(** Where the text column starts: the block of height [textHeight] is
    centred between the margins. *)
Definition twoColumnStartY (cfg : Config) (doc : Doc) (project : Project)
    (page : LayoutPage) : Q :=
  let margin := margin_of cfg in
  let pageHeight := doc_height doc in
  let textHeight := twoColumnTextHeight cfg doc project page in
  let availableHeight := pageHeight - margin * 2 in
  margin + (availableHeight - textHeight) / 2.

(** The second pass of [createTwoColumnInfoPage]: the writer and
    [currentY] after the text column was rendered. *)
Definition twoColumnRenderText (cfg : Config) (doc : Doc)
    (project : Project) (page : LayoutPage) : Doc * Q :=
  let fonts := fonts_of cfg in
  let doc := font (font_body fonts) (fontSize 12 doc) in
  fold_left (twoColumnItem cfg project (textColumnWidth cfg doc))
            (page_content page)
            (doc, twoColumnStartY cfg doc project page).

Definition createTwoColumnInfoPage (cfg : Config) (doc : Doc)
    (project : Project) (page : LayoutPage) : Doc :=
  let margin := margin_of cfg in
  let pageHeight := doc_height doc in
  let imageColumnX := margin + textColumnWidth cfg doc + 40 in
  let imageItem := find isImageToken (page_content page) in
  let doc := fst (twoColumnRenderText cfg doc project page) in
  match imageItem with
  | Some item =>
      match findImage item (processedImages project) with
      | Some image =>
          let imageHeight := pageHeight - margin * 3 in
          addImageToPage cfg doc image imageColumnX (margin + 20)
                         (imageColumnWidth cfg doc) imageHeight
      | None => doc
      end
  | None => doc
  end.

Definition createInfoPageFromLayout (cfg : Config) (doc : Doc)
    (project : Project) (page : LayoutPage) : Doc :=
  let pageWidth := doc_width doc in
  let pageHeight := doc_height doc in
  let hasImage := existsb isImageToken (page_content page) in
  let isLandscape := Qgtb pageWidth pageHeight in
  if hasImage && isLandscape
  then createTwoColumnInfoPage cfg doc project page
  else createSingleColumnInfoPage cfg doc project page.

Definition createProjectPage (cfg : Config) (doc : Doc) (project : Project)
    (page : LayoutPage) : Doc :=
  if String.eqb (page_type page) "info" then
    createInfoPageFromLayout cfg doc project page
  else if String.eqb (page_type page) "gallery" then
    let galleryImages :=
      filterBoolean
        (map (fun imageName => findImage imageName (processedImages project))
             (filter galleryFilter (page_content page))) in
    createGalleryPage cfg doc galleryImages
  else if String.eqb (page_type page) "full" then
    let fullImage :=
      match page_content page with
      | content0 :: _ => findImage content0 (processedImages project)
      | [] => None
      end in
    match fullImage with
    | Some image => createFullPage cfg doc image
    | None => doc
    end
  else doc.

(** The loop of [createDefaultProjectLayout], from index [i]; [fuel]
    bounds the number of turns. *)
Fixpoint galleryLoop (fuel : nat) (cfg : Config) (images : list ImageRecord)
    (i : nat) (doc : Doc) : Doc :=
  match fuel with
  | O => doc
  | S fuel' =>
      if (i <? List.length images)%nat
      then
        let pageImages := slice i (i + 2) images in
        let doc := createGalleryPage cfg doc pageImages in
        let doc :=
          if (i + 2 <? List.length images)%nat then addPage doc else doc in
        galleryLoop fuel' cfg images (i + 2)%nat doc
      else doc
  end.

Definition createDefaultProjectLayout (cfg : Config) (doc : Doc)
    (project : Project) : Doc :=
  let doc := createInfoPage cfg doc project in
  let doc := addPage doc in
  let images := processedImages project in
  galleryLoop (List.length images) cfg images 0 doc.

(** [project.layout.pages] when both are there. *)
Definition explicitPages (project : Project) : option (list LayoutPage) :=
  match proj_layout project with
  | Some layout => layout_pages layout
  | None => None
  end.

Definition createProjectPages (cfg : Config) (doc : Doc) (project : Project)
  : Doc :=
  match explicitPages project with
  | None => createDefaultProjectLayout cfg doc project
  | Some pages =>
      fold_left
        (fun doc page => addPage (createProjectPage cfg doc project page))
        pages doc
  end.

(** *** Loading the projects and rendering them all *)

(** An entry of [fs.readdir(inputDir, { withFileTypes: true })]. *)
Record DirEntry := mkDirEntry {
  entry_name : string;
  entry_isDirectory : bool
}.

(** [read_project p]: the object [JSON.parse] returns for the file at
    [p], [None] when reading or parsing throws.  Its [path] and
    [processedImages] are set by [loadProjects]. *)
Variable read_project : string -> option Project.

(** [project.path = projectPath]. *)
Definition set_path (project : Project) (path : string) : Project :=
  mkProject path (proj_title project) (proj_medium project)
    (proj_year project) (proj_description project) (proj_duration project)
    (proj_collective project) (proj_curator project)
    (proj_publisher project) (proj_link project) (proj_images project)
    (proj_layout project) (processedImages project).

(** The body of the loop of [loadProjects] for one directory: the name
    of the directory (kept in [project.directory]) and the project, or
    [None] when the [catch] skipped the directory. *)
Definition loadProject (inputDir : string) (dir : DirEntry)
  : option (string * Project) :=
  let projectPath := path_join inputDir (entry_name dir) in
  let projectJsonPath := path_join projectPath "project.json" in
  match read_project projectJsonPath with
  | None => None
  | Some project =>
      let project := set_path project projectPath in
      match processProjectImages project with
      | None => None
      | Some project => Some (entry_name dir, project)
      end
  end.

(** [this.projects] after [loadProjects]. *)
Definition loadProjects (inputDir : string) (entries : list DirEntry)
  : list (string * Project) :=
  let projectDirs := filter entry_isDirectory entries in
  fold_left
    (fun projects dir =>
       match loadProject inputDir dir with
       | Some loaded => (projects ++ [loaded])%list
       | None => projects
       end)
    projectDirs [].

(** The loop of [createPDF] over [this.projects]. *)
Definition createAllProjectPages (cfg : Config) (doc : Doc)
    (projects : list Project) : Doc :=
  fold_left (fun doc project => createProjectPages cfg doc project)
            projects doc.

Local Open Scope list_scope.
Local Open Scope Q_scope.

(** ** Notions used by the statements *)

(** The box [inner] lies inside the box [outer]. *)
Definition rect_within (inner outer : Rect) : Prop :=
  rx outer <= rx inner /\ ry outer <= ry inner /\
  rx inner + rw inner <= rx outer + rw outer /\
  ry inner + rh inner <= ry outer + rh outer.

(** Two boxes overlap when they share a point of their interiors. *)
Definition rect_overlap (a b : Rect) : Prop :=
  rx a < rx b + rw b /\ rx b < rx a + rw a /\
  ry a < ry b + rh b /\ ry b < ry a + rh a.

(** A numeric field is absent, or present with a value that satisfies [P]. *)
Definition absent_or (P : Q -> Prop) (v : option Q) : Prop :=
  v = None \/ exists q, v = Some q /\ P q.

(** The name an image reference denotes, in the words of the
    specification: the token itself, or the [name] field of the object
    or, when that is absent, its [file] field.  A [name] that is the
    empty string names nothing and counts as absent. *)
Definition spec_name (item : ImageItem) : option string :=
  match item with
  | ItemString token => Some token
  | ItemObject (Some (String c rest)) _ _ => Some (String c rest)
  | ItemObject _ file _ => file
  end.

(** The border override an image reference denotes, in the words of the
    specification: [false] for a bare token, the [border] field of an
    object. *)
Definition spec_border (item : ImageItem) : bool :=
  match item with
  | ItemString _ => false
  | ItemObject _ _ (Some border) => border
  | ItemObject _ _ None => false
  end.

(** The images two by two in their order, the last group holding one
    image when their number is odd. *)
Fixpoint chunks2 {A : Type} (l : list A) : list (list A) :=
  match l with
  | [] => []
  | [a] => [[a]]
  | a :: b :: rest => [a; b] :: chunks2 rest
  end.

(** The groups of calls [segs] with the separator [sep] between two
    consecutive groups, and none after the last. *)
Fixpoint intercalate {A : Type} (sep : list A) (segs : list (list A))
  : list A :=
  match segs with
  | [] => []
  | [seg] => seg
  | seg :: rest => seg ++ sep ++ intercalate sep rest
  end.

(** The string in lower case, for the letters [A] to [Z]. *)
Definition lower_ascii (c : ascii) : ascii :=
  let n := nat_of_ascii c in
  if ((65 <=? n) && (n <=? 90))%nat then ascii_of_nat (n + 32) else c.

Fixpoint lower (s : string) : string :=
  match s with
  | EmptyString => EmptyString
  | String c rest => String (lower_ascii c) (lower rest)
  end.

(** [s] ends with [suffix]. *)
Definition has_suffix (s suffix : string) : Prop :=
  exists prefix, s = (prefix ++ suffix)%string.

(** [s] ends, letter case ignored, with [suffix]. *)
Definition has_suffix_ci (s suffix : string) : Prop :=
  exists prefix ext, s = (prefix ++ ext)%string /\ lower ext = suffix.

(** The record [r] is what the reference [item] of a project at [path]
    denotes: the name and the border override of the reference, the
    joined path and the metadata found there. *)
Definition denotes (path : string) (item : ImageItem) (r : ImageRecord)
  : Prop :=
  spec_name item = Some (img_name r) /\
  img_border r = spec_border item /\
  img_path r = path_join path (img_name r) /\
  probe (img_path r) =
    Some (mkMetadata (img_width r) (img_height r) (img_format r)).

(** The file of the reference [item] is there: the reference has a
    name, and the probe of the joined path succeeds. *)
Definition file_found (path : string) (item : ImageItem) : Prop :=
  exists name metadata,
    spec_name item = Some name /\
    probe (path_join path name) = Some metadata.

(** [d'] is [d] after a routine that drew on the current page: the page
    and its margins are the same, and calls other than page breaks were
    added to the log. *)
Definition renders (d d' : Doc) : Prop :=
  doc_width d' = doc_width d /\ doc_height d' = doc_height d /\
  doc_marginTop d' = doc_marginTop d /\
  doc_marginRight d' = doc_marginRight d /\
  exists ops, doc_ops d' = doc_ops d ++ ops /\ ~ In OpAddPage ops.

(** The gallery pages of the groups [chunks], a page break between two
    consecutive pages and none after the last. *)
Fixpoint galleryPages (cfg : Config) (chunks : list (list ImageRecord))
    (doc : Doc) : Doc :=
  match chunks with
  | [] => doc
  | chunk :: rest =>
      let doc := createGalleryPage cfg doc chunk in
      match rest with
      | [] => doc
      | _ :: _ => galleryPages cfg rest (addPage doc)
      end
  end.

(** [d'] has the page of [d]. *)
Definition same_page (d d' : Doc) : Prop :=
  doc_width d' = doc_width d /\ doc_height d' = doc_height d.

(** The calls [seg] are those of the routine [f] run on some writer with
    the page of [doc]; there is no page break among them. *)
Definition page_segment (doc : Doc) (f : Doc -> Doc) (seg : list DrawOp)
  : Prop :=
  ~ In OpAddPage seg /\ exists d, same_page doc d /\ seg = emitted f d.

(** Every character is one of the 256 characters. *)
Definition all_ascii : list ascii := map ascii_of_nat (seq 0 256).

(** The probe of the file that the reference [item] names succeeds. *)
Definition reference_found (path : string) (item : ImageItem) : bool :=
  match imageName item with
  | Some name =>
      match probe (path_join path name) with
      | Some _ => true
      | None => false
      end
  | None => false
  end.

(** The [images] array of a project, empty when the field is missing. *)
Definition references (project : Project) : list ImageItem :=
  match proj_images project with
  | Some items => items
  | None => []
  end.

(** [targetWidth], [targetHeight] and the JPEG quality of
    [addImageToPage] for a placement [r]. *)
Definition targetWidth (cfg : Config) (r : Rect) : Z :=
  Math_round (rw r * dpi_of cfg / 72).

Definition targetHeight (cfg : Config) (r : Rect) : Z :=
  Math_round (rh r * dpi_of cfg / 72).

Definition jpegQuality (cfg : Config) : Z :=
  if Qle_bool 300 (dpi_of cfg) then 95%Z else 85%Z.

(** The image is to be resampled: the DPI is below 300, or the image is
    more than twice as wide as the target. *)
Definition wants_resize (cfg : Config) (image : ImageRecord) (r : Rect)
  : Prop :=
  dpi_of cfg < 300 \/ (targetWidth cfg r * 2 < img_width image)%Z.

(** The resampled buffer of [image] for the placement [r]. *)
Definition resizedBuffer (cfg : Config) (image : ImageRecord) (r : Rect)
  : ImageSource :=
  FromBuffer (img_path image) (targetWidth cfg r) (targetHeight cfg r)
             (jpegQuality cfg).

(** The rectangles of the images drawn by the calls [ops], in order. *)
Fixpoint drawnRects (ops : list DrawOp) : list Rect :=
  match ops with
  | [] => []
  | OpImage _ r :: rest => r :: drawnRects rest
  | _ :: rest => drawnRects rest
  end.

(** The part of the page between the margins. *)
Definition contentArea (cfg : Config) (doc : Doc) : Rect :=
  mkRect (margin_of cfg) (margin_of cfg)
         (doc_width doc - margin_of cfg * 2)
         (doc_height doc - margin_of cfg * 2).

(** The calls that one [addImageToPage] of [image] in [box] logs. *)
Definition imageOps (cfg : Config) (call : ImageRecord * Rect)
  : list DrawOp :=
  let '(image, box) := call in
  let r := placement image (rx box) (ry box) (rw box) (rh box) in
  match drawnSource cfg image r with
  | None => []
  | Some src =>
      OpImage src r ::
      (if img_border image || globalBorder cfg
       then [OpBorder (borderWidth cfg) (borderColor cfg) r]
       else [])
  end.

(** An image with positive width and height. *)
Definition positive_size (image : ImageRecord) : Prop :=
  (0 < img_width image)%Z /\ (0 < img_height image)%Z.

(** A box with positive width and height. *)
Definition positive_box (box : Rect) : Prop := 0 < rw box /\ 0 < rh box.

(** A text of the text column of a two-column info page: one of the
    five texts of the project, drawn at the left margin and wrapped at
    the width of the column. *)
Definition column_text (cfg : Config) (project : Project) (width : Q)
    (op : DrawOp) : Prop :=
  exists fontName size text y,
    op = OpText fontName size text (margin_of cfg) y (Some width) None /\
    (text = proj_title project \/ text = mediumText project \/
     text = proj_year project \/ text = proj_description project \/
     text = ostr (proj_link project)).

(** The tokens a two-column info page reads: the image tokens and five
    keywords. *)
Definition two_column_token (item : string) : bool :=
  isImageToken item
  || String.eqb item "title" || String.eqb item "medium"
  || String.eqb item "year" || String.eqb item "description"
  || String.eqb item "link".

(** The box of the image of a two-column info page. *)
Definition imageColumnBox (cfg : Config) (doc : Doc) : Rect :=
  mkRect (margin_of cfg + textColumnWidth cfg doc + 40) (margin_of cfg + 20)
         (imageColumnWidth cfg doc) (doc_height doc - margin_of cfg * 3).

(** The calls of the image of a two-column info page: those of the first
    image token, when it names a record. *)
Definition imageColumnOps (cfg : Config) (doc : Doc) (project : Project)
    (page : LayoutPage) : list DrawOp :=
  match find isImageToken (page_content page) with
  | Some item =>
      match findImage item (processedImages project) with
      | Some image => imageOps cfg (image, imageColumnBox cfg doc)
      | None => []
      end
  | None => []
  end.

(** The number of page breaks among the calls [ops]. *)
Fixpoint pageBreaks (ops : list DrawOp) : nat :=
  match ops with
  | [] => 0
  | OpAddPage :: rest => S (pageBreaks rest)
  | _ :: rest => pageBreaks rest
  end.

(** The calls [ops] end with the drawing of an image or of its border. *)
Definition ends_with_draw (ops : list DrawOp) : Prop :=
  exists before op,
    ops = before ++ [op] /\
    ((exists src r, op = OpImage src r) \/
     (exists lineWidth color r, op = OpBorder lineWidth color r)).

(** The calls [ops] end with a page break. *)
Definition ends_with_break (ops : list DrawOp) : Prop :=
  exists before, ops = before ++ [OpAddPage].

(** Where the cursor is after the text [op] was drawn on the page of
    [doc]. *)
Definition text_bottom (doc : Doc) (op : DrawOp) : Q :=
  match op with
  | OpText fontName size text x y width _ =>
      y + measure fontName size text
            (match width with
             | Some w => w
             | None => doc_width doc - x - doc_marginRight doc
             end)
  | _ => 0
  end.

(** The calls [ops] are texts that go down the page: the first starts at
    [floor] or below, and each of the others starts [gap] points or more
    under the end of the text before it. *)
Fixpoint flows_down (doc : Doc) (gap floor : Q) (ops : list DrawOp) : Prop :=
  match ops with
  | [] => True
  | op :: rest =>
      match op with
      | OpText _ _ _ _ y _ _ =>
          floor <= y /\ flows_down doc gap (text_bottom doc op + gap) rest
      | _ => False
      end
  end.

(** A turn of a text loop leaves the state as it is, or draws one text
    at the cursor and moves the cursor [gap] points or more under it. *)
Definition text_step (gap : Q) (x : Q) (step : Doc * Q -> string -> Doc * Q)
    (item : string) : Prop :=
  forall d y,
    step (d, y) item = (d, y) \/
    exists fontName size text width increment,
      gap <= increment /\
      step (d, y) item =
      (doc_text (font fontName (fontSize size d)) text x y width None,
       doc_y (doc_text (font fontName (fontSize size d)) text x y width None)
       + increment).

(** The text [op] stays on the page of [doc]: it has some height and
    ends above the bottom margin. *)
Definition text_on_page (doc : Doc) (op : DrawOp) : Prop :=
  match op with
  | OpText _ _ _ _ y _ _ =>
      0 < text_bottom doc op - y /\
      text_bottom doc op < doc_height doc - doc_marginBottom doc
  | _ => True
  end.

(** Texts drawn one under the other at [x]: each one in its font and
    size, [increment] points under the cursor the text before it left. *)
Fixpoint draw_below (x : Q)
    (calls : list (string * Q * string * option Q * option string * Q))
    (doc : Doc) : Doc :=
  match calls with
  | [] => doc
  | (fontName, size, text, width, align, increment) :: rest =>
      let doc := font fontName (fontSize size doc) in
      draw_below x rest
        (doc_text doc text x (doc_y doc + increment) width align)
  end.

(** [d] has the page and the margins of [doc]. *)
Definition same_layout (doc d : Doc) : Prop :=
  doc_width d = doc_width doc /\ doc_height d = doc_height doc /\
  doc_marginBottom d = doc_marginBottom doc /\
  doc_marginRight d = doc_marginRight doc.

(** The global border policy is on: the configuration has an
    [imageBorder] object whose [enabled] is [true]. *)
Definition policy_enabled (cfg : Config) : Prop :=
  exists borderConfig,
    cfg_imageBorder cfg = Some borderConfig /\
    enabled borderConfig = Some true.

(** The project has an explicit layout, whose instructions are [pages]:
    its [project.json] has a [layout] object that has a [pages] array. *)
Definition has_layout (project : Project) (pages : list LayoutPage) : Prop :=
  exists layout,
    proj_layout project = Some layout /\ layout_pages layout = Some pages.

(** The project has no explicit layout: its [project.json] has no
    [layout], or a [layout] without [pages]. *)
Definition no_layout (project : Project) : Prop :=
  proj_layout project = None \/
  exists layout,
    proj_layout project = Some layout /\ layout_pages layout = None.

(** The page breaks to expect for a project: one per instruction of its
    explicit layout; without one, a page break after the info page and
    one between two consecutive gallery pages of two images. *)
Definition layout_page_breaks (project : Project) : nat :=
  match proj_layout project with
  | Some {| layout_pages := Some pages |} => List.length pages
  | _ => Nat.max 1 (Nat.div2 (S (List.length (processedImages project))))
  end.

(** ** Properties of the image fitter *)

(** Linear arithmetic on [Q] after turning the divisions by the
    constant [2] into multiplications by [1 # 2]. *)
Ltac qarith :=
  unfold Qdiv in *; change (/ 2) with (1 # 2) in *; lra.

Lemma Qgtb_true (a b : Q) : Qgtb a b = true <-> b < a.
Proof.
  unfold Qgtb. rewrite negb_true_iff.
  split; intro H.
  - apply Qnot_le_lt. intro Hle. apply Qle_bool_iff in Hle. congruence.
  - destruct (Qle_bool a b) eqn:E; [|reflexivity].
    apply Qle_bool_iff in E. lra.
Qed.

Lemma Qgtb_false (a b : Q) : Qgtb a b = false <-> a <= b.
Proof.
  unfold Qgtb. rewrite negb_false_iff. apply Qle_bool_iff.
Qed.

Lemma Qltb_true (a b : Q) : Qltb a b = true <-> a < b.
Proof. unfold Qltb. apply (Qgtb_true b a). Qed.

Lemma Qltb_false (a b : Q) : Qltb a b = false <-> b <= a.
Proof. unfold Qltb. apply (Qgtb_false b a). Qed.

Lemma inject_Z_pos (z : Z) : (0 < z)%Z -> 0 < inject_Z z.
Proof.
  intro H. change 0 with (inject_Z 0). rewrite <- Zlt_Qlt. exact H.
Qed.

(** The size and position of the placement rectangle. *)
Lemma placement_cases (image : ImageRecord) (x y w h : Q) :
  (0 < img_width image)%Z -> (0 < img_height image)%Z ->
  0 < w -> 0 < h ->
  let r := placement image x y w h in
  rx r == x + (w - rw r) / 2 /\
  ry r == y + (h - rh r) / 2 /\
  (0 < rw r /\ rw r <= w) /\
  (0 < rh r /\ rh r <= h) /\
  (rw r == w \/ rh r == h) /\
  rw r * inject_Z (img_height image) == rh r * inject_Z (img_width image).
Proof.
  intros Hiw Hih Hw Hh.
  apply inject_Z_pos in Hiw. apply inject_Z_pos in Hih.
  cbv zeta. unfold placement.
  set (iw := inject_Z (img_width image)) in *.
  set (ih := inject_Z (img_height image)) in *.
  assert (Har : 0 < iw / ih) by (apply Qlt_shift_div_l; lra).
  assert (Hmul : w / (iw / ih) * (iw / ih) == w) by (field; split; lra).
  assert (Hhpos : 0 < w / (iw / ih)) by (apply Qlt_shift_div_l; lra).
  assert (Hratio : iw / ih * ih == iw) by (field; lra).
  generalize dependent (iw / ih). intros a Har Hmul Hhpos Hratio.
  generalize dependent (w / a). intros hh Hmul Hhpos.
  clearbody iw ih.
  destruct (Qgtb hh h) eqn:E; cbn [rx ry rw rh].
  - apply Qgtb_true in E.
    assert (Hlt : h * a < w) by nra.
    assert (Hpos : 0 < h * a) by nra.
    split; [reflexivity|]. split; [reflexivity|].
    split; [split; lra|]. split; [split; lra|].
    split; [right; reflexivity|].
    rewrite <- Hratio. ring.
  - apply Qgtb_false in E.
    split; [reflexivity|]. split; [reflexivity|].
    split; [split; lra|]. split; [split; lra|].
    split; [left; reflexivity|].
    rewrite <- Hmul, <- Hratio. ring.
Qed.

(** C1: for an image with positive intrinsic width and height and a box
    with positive width and height, the placement rectangle of
    [addImageToPage] has positive size, lies inside the box, has the width
    of the box or the height of the box, keeps the intrinsic aspect ratio
    and leaves equal space on the left and right and on the top and
    bottom. *)
Theorem placement_fits_touches_keeps_ratio_centered :
  forall (image : ImageRecord) (x y w h : Q),
    (0 < img_width image)%Z -> (0 < img_height image)%Z ->
    0 < w -> 0 < h ->
    let r := placement image x y w h in
    let box := mkRect x y w h in
    (0 < rw r /\ 0 < rh r) /\
    rect_within r box /\
    (rw r == w \/ rh r == h) /\
    rw r / rh r == inject_Z (img_width image) / inject_Z (img_height image) /\
    (rx r - x == (x + w) - (rx r + rw r) /\
     ry r - y == (y + h) - (ry r + rh r)).
Proof.
  intros image x y w h Hiw Hih Hw Hh.
  destruct (placement_cases image x y w h Hiw Hih Hw Hh)
    as (Hx & Hy & [Hw0 Hw1] & [Hh0 Hh1] & Htouch & Hratio).
  apply inject_Z_pos in Hiw. apply inject_Z_pos in Hih.
  cbv zeta. unfold rect_within. cbn [rx ry rw rh].
  generalize dependent (placement image x y w h). intros r Hx Hy Hw0 Hw1 Hh0 Hh1 Htouch Hratio.
  split; [split; assumption|].
  split; [split; [|split; [|split]]; rewrite ?Hx, ?Hy; qarith|].
  split; [exact Htouch|].
  split.
  - apply Qmult_inj_r with (z := rh r * inject_Z (img_height image)).
    + intro H0.
      assert (0 < rh r * inject_Z (img_height image)) by nra. lra.
    + transitivity (rw r * inject_Z (img_height image)); [field; lra|].
      rewrite Hratio. field. lra.
  - split; rewrite ?Hx, ?Hy; qarith.
Qed.

(** ** Configuration defaults *)

Lemma or_num_absent_or_zero (v : option Q) (d : Q) :
  absent_or (fun q => q == 0) v -> or_num v d = d.
Proof.
  intros [-> | (q & -> & Hq)]; [reflexivity|].
  unfold or_num. apply Qeq_bool_iff in Hq. rewrite Hq. reflexivity.
Qed.

Lemma or_num_nonzero (q d : Q) : ~ q == 0 -> or_num (Some q) d = q.
Proof.
  intro Hq. unfold or_num.
  destruct (Qeq_bool q 0) eqn:E; [|reflexivity].
  apply Qeq_bool_iff in E. contradiction.
Qed.

(** C9, as the code has it: a [margin] or [dpi] that is absent or zero
    is replaced by the default ([30] and [300]) in the options of the
    document and in every page routine; any other value, a negative one
    included, is used as it is. *)
Theorem numeric_fields_default_when_absent_or_zero :
  forall cfg : Config,
    (absent_or (fun q => q == 0) (cfg_margin cfg) ->
     margin_of cfg = 30 /\
     opt_top (pdfOptions cfg) = 30 /\ opt_bottom (pdfOptions cfg) = 30 /\
     opt_left (pdfOptions cfg) = 30 /\ opt_right (pdfOptions cfg) = 30) /\
    (absent_or (fun q => q == 0) (cfg_dpi cfg) -> dpi_of cfg = 300) /\
    (forall q, cfg_margin cfg = Some q -> ~ q == 0 ->
               margin_of cfg = q /\ opt_top (pdfOptions cfg) = q) /\
    (forall q, cfg_dpi cfg = Some q -> ~ q == 0 -> dpi_of cfg = q).
Proof.
  intro cfg. unfold margin_of, dpi_of, pdfOptions. cbn [opt_top opt_bottom opt_left opt_right].
  split; [|split; [|split]].
  - intro H. rewrite (or_num_absent_or_zero _ 30 H). repeat split.
  - intro H. exact (or_num_absent_or_zero _ 300 H).
  - intros q -> Hq. rewrite (or_num_nonzero q 30 Hq). split; reflexivity.
  - intros q -> Hq. exact (or_num_nonzero q 300 Hq).
Qed.

(** ** Galleries of two images *)

(** C3: a gallery page of exactly two images, whatever their sizes and
    whatever the page, makes two calls whose boxes have the same [x], the
    full available width and the height [(availableHeight - 20) / 2]; the
    second box starts 20 points under the bottom edge of the first.  When
    the images and the boxes have positive sizes, the two placement
    rectangles are centred on the same vertical line and the second lies
    at least 20 points under the first: they are never side by side. *)
Theorem two_images_stacked_vertically :
  forall (cfg : Config) (doc : Doc) (a b : ImageRecord),
    let margin := margin_of cfg in
    let availableWidth := doc_width doc - margin * 2 in
    let availableHeight := doc_height doc - margin * 2 in
    let imageHeight := (availableHeight - 20) / 2 in
    let box1 := mkRect margin margin availableWidth imageHeight in
    let box2 :=
      mkRect margin (margin + imageHeight + 20) availableWidth imageHeight in
    let p1 := placement a (rx box1) (ry box1) (rw box1) (rh box1) in
    let p2 := placement b (rx box2) (ry box2) (rw box2) (rh box2) in
    galleryCalls cfg doc [a; b] = [(a, box1); (b, box2)] /\
    createGalleryPage cfg doc [a; b] =
      addImageToPage cfg
        (addImageToPage cfg doc a margin margin availableWidth imageHeight)
        b margin (margin + imageHeight + 20) availableWidth imageHeight /\
    rx box1 = rx box2 /\
    rw box1 = availableWidth /\ rw box2 = availableWidth /\
    rh box1 == (availableHeight - 20) / 2 /\
    rh box2 == (availableHeight - 20) / 2 /\
    ry box2 == ry box1 + rh box1 + 20 /\
    (- (20) < availableHeight -> ry box1 < ry box2) /\
    ((0 < img_width a)%Z -> (0 < img_height a)%Z ->
     (0 < img_width b)%Z -> (0 < img_height b)%Z ->
     0 < availableWidth -> 20 < availableHeight ->
     ry p1 + rh p1 + 20 <= ry p2 /\
     rx p1 + rw p1 / 2 == rx p2 + rw p2 / 2).
Proof.
  intros cfg doc a b. cbv zeta. cbn [rx ry rw rh].
  split; [reflexivity|]. split; [reflexivity|].
  split; [reflexivity|]. split; [reflexivity|]. split; [reflexivity|].
  split; [reflexivity|]. split; [reflexivity|].
  split; [lra|].
  split; [intro H; qarith|].
  intros Hwa Hha Hwb Hhb Haw Hah.
  set (aw := doc_width doc - margin_of cfg * 2) in *.
  set (ah := doc_height doc - margin_of cfg * 2) in *.
  assert (Hih : 0 < (ah - 20) / 2) by qarith.
  pose proof (placement_cases a (margin_of cfg) (margin_of cfg) aw
                ((ah - 20) / 2) Hwa Hha Haw Hih) as Ha.
  pose proof (placement_cases b (margin_of cfg)
                (margin_of cfg + (ah - 20) / 2 + 20) aw
                ((ah - 20) / 2) Hwb Hhb Haw Hih) as Hb.
  cbv zeta in Ha, Hb.
  destruct Ha as (Hx1 & Hy1 & [_ _] & [Hh1 Hh1'] & _).
  destruct Hb as (Hx2 & Hy2 & [_ _] & [Hh2 Hh2'] & _).
  generalize dependent (placement a (margin_of cfg) (margin_of cfg) aw
                          ((ah - 20) / 2)).
  intros p1 Hx1 Hy1 Hh1 Hh1'.
  generalize dependent (placement b (margin_of cfg)
                          (margin_of cfg + (ah - 20) / 2 + 20) aw
                          ((ah - 20) / 2)).
  intros p2 Hx2 Hy2 Hh2 Hh2'.
  split; rewrite ?Hx1, ?Hy1, ?Hx2, ?Hy2; qarith.
Qed.

(** ** Image drawing and borders *)

Lemma emitted_app (f : Doc -> Doc) (doc : Doc) (ops : list DrawOp) :
  doc_ops (f doc) = doc_ops doc ++ ops -> emitted f doc = ops.
Proof.
  intro H. unfold emitted. rewrite H.
  rewrite skipn_app, skipn_all, Nat.sub_diag. reflexivity.
Qed.

(** The calls one [addImageToPage] adds to the log. *)
Lemma addImageToPage_ops (cfg : Config) (doc : Doc) (image : ImageRecord)
    (x y w h : Q) :
  doc_ops (addImageToPage cfg doc image x y w h) =
  doc_ops doc ++
  match drawnSource cfg image (placement image x y w h) with
  | None => []
  | Some src =>
      OpImage src (placement image x y w h) ::
      (if img_border image || globalBorder cfg
       then [OpBorder (borderWidth cfg) (borderColor cfg)
                      (placement image x y w h)]
       else [])
  end.
Proof.
  unfold addImageToPage.
  destruct (drawnSource cfg image (placement image x y w h)) as [src|].
  - destruct (img_border image || globalBorder cfg); cbn [emit doc_ops].
    + rewrite <- app_assoc. reflexivity.
    + reflexivity.
  - rewrite app_nil_r. reflexivity.
Qed.

Lemma globalBorder_policy (cfg : Config) :
  globalBorder cfg = true <-> policy_enabled cfg.
Proof.
  unfold globalBorder, policy_enabled.
  destruct (cfg_imageBorder cfg) as [borderConfig|].
  - destruct (enabled borderConfig) as [[|]|] eqn:E; cbn; split;
      try discriminate; try (intros (b & H1 & H2); congruence).
    intros _. exists borderConfig. split; [reflexivity|exact E].
  - split; [discriminate|]. intros (b & H1 & _). discriminate.
Qed.

(** C5: among the calls of one [addImageToPage], an image is only drawn
    at the placement rectangle, a border is only stroked at that
    rectangle and only after the image was drawn, and, when the image
    was drawn, the border is stroked exactly when the border flag of the
    image record is true or the configuration has an [imageBorder] whose
    [enabled] is true.  The flag of a record is the override of its
    reference: with the global policy off, a drawn reference gets a
    border exactly when it is an object whose [border] is [true]; with
    the global policy on, every drawn reference gets one, whatever its
    own setting. *)
Theorem border_iff_override_or_global :
  forall (cfg : Config) (doc : Doc) (image : ImageRecord) (x y w h : Q),
    let r := placement image x y w h in
    let ops := emitted (fun d => addImageToPage cfg d image x y w h) doc in
    let drawn := exists src, In (OpImage src r) ops in
    let bordered := exists lineWidth color, In (OpBorder lineWidth color r) ops in
    (forall src r', In (OpImage src r') ops -> r' = r) /\
    (forall lineWidth color r',
        In (OpBorder lineWidth color r') ops -> r' = r /\ drawn) /\
    (drawn ->
     (bordered <-> img_border image = true \/ policy_enabled cfg)) /\
    (forall (item : ImageItem),
        img_border image = imageConfigBorder item ->
        drawn ->
        (~ policy_enabled cfg ->
         (bordered <-> exists name file, item = ItemObject name file (Some true))) /\
        (policy_enabled cfg -> bordered)).
Proof.
  intros cfg doc image x y w h. cbv zeta.
  rewrite (emitted_app _ doc _ (addImageToPage_ops cfg doc image x y w h)).
  set (r := placement image x y w h).
  assert (Hmain :
    forall ops,
      ops = match drawnSource cfg image r with
            | None => []
            | Some src =>
                OpImage src r ::
                (if img_border image || globalBorder cfg
                 then [OpBorder (borderWidth cfg) (borderColor cfg) r]
                 else [])
            end ->
      (forall src r', In (OpImage src r') ops -> r' = r) /\
      (forall lineWidth color r',
          In (OpBorder lineWidth color r') ops ->
          r' = r /\ exists src, In (OpImage src r) ops) /\
      ((exists src, In (OpImage src r) ops) ->
       ((exists lineWidth color, In (OpBorder lineWidth color r) ops) <->
        img_border image = true \/ globalBorder cfg = true))).
  { intros ops ->.
    destruct (drawnSource cfg image r) as [src|].
    - destruct (img_border image || globalBorder cfg) eqn:E.
      + split; [|split].
        * intros s r' [H|[H|[]]]; congruence.
        * intros lw c r' [H|[H|[]]]; [discriminate|].
          injection H as _ _ <-. split; [reflexivity|].
          exists src. left. reflexivity.
        * intros _. split; [intros _; apply orb_true_iff; exact E|].
          intros _. eexists. eexists. right. left. reflexivity.
      + split; [|split].
        * intros s r' [H|[]]. congruence.
        * intros lw c r' [H|[]]. discriminate.
        * intros _. split.
          -- intros (lw & c & [H|[]]). discriminate.
          -- intro H. apply orb_true_iff in H. congruence.
    - split; [|split].
      + intros s r' [].
      + intros lw c r' [].
      + intros (s & []). }
  destruct (Hmain _ eq_refl) as (H1 & H2 & H3).
  split; [exact H1|]. split; [exact H2|].
  assert (H3' :
    (exists src, In (OpImage src r)
       match drawnSource cfg image r with
       | None => []
       | Some src =>
           OpImage src r ::
           (if img_border image || globalBorder cfg
            then [OpBorder (borderWidth cfg) (borderColor cfg) r]
            else [])
       end) ->
    ((exists lineWidth color, In (OpBorder lineWidth color r)
        match drawnSource cfg image r with
        | None => []
        | Some src =>
            OpImage src r ::
            (if img_border image || globalBorder cfg
             then [OpBorder (borderWidth cfg) (borderColor cfg) r]
             else [])
        end) <->
     img_border image = true \/ policy_enabled cfg)).
  { intro Hdrawn. rewrite (H3 Hdrawn), globalBorder_policy. reflexivity. }
  split; [exact H3'|].
  intros item Hitem Hdrawn. specialize (H3' Hdrawn).
  split.
  - intro Hoff. rewrite H3', Hitem. split.
    + intros [Hb|Hb]; [|contradiction].
      destruct item as [n|n f [[|]|]]; try discriminate.
      exists n, f. reflexivity.
    + intros (n & f & ->). left. reflexivity.
  - intro Hon. apply H3'. right. exact Hon.
Qed.

(** ** The image catalog *)

Lemma imageName_spec_name (item : ImageItem) :
  imageName item = spec_name item.
Proof.
  destruct item as [token|[[|c n]|] file border]; reflexivity.
Qed.

Lemma imageConfigBorder_spec_border (item : ImageItem) :
  imageConfigBorder item = spec_border item.
Proof.
  destruct item as [token|n file [b|]]; reflexivity.
Qed.

Lemma processImageItems_all_found (path : string) (items : list ImageItem) :
  Forall (file_found path) items ->
  forall processed,
  exists records,
    processImageItems path items processed = Some (processed ++ records) /\
    Forall2 (denotes path) items records.
Proof.
  induction 1 as [|item items Hitem _ IH]; intro processed.
  - exists []. cbn. rewrite app_nil_r. split; constructor.
  - destruct Hitem as (name & metadata & Hname & Hprobe).
    cbn [processImageItems].
    rewrite imageName_spec_name, Hname, Hprobe.
    set (r := mkImageRecord name (path_join path name) (md_width metadata)
                (md_height metadata) (md_format metadata)
                (imageConfigBorder item)).
    destruct (IH (processed ++ [r])) as (records & Hrun & Hall).
    exists (r :: records). split.
    + rewrite Hrun, <- app_assoc. reflexivity.
    + constructor; [|exact Hall].
      unfold denotes, r. cbn [img_name img_border img_path img_width
                               img_height img_format].
      rewrite imageConfigBorder_spec_border, Hprobe.
      destruct metadata. repeat split. exact Hname.
Qed.

(** Every record of the catalog comes from a reference whose probe
    succeeded at the joined path of the record's name. *)
Lemma processImageItems_probed (path : string) (items : list ImageItem) :
  forall processed result,
    processImageItems path items processed = Some result ->
    forall r, In r result ->
      In r processed \/
      (exists item, In item items /\ imageName item = Some (img_name r)) /\
      probe (path_join path (img_name r)) <> None.
Proof.
  induction items as [|item items IH]; intros processed result Hrun r Hin.
  - cbn in Hrun. injection Hrun as <-. left. exact Hin.
  - cbn [processImageItems] in Hrun.
    destruct (imageName item) as [name|] eqn:Hname; [|discriminate].
    destruct (probe (path_join path name)) as [metadata|] eqn:Hprobe.
    + destruct (IH _ _ Hrun r Hin) as [Hold|[(it & Hit & Hn) Hp]].
      * apply in_app_or in Hold. destruct Hold as [Hold|[<-|[]]].
        -- left. exact Hold.
        -- right. cbn [img_name]. split.
           ++ exists item. split; [left; reflexivity|exact Hname].
           ++ rewrite Hprobe. discriminate.
      * right. split; [|exact Hp].
        exists it. split; [right; exact Hit|exact Hn].
    + destruct (IH _ _ Hrun r Hin) as [Hold|[(it & Hit & Hn) Hp]].
      * left. exact Hold.
      * right. split; [|exact Hp].
        exists it. split; [right; exact Hit|exact Hn].
Qed.

(** C6: when every reference of the [images] array names a file whose
    probe succeeds, [processProjectImages] returns, and the records it
    has stored in [processedImages], leaving the rest of the project as
    it was, correspond one to one, in order, to the references: as many
    records as references, the record of a bare token carrying the token
    and [border: false], the record of an object carrying its [name] (its
    [file] when [name] is absent or empty) and its [border]. *)
Theorem processProjectImages_normalizes_in_order :
  forall (project : Project) (items : list ImageItem),
    items = match proj_images project with Some l => l | None => [] end ->
    Forall (file_found (proj_path project)) items ->
    exists loaded,
      processProjectImages project = Some loaded /\
      loaded = set_processedImages project (processedImages loaded) /\
      List.length (processedImages loaded) = List.length items /\
      Forall2 (denotes (proj_path project)) items (processedImages loaded) /\
      map (fun r => Some (img_name r)) (processedImages loaded)
      = map spec_name items /\
      map img_border (processedImages loaded) = map spec_border items.
Proof.
  intros project items Hitems Hall.
  destruct (processImageItems_all_found (proj_path project) items Hall [])
    as (records & Hrun & Hden).
  exists (set_processedImages project records). unfold processProjectImages.
  rewrite <- Hitems, Hrun. cbn [app processedImages set_processedImages].
  split; [reflexivity|]. split; [reflexivity|].
  split; [symmetry; exact (Forall2_length Hden)|].
  split; [exact Hden|].
  clear Hrun Hall Hitems.
  induction Hden as [|item r items records (Hn & Hb & _) _ [IHn IHb]].
  - split; reflexivity.
  - cbn [map]. rewrite IHn, IHb, Hn, Hb. split; reflexivity.
Qed.

(** ** Pages that resolve no image *)

(** A name that no record carries is not found. *)
Lemma findImage_none (name : string) (images : list ImageRecord) :
  (forall r, In r images -> img_name r <> name) ->
  findImage name images = None.
Proof.
  intro H. unfold findImage.
  destruct (find _ images) as [r|] eqn:E; [|reflexivity].
  apply find_some in E. destruct E as [Hin Heq].
  apply String.eqb_eq in Heq. exfalso. exact (H r Hin Heq).
Qed.

(** C7: a [full] page whose first content token is the name of no record
    of the project leaves the writer as it was: no call is issued, and
    the routine returns.  This is the case of a token whose file was not
    found when the project was loaded: the catalog holds no record of
    that name. *)
Theorem full_page_unresolved_emits_nothing :
  forall (cfg : Config) (doc : Doc) (project : Project) (page : LayoutPage),
    page_type page = "full"%string ->
    (forall token rest,
        page_content page = token :: rest ->
        forall r, In r (processedImages project) -> img_name r <> token) ->
    createProjectPage cfg doc project page = doc /\
    emitted (fun d => createProjectPage cfg d project page) doc = [] /\
    (forall (loaded : Project) (token : string) (rest : list string),
        page_content page = token :: rest ->
        probe (path_join (proj_path loaded) token) = None ->
        processProjectImages loaded = Some project ->
        forall r, In r (processedImages project) -> img_name r <> token).
Proof.
  intros cfg doc project page Htype Hunresolved.
  assert (Hsame : forall d, createProjectPage cfg d project page = d).
  { intro d. unfold createProjectPage. rewrite Htype. cbn.
    destruct (page_content page) as [|token rest] eqn:Hc; [reflexivity|].
    rewrite (findImage_none token _ (Hunresolved token rest eq_refl)).
    reflexivity. }
  split; [apply Hsame|]. split.
  - apply emitted_app. rewrite Hsame, app_nil_r. reflexivity.
  - intros loaded token rest _ Hprobe Hload r Hin Hname.
    unfold processProjectImages in Hload.
    destruct (processImageItems _ _ []) as [records|] eqn:Hrun; [|discriminate].
    injection Hload as <-. cbn [processedImages set_processedImages] in Hin.
    destruct (processImageItems_probed _ _ _ _ Hrun r Hin) as [[]|[_ Hp]].
    rewrite Hname in Hp. contradiction.
Qed.

(** ** The gallery grid *)

(** [ceil_sqrt n] is the least integer whose square is at least [n]. *)
Lemma ceil_sqrt_spec (n : Z) :
  (1 <= n)%Z ->
  (1 <= ceil_sqrt n /\
   (ceil_sqrt n - 1) * (ceil_sqrt n - 1) < n <= ceil_sqrt n * ceil_sqrt n)%Z.
Proof.
  intro Hn. unfold ceil_sqrt.
  pose proof (Z.sqrt_spec n ltac:(lia)) as Hs.
  pose proof (Z.sqrt_nonneg n) as Hs0.
  unfold Z.succ in Hs.
  cbv zeta. destruct (Z.eqb_spec (Z.sqrt n * Z.sqrt n) n) as [E|E]; nia.
Qed.

(** [gridRows n] is the least integer [r] with [n <= r * gridCols n]. *)
Lemma gridRows_spec (n : Z) :
  (1 <= n)%Z ->
  ((gridRows n - 1) * gridCols n < n <= gridRows n * gridCols n)%Z.
Proof.
  intro Hn.
  destruct (ceil_sqrt_spec n Hn) as [Hc _]. fold (gridCols n) in Hc.
  assert (Hc' : 0 < inject_Z (gridCols n)) by (apply inject_Z_pos; lia).
  pose proof (Qle_ceiling (inject_Z n / inject_Z (gridCols n))) as Hle.
  pose proof (Qceiling_lt (inject_Z n / inject_Z (gridCols n))) as Hlt.
  fold (gridRows n) in Hle, Hlt.
  apply (Qmult_le_compat_r _ _ (inject_Z (gridCols n))) in Hle; [|lra].
  apply (Qmult_lt_compat_r _ _ (inject_Z (gridCols n))) in Hlt; [|exact Hc'].
  assert (Hdm : inject_Z n / inject_Z (gridCols n) * inject_Z (gridCols n)
                == inject_Z n) by (field; lra).
  rewrite Hdm in Hlt, Hle.
  rewrite <- inject_Z_mult in Hle, Hlt.
  rewrite <- Zle_Qle in Hle. rewrite <- Zlt_Qlt in Hlt. lia.
Qed.

Lemma gridRow_div (n i : Z) : gridRow n i = (i / gridCols n)%Z.
Proof. unfold gridRow. symmetry. apply Zdiv_Qdiv. Qed.

Lemma gridCol_mod (n i : Z) :
  (0 <= i)%Z -> (0 < gridCols n)%Z -> gridCol n i = (i mod gridCols n)%Z.
Proof. intros Hi Hc. unfold gridCol. apply Z.rem_mod_nonneg; assumption. Qed.

(** Two cells of the grid that differ in their column or in their row
    share no interior point, whatever the size of a cell. *)
Lemma strips_disjoint (w : Q) (a b : Z) :
  a <> b ->
  ~ (inject_Z a * (w + 20) < inject_Z b * (w + 20) + w /\
     inject_Z b * (w + 20) < inject_Z a * (w + 20) + w).
Proof.
  intros Hab [H1 H2].
  assert (Hd : (a + 1 <= b)%Z \/ (b + 1 <= a)%Z) by lia.
  destruct Hd as [Hd|Hd]; rewrite Zle_Qle, inject_Z_plus in Hd;
    change (inject_Z 1) with 1 in Hd;
    generalize dependent (inject_Z a); generalize dependent (inject_Z b);
    intros qb qa H1 H2 Hd;
    destruct (Qlt_le_dec (w + 20) 0); nra.
Qed.

Lemma cells_disjoint (margin w h : Q) (c1 r1 c2 r2 : Z) :
  c1 <> c2 \/ r1 <> r2 ->
  ~ rect_overlap
      (mkRect (margin + inject_Z c1 * (w + 20))
              (margin + inject_Z r1 * (h + 20)) w h)
      (mkRect (margin + inject_Z c2 * (w + 20))
              (margin + inject_Z r2 * (h + 20)) w h).
Proof.
  unfold rect_overlap. cbn [rx ry rw rh].
  intros [Hc|Hr] (H1 & H2 & H3 & H4).
  - apply (strips_disjoint w c1 c2 Hc). split; lra.
  - apply (strips_disjoint h r1 r2 Hr). split; lra.
Qed.

Lemma nth_error_indexed {A : Type} (l : list A) :
  forall (k : Z) (i : nat) (a : A),
    nth_error l i = Some a ->
    nth_error (indexed k l) i = Some ((k + Z.of_nat i)%Z, a).
Proof.
  induction l as [|b l IH]; intros k [|i] a H; try discriminate.
  - cbn in *. injection H as ->. rewrite Z.add_0_r. reflexivity.
  - cbn [indexed nth_error] in *. rewrite (IH _ _ _ H).
    f_equal. f_equal. lia.
Qed.

Lemma map_snd_indexed {A : Type} (l : list A) :
  forall k : Z, map snd (indexed k l) = l.
Proof.
  induction l as [|b l IH]; intro k; cbn; [reflexivity|].
  rewrite IH. reflexivity.
Qed.

(** ** Page breaks *)

Lemma renders_refl (d : Doc) : renders d d.
Proof.
  unfold renders. repeat split. exists []. rewrite app_nil_r.
  split; [reflexivity|]. intros [].
Qed.

Lemma renders_trans (d1 d2 d3 : Doc) :
  renders d1 d2 -> renders d2 d3 -> renders d1 d3.
Proof.
  intros (Hw & Hh & Ht & Hr & ops & Hops & Hno)
         (Hw' & Hh' & Ht' & Hr' & ops' & Hops' & Hno').
  unfold renders. repeat split; try congruence.
  exists (ops ++ ops'). split.
  - rewrite Hops', Hops, app_assoc. reflexivity.
  - intro Hin. apply in_app_or in Hin.
    destruct Hin as [Hin|Hin]; [exact (Hno Hin)|exact (Hno' Hin)].
Qed.

Lemma renders_emit (op : DrawOp) (d : Doc) :
  op <> OpAddPage -> renders d (emit op d).
Proof.
  intro Hop. unfold renders, emit. cbn. repeat split.
  exists [op]. split; [reflexivity|]. intros [H|[]]. congruence.
Qed.

Lemma renders_set_y (y : Q) (d : Doc) : renders d (set_y y d).
Proof.
  unfold renders, set_y. cbn. repeat split.
  exists []. rewrite app_nil_r. split; [reflexivity|]. intros [].
Qed.

Lemma renders_font (name : string) (d : Doc) : renders d (font name d).
Proof.
  unfold renders, font. cbn. repeat split.
  exists []. rewrite app_nil_r. split; [reflexivity|]. intros [].
Qed.

Lemma renders_fontSize (size : Q) (d : Doc) : renders d (fontSize size d).
Proof.
  unfold renders, fontSize. cbn. repeat split.
  exists []. rewrite app_nil_r. split; [reflexivity|]. intros [].
Qed.

Lemma renders_doc_text (d : Doc) (text : string) (x y : Q)
    (width : option Q) (align : option string) :
  renders d (doc_text d text x y width align).
Proof.
  unfold doc_text.
  eapply renders_trans; [|apply renders_set_y].
  apply renders_emit. discriminate.
Qed.

Lemma renders_addImageToPage (cfg : Config) (d : Doc) (image : ImageRecord)
    (x y w h : Q) :
  renders d (addImageToPage cfg d image x y w h).
Proof.
  unfold addImageToPage.
  destruct (drawnSource cfg image _) as [src|]; [|apply renders_refl].
  destruct (img_border image || globalBorder cfg).
  - eapply renders_trans; apply renders_emit; discriminate.
  - apply renders_emit. discriminate.
Qed.

(** One step of a routine: a [let] is named and, when it binds a writer,
    shown to render first; a condition is split; a drawing call is
    peeled off. *)
Ltac renders_step :=
  lazymatch goal with
  | |- renders ?d ?d => apply renders_refl
  | |- renders ?d (fst (?a, _)) => change (renders d a)
  | |- renders ?d (fst (let x := ?v in @?body x)) =>
      change (renders d (let x := v in fst (body x))); cbv beta
  | |- renders ?d (fst (if ?c then _ else _)) => destruct c
  | |- renders ?d (fst (match ?o with Some _ => _ | None => _ end)) =>
      destruct o
  | |- renders ?d (let x := ?v in @?body x) =>
      lazymatch type of v with
      | Doc =>
          let H := fresh "Hr" in
          let y := fresh "doc" in
          assert (H : renders d v);
          [ | generalize dependent v; intros y H;
              lazymatch goal with
              | |- renders ?d' (let x' := ?v' in @?body' x') =>
                  change (renders d' (body' v')); cbv beta
              end ]
      | _ =>
          let y := fresh "v" in
          generalize v; intro y;
          lazymatch goal with
          | |- renders ?d' (let x' := ?v' in @?body' x') =>
              change (renders d' (body' v')); cbv beta
          end
      end
  | |- renders ?d (if ?c then _ else _) => destruct c
  | |- renders ?d (match ?o with Some _ => _ | None => _ end) => destruct o
  | |- renders ?d (doc_text _ _ _ _ _ _) =>
      eapply renders_trans; [|apply renders_doc_text]
  | |- renders ?d (font _ _) =>
      eapply renders_trans; [|apply renders_font]
  | |- renders ?d (fontSize _ _) =>
      eapply renders_trans; [|apply renders_fontSize]
  | |- renders ?d (addImageToPage _ _ _ _ _ _ _) =>
      eapply renders_trans; [|apply renders_addImageToPage]
  | H : renders ?d ?x |- renders ?d ?x => exact H
  end.

Ltac renders_steps := repeat renders_step.

Lemma renders_fold {A : Type} (step : Doc -> A -> Doc) :
  (forall d a, renders d (step d a)) ->
  forall l d, renders d (fold_left step l d).
Proof.
  intros Hstep l. induction l as [|a l IH]; intro d; cbn.
  - apply renders_refl.
  - eapply renders_trans; [apply Hstep|apply IH].
Qed.

Lemma renders_fold_state {A S : Type} (step : Doc * S -> A -> Doc * S) :
  (forall st a, renders (fst st) (fst (step st a))) ->
  forall l st, renders (fst st) (fst (fold_left step l st)).
Proof.
  intros Hstep l. induction l as [|a l IH]; intro st; cbn.
  - apply renders_refl.
  - eapply renders_trans; [apply Hstep|apply IH].
Qed.

Lemma renders_createGalleryPage (cfg : Config) (d : Doc)
    (images : list ImageRecord) :
  renders d (createGalleryPage cfg d images).
Proof.
  unfold createGalleryPage. apply renders_fold.
  intros d' [image box]. apply renders_addImageToPage.
Qed.

Lemma renders_createInfoPage (cfg : Config) (d : Doc) (project : Project) :
  renders d (createInfoPage cfg d project).
Proof.
  cbv delta [createInfoPage]. cbv beta. renders_steps.
Qed.

Lemma renders_singleColumnItem (cfg : Config) (project : Project)
    (st : Doc * Q) (item : string) :
  renders (fst st) (fst (singleColumnItem cfg project st item)).
Proof.
  destruct st as [d y]. cbv delta [singleColumnItem]. cbv beta iota.
  change (fst (d, y)) with d. renders_steps.
Qed.

Lemma renders_twoColumnItem (cfg : Config) (project : Project) (tcw : Q)
    (st : Doc * Q) (item : string) :
  renders (fst st) (fst (twoColumnItem cfg project tcw st item)).
Proof.
  destruct st as [d y]. cbv delta [twoColumnItem]. cbv beta iota.
  change (fst (d, y)) with d. renders_steps.
Qed.

Lemma renders_createProjectPage (cfg : Config) (d : Doc) (project : Project)
    (page : LayoutPage) :
  renders d (createProjectPage cfg d project page).
Proof.
  unfold createProjectPage.
  destruct (String.eqb (page_type page) "info").
  { unfold createInfoPageFromLayout. cbv zeta.
    destruct (existsb isImageToken (page_content page) &&
              Qgtb (doc_width d) (doc_height d)).
    - unfold createTwoColumnInfoPage. cbv zeta.
      assert (Htext : renders d (fst (twoColumnRenderText cfg d project page))).
      { unfold twoColumnRenderText. cbv zeta.
        eapply renders_trans;
          [|apply (renders_fold_state
                     (twoColumnItem cfg project (textColumnWidth cfg d))
                     (renders_twoColumnItem cfg project _))].
        cbn [fst]. renders_steps. }
      destruct (find isImageToken (page_content page)) as [item|];
        [|exact Htext].
      destruct (findImage item (processedImages project)) as [image|];
        [|exact Htext].
      eapply renders_trans; [exact Htext|apply renders_addImageToPage].
    - unfold createSingleColumnInfoPage. cbv zeta.
      apply (renders_fold_state (singleColumnItem cfg project)
               (renders_singleColumnItem cfg project)
               (page_content page) (d, margin_of cfg + 20)). }
  destruct (String.eqb (page_type page) "gallery").
  { apply renders_createGalleryPage. }
  destruct (String.eqb (page_type page) "full"); [|apply renders_refl].
  destruct (page_content page) as [|content0 rest]; [apply renders_refl|].
  destruct (findImage content0 (processedImages project)) as [image|];
    [|apply renders_refl].
  apply renders_addImageToPage.
Qed.

Lemma renders_same_page (d d' : Doc) : renders d d' -> same_page d d'.
Proof. intros (Hw & Hh & _). split; assumption. Qed.

Lemma renders_segment (doc d : Doc) (f : Doc -> Doc) :
  same_page doc d -> renders d (f d) ->
  exists seg, page_segment doc f seg /\ doc_ops (f d) = doc_ops d ++ seg.
Proof.
  intros Hpage (_ & _ & _ & _ & ops & Hops & Hno).
  exists ops. split; [|exact Hops].
  split; [exact Hno|]. exists d. split; [exact Hpage|].
  symmetry. apply emitted_app. exact Hops.
Qed.

Lemma same_page_addPage (doc d : Doc) :
  same_page doc d -> same_page doc (addPage d).
Proof. intros [Hw Hh]. split; assumption. Qed.

Lemma same_page_renders (doc d d' : Doc) :
  same_page doc d -> renders d d' -> same_page doc d'.
Proof.
  intros [Hw Hh] (Hw' & Hh' & _). split; congruence.
Qed.

(** Induction on a list two elements at a time. *)
Lemma list_ind2 {A : Type} (P : list A -> Prop) :
  P [] -> (forall a, P [a]) ->
  (forall a b l, P l -> P (a :: b :: l)) ->
  forall l, P l.
Proof.
  intros H0 H1 H2.
  assert (H : forall l, P l /\ forall a, P (a :: l)).
  { induction l as [|b l [IH IH']].
    - split; [exact H0|exact H1].
    - split; [apply IH'|]. intro a. apply H2. exact IH. }
  intro l. apply H.
Qed.

Lemma chunks2_concat {A : Type} (l : list A) : List.concat (chunks2 l) = l.
Proof.
  induction l as [|a|a b l IH] using list_ind2; cbn; [reflexivity..|].
  rewrite IH. reflexivity.
Qed.

Lemma chunks2_sizes {A : Type} (l : list A) :
  Forall (fun c => (1 <= List.length c <= 2)%nat) (chunks2 l).
Proof.
  induction l as [|a|a b l IH] using list_ind2; cbn.
  - constructor.
  - constructor; [cbn; lia|constructor].
  - constructor; [cbn; lia|exact IH].
Qed.

(** Every group but the last holds two images; the last one holds one
    image exactly when the number of images is odd. *)
Lemma chunks2_full {A : Type} (l : list A) :
  (forall k, (S k < List.length (chunks2 l))%nat ->
             List.length (nth k (chunks2 l) []) = 2%nat) /\
  (Nat.odd (List.length l) = true ->
   List.length (last (chunks2 l) []) = 1%nat) /\
  (l <> [] -> Nat.even (List.length l) = true ->
   List.length (last (chunks2 l) []) = 2%nat).
Proof.
  induction l as [|a|a b l (IH1 & IH2 & IH3)] using list_ind2.
  - cbn. split; [intros k Hk; lia|]. split; [discriminate|]. congruence.
  - cbn. split; [intros k Hk; lia|]. split; [reflexivity|]. discriminate.
  - assert (Hne : l <> [] -> chunks2 l <> []).
    { destruct l as [|c [|e l']]; cbn; congruence. }
    split; [|split].
    + intros [|k] Hk; [reflexivity|].
      cbn [chunks2 nth]. apply IH1. cbn in Hk. lia.
    + intro Hodd. change (Nat.odd (List.length l) = true) in Hodd.
      destruct l as [|c l']; [discriminate|].
      specialize (Hne ltac:(discriminate)).
      change (chunks2 (a :: b :: c :: l'))
        with ([a; b] :: chunks2 (c :: l')).
      destruct (chunks2 (c :: l')) as [|s ss] eqn:E; [contradiction|].
      exact (IH2 Hodd).
    + intros _ Heven. change (Nat.even (List.length l) = true) in Heven.
      destruct l as [|c l']; [reflexivity|].
      specialize (Hne ltac:(discriminate)).
      change (chunks2 (a :: b :: c :: l'))
        with ([a; b] :: chunks2 (c :: l')).
      destruct (chunks2 (c :: l')) as [|s ss] eqn:E; [contradiction|].
      exact (IH3 ltac:(discriminate) Heven).
Qed.

Lemma slice_at_prefix {A : Type} (pre rest : list A) :
  slice (List.length pre) (List.length pre + 2) (pre ++ rest) = firstn 2 rest.
Proof.
  unfold slice. rewrite skipn_app, skipn_all, Nat.sub_diag. cbn [app skipn].
  replace (List.length pre + 2 - List.length pre)%nat with 2%nat by lia.
  reflexivity.
Qed.

Lemma galleryLoop_done (fuel : nat) (cfg : Config)
    (images : list ImageRecord) (i : nat) (doc : Doc) :
  (List.length images <= i)%nat -> galleryLoop fuel cfg images i doc = doc.
Proof.
  intro H. destruct fuel; [reflexivity|]. cbn [galleryLoop].
  destruct (Nat.ltb_spec i (List.length images)); [lia|reflexivity].
Qed.

(** The loop of the default layout, from the index where [rest] begins
    and with fuel for the images of [rest], renders the gallery pages of
    the groups of [rest]. *)
Lemma galleryLoop_chunks (cfg : Config) (fuel : nat) :
  forall (pre rest : list ImageRecord) (doc : Doc),
    (List.length rest <= fuel)%nat ->
    galleryLoop fuel cfg (pre ++ rest) (List.length pre) doc =
    galleryPages cfg (chunks2 rest) doc.
Proof.
  induction fuel as [|fuel IH]; intros pre rest doc Hfuel.
  - destruct rest; [reflexivity|cbn in Hfuel; lia].
  - destruct rest as [|a [|b rest]].
    + apply galleryLoop_done. rewrite app_nil_r. lia.
    + cbn [galleryLoop chunks2 galleryPages].
      rewrite slice_at_prefix, length_app. cbn [List.length firstn].
      repeat match goal with
             | |- context [(?x <? ?y)%nat] =>
                 destruct (Nat.ltb_spec x y); try lia
             end.
      apply galleryLoop_done. rewrite length_app. cbn. lia.
    + cbn [galleryLoop].
      rewrite slice_at_prefix. cbn [firstn].
      change (chunks2 (a :: b :: rest)) with ([a; b] :: chunks2 rest).
      cbn [galleryPages].
      replace (pre ++ a :: b :: rest) with ((pre ++ [a; b]) ++ rest)
        by (rewrite <- app_assoc; reflexivity).
      replace (List.length pre + 2)%nat with (List.length (pre ++ [a; b]))
        by (rewrite length_app; reflexivity).
      rewrite IH by (cbn in Hfuel; lia).
      rewrite !length_app. cbn [List.length].
      destruct rest as [|c rest].
      * cbn [List.length chunks2 galleryPages].
        repeat match goal with
               | |- context [(?x <? ?y)%nat] =>
                   destruct (Nat.ltb_spec x y); try lia
               end.
        reflexivity.
      * cbn [List.length].
        repeat match goal with
               | |- context [(?x <? ?y)%nat] =>
                   destruct (Nat.ltb_spec x y); try lia
               end.
        destruct rest as [|e rest]; reflexivity.
Qed.

Lemma galleryPages_ops (cfg : Config) (doc : Doc) :
  forall (chunks : list (list ImageRecord)) (d : Doc),
    same_page doc d ->
    exists segs,
      Forall2 (fun chunk seg =>
                 page_segment doc (fun d => createGalleryPage cfg d chunk) seg)
              chunks segs /\
      doc_ops (galleryPages cfg chunks d) =
      doc_ops d ++ intercalate [OpAddPage] segs.
Proof.
  induction chunks as [|chunk rest IH]; intros d Hpage.
  - exists []. split; [constructor|]. cbn. rewrite app_nil_r. reflexivity.
  - cbn [galleryPages].
    pose proof (renders_createGalleryPage cfg d chunk) as Hr.
    destruct (renders_segment doc d
                (fun d => createGalleryPage cfg d chunk) Hpage Hr)
      as (seg & Hseg & Hops).
    destruct rest as [|chunk' rest].
    + exists [seg]. split; [constructor; [exact Hseg|constructor]|].
      exact Hops.
    + destruct (IH (addPage (createGalleryPage cfg d chunk)))
        as (segs & Hsegs & Hops').
      { apply same_page_addPage. exact (same_page_renders _ _ _ Hpage Hr). }
      exists (seg :: segs). split; [constructor; assumption|].
      rewrite Hops'. cbn [addPage set_y emit doc_ops]. rewrite Hops.
      inversion Hsegs as [|? seg' ? segs' ? ? E1 E2]; subst.
      cbn [intercalate]. rewrite <- !app_assoc. reflexivity.
Qed.

Lemma explicit_pages_ops (cfg : Config) (project : Project) (doc : Doc) :
  forall (pages : list LayoutPage) (d : Doc),
    same_page doc d ->
    exists segs,
      Forall2 (fun page seg =>
                 page_segment doc
                   (fun d => createProjectPage cfg d project page) seg)
              pages segs /\
      doc_ops (fold_left
                 (fun doc page =>
                    addPage (createProjectPage cfg doc project page))
                 pages d) =
      doc_ops d ++ flat_map (fun seg => seg ++ [OpAddPage]) segs.
Proof.
  induction pages as [|page pages IH]; intros d Hpage.
  - exists []. split; [constructor|]. cbn. rewrite app_nil_r. reflexivity.
  - cbn [fold_left].
    pose proof (renders_createProjectPage cfg d project page) as Hr.
    destruct (renders_segment doc d
                (fun d => createProjectPage cfg d project page) Hpage Hr)
      as (seg & Hseg & Hops).
    destruct (IH (addPage (createProjectPage cfg d project page)))
      as (segs & Hsegs & Hops').
    { apply same_page_addPage. exact (same_page_renders _ _ _ Hpage Hr). }
    exists (seg :: segs). split; [constructor; assumption|].
    rewrite Hops'. cbn [addPage set_y emit doc_ops flat_map]. rewrite Hops.
    rewrite <- !app_assoc. reflexivity.
Qed.

Lemma explicitPages_has_layout (project : Project)
    (pages : list LayoutPage) :
  has_layout project pages -> explicitPages project = Some pages.
Proof.
  intros (layout & Hlayout & Hpages). unfold explicitPages.
  rewrite Hlayout. exact Hpages.
Qed.

Lemma explicitPages_no_layout (project : Project) :
  no_layout project -> explicitPages project = None.
Proof.
  unfold explicitPages.
  intros [Hlayout|(layout & Hlayout & Hpages)]; rewrite Hlayout;
    [reflexivity|exact Hpages].
Qed.

(** C8: for a project whose [layout] has [pages], the log grows by the
    calls of each instruction's page, each followed by a page break, the
    last one included.  For a project without [layout], or whose
    [layout] has no [pages], the project is rendered as its info page, a
    page break, and the gallery pages of the images taken two by two in
    their order (the last page holding one image when their number is
    odd), with a page break between two consecutive gallery pages and
    none after the last; no routine of a page issues a page break of its
    own. *)
Theorem page_breaks_per_layout :
  forall (cfg : Config) (doc : Doc) (project : Project),
    (forall pages,
        has_layout project pages ->
        exists segs,
          Forall2 (fun page seg =>
                     page_segment doc
                       (fun d => createProjectPage cfg d project page) seg)
                  pages segs /\
          doc_ops (createProjectPages cfg doc project) =
          doc_ops doc ++ flat_map (fun seg => seg ++ [OpAddPage]) segs) /\
    (no_layout project ->
     let images := processedImages project in
     let chunks := chunks2 images in
     (List.concat chunks = images /\
      Forall (fun c => (1 <= List.length c <= 2)%nat) chunks /\
      (forall k, (S k < List.length chunks)%nat ->
                 List.length (nth k chunks []) = 2%nat) /\
      (Nat.odd (List.length images) = true ->
       List.length (last chunks []) = 1%nat)) /\
     createProjectPages cfg doc project =
       galleryPages cfg chunks (addPage (createInfoPage cfg doc project)) /\
     exists info segs,
       page_segment doc (fun d => createInfoPage cfg d project) info /\
       Forall2 (fun chunk seg =>
                  page_segment doc
                    (fun d => createGalleryPage cfg d chunk) seg)
               chunks segs /\
       doc_ops (createProjectPages cfg doc project) =
       doc_ops doc ++ info ++ [OpAddPage] ++ intercalate [OpAddPage] segs).
Proof.
  intros cfg doc project.
  assert (Hdoc : same_page doc doc) by (split; reflexivity).
  split.
  - intros pages Hpages. apply explicitPages_has_layout in Hpages.
    unfold createProjectPages. rewrite Hpages.
    exact (explicit_pages_ops cfg project doc pages doc Hdoc).
  - intro Hnone. apply explicitPages_no_layout in Hnone. cbv zeta.
    split.
    { split; [apply chunks2_concat|]. split; [apply chunks2_sizes|].
      destruct (chunks2_full (processedImages project)) as (H1 & H2 & _).
      split; assumption. }
    assert (Hloop : createProjectPages cfg doc project =
                    galleryPages cfg (chunks2 (processedImages project))
                      (addPage (createInfoPage cfg doc project))).
    { unfold createProjectPages. rewrite Hnone.
      unfold createDefaultProjectLayout. cbv zeta.
      exact (galleryLoop_chunks cfg _ [] (processedImages project) _
               (Nat.le_refl _)). }
    split; [exact Hloop|].
    pose proof (renders_createInfoPage cfg doc project) as Hr.
    destruct (renders_segment doc doc
                (fun d => createInfoPage cfg d project) Hdoc Hr)
      as (info & Hinfo & Hops).
    destruct (galleryPages_ops cfg doc (chunks2 (processedImages project))
                (addPage (createInfoPage cfg doc project)))
      as (segs & Hsegs & Hops').
    { apply same_page_addPage. exact (renders_same_page _ _ Hr). }
    exists info, segs. split; [exact Hinfo|]. split; [exact Hsegs|].
    rewrite Hloop, Hops'. cbn [addPage set_y emit doc_ops]. rewrite Hops.
    rewrite <- !app_assoc. reflexivity.
Qed.

(** ** Image tokens *)

Lemma string_length_append (a b : string) :
  String.length (a ++ b)%string = (String.length a + String.length b)%nat.
Proof. induction a as [|c a IH]; cbn; [reflexivity|]. rewrite IH. reflexivity. Qed.

Lemma substring_all (s : string) : substring 0 (String.length s) s = s.
Proof. induction s as [|c s IH]; cbn; [reflexivity|]. rewrite IH. reflexivity. Qed.

Lemma substring_skip_prefix (pre s : string) (n : nat) :
  substring (String.length pre) n (pre ++ s)%string = substring 0 n s.
Proof. induction pre as [|c pre IH]; cbn; [reflexivity|exact IH]. Qed.

Lemma substring_split (s : string) :
  forall n, (n <= String.length s)%nat ->
  s = (substring 0 n s ++ substring n (String.length s - n) s)%string.
Proof.
  induction s as [|c s IH]; intros [|n] Hn; cbn in *; try lia.
  - reflexivity.
  - rewrite substring_all. reflexivity.
  - rewrite <- IH by lia. reflexivity.
Qed.

Lemma endsWith_iff (s suffix : string) :
  endsWith s suffix = true <-> has_suffix s suffix.
Proof.
  unfold endsWith, has_suffix. cbv zeta. split.
  - destruct (Nat.leb_spec (String.length suffix) (String.length s)) as [Hle|];
      [|discriminate].
    intro H. apply String.eqb_eq in H.
    exists (substring 0 (String.length s - String.length suffix) s).
    pose proof (substring_split s (String.length s - String.length suffix)
                  ltac:(lia)) as Hs.
    replace (String.length s - (String.length s - String.length suffix))%nat
      with (String.length suffix) in Hs by lia.
    rewrite H in Hs. exact Hs.
  - intros [prefix ->]. rewrite string_length_append.
    destruct (Nat.leb_spec (String.length suffix)
                (String.length prefix + String.length suffix)); [|lia].
    replace (String.length prefix + String.length suffix
             - String.length suffix)%nat with (String.length prefix) by lia.
    rewrite substring_skip_prefix, substring_all. apply String.eqb_refl.
Qed.

Lemma in_all_ascii (c : ascii) : In c all_ascii.
Proof.
  unfold all_ascii. rewrite <- (ascii_nat_embedding c).
  apply in_map, in_seq. pose proof (nat_ascii_bounded c). lia.
Qed.

(** Two characters have the same canonical form exactly when they have
    the same lower-case form. *)
Lemma canonicalize_lower (c p : ascii) :
  Ascii.eqb (canonicalize c) (canonicalize p) =
  Ascii.eqb (lower_ascii c) (lower_ascii p).
Proof.
  assert (H : forallb (fun c => forallb (fun p =>
                Bool.eqb (Ascii.eqb (canonicalize c) (canonicalize p))
                         (Ascii.eqb (lower_ascii c) (lower_ascii p)))
                all_ascii) all_ascii = true) by (vm_compute; reflexivity).
  rewrite forallb_forall in H. specialize (H c (in_all_ascii c)).
  rewrite forallb_forall in H. specialize (H p (in_all_ascii p)).
  apply Bool.eqb_prop. exact H.
Qed.

Lemma match_lit_iff (pat : string) :
  forall s rest,
    match_lit pat s = Some rest <->
    exists m, s = (m ++ rest)%string /\ lower m = lower pat.
Proof.
  induction pat as [|p pat IH]; intros s rest; cbn [match_lit lower].
  - split.
    + intro H. injection H as ->. exists EmptyString. split; reflexivity.
    + intros ([|c m] & -> & Hm); [reflexivity|discriminate].
  - destruct s as [|c s].
    + split; [discriminate|].
      intros ([|c m] & Hs & Hm); cbn in *; discriminate.
    + rewrite canonicalize_lower.
      destruct (Ascii.eqb_spec (lower_ascii c) (lower_ascii p)) as [E|E].
      * rewrite IH. split.
        -- intros (m & -> & Hm). exists (String c m). cbn.
           rewrite E, Hm. split; reflexivity.
        -- intros ([|c' m] & Hs & Hm); cbn in *; [discriminate|].
           injection Hs as -> ->. injection Hm as _ Hm.
           exists m. split; [reflexivity|exact Hm].
      * split; [discriminate|].
        intros ([|c' m] & Hs & Hm); cbn in *; [discriminate|].
        injection Hs as -> ->. injection Hm as Hc _. contradiction.
Qed.

Lemma string_app_nil_r (s : string) : (s ++ "")%string = s.
Proof. induction s as [|c s IH]; cbn; [reflexivity|]. rewrite IH. reflexivity. Qed.

Lemma match_lit_end_iff (pat s : string) :
  match_lit_end pat s = true <-> lower s = lower pat.
Proof.
  unfold match_lit_end.
  destruct (match_lit pat s) as [rest|] eqn:E.
  - apply match_lit_iff in E. destruct E as (m & -> & Hm).
    destruct rest as [|c rest].
    + rewrite string_app_nil_r. split; [intros _; exact Hm|reflexivity].
    + split; [discriminate|]. intro H. exfalso.
      assert (Hlen : forall a, String.length (lower a) = String.length a).
      { induction a as [|x a IH]; cbn; [reflexivity|]. rewrite IH. reflexivity. }
      apply (f_equal String.length) in H, Hm.
      rewrite !Hlen in H, Hm. rewrite string_length_append in H.
      cbn in H. lia.
  - split; [discriminate|]. intro H. exfalso.
    assert (Hsome : match_lit pat s = Some EmptyString).
    { apply match_lit_iff. exists s. rewrite string_app_nil_r.
      split; [reflexivity|exact H]. }
    congruence.
Qed.

Lemma lower_append (a b : string) :
  lower (a ++ b)%string = (lower a ++ lower b)%string.
Proof. induction a as [|c a IH]; cbn; [reflexivity|]. rewrite IH. reflexivity. Qed.

Lemma match_image_here_iff (s : string) :
  match_image_here s = true <->
  lower s = ".jpg" \/ lower s = ".jpeg" \/ lower s = ".png".
Proof.
  unfold match_image_here.
  destruct (match_lit "." s) as [rest|] eqn:E.
  - apply match_lit_iff in E. destruct E as (m & -> & Hm).
    rewrite !orb_true_iff, !match_lit_end_iff, lower_append, Hm.
    cbn. split.
    + intros [[->| ->]| ->]; auto.
    + intros [H|[H|H]]; injection H as ->; auto.
  - split; [discriminate|]. intro H. exfalso.
    assert (Hsome : exists rest, match_lit "." s = Some rest).
    { destruct s as [|c s]; [cbn in H; intuition discriminate|].
      exists s. apply match_lit_iff. exists (String c EmptyString).
      split; [reflexivity|]. cbn in *.
      destruct H as [H|[H|H]]; injection H as -> _; reflexivity. }
    destruct Hsome as [rest Hrest]. congruence.
Qed.

Lemma isImageToken_iff (s : string) :
  isImageToken s = true <->
  has_suffix_ci s ".jpg" \/ has_suffix_ci s ".jpeg" \/ has_suffix_ci s ".png".
Proof.
  assert (Hsplit : isImageToken s = true <->
            exists prefix ext,
              s = (prefix ++ ext)%string /\ match_image_here ext = true).
  { induction s as [|c s IH].
    - cbn. split; [discriminate|].
      intros ([|c p] & ext & Hs & Hm); cbn in Hs; [|discriminate].
      subst ext. exact Hm.
    - cbn [isImageToken]. rewrite orb_true_iff, IH. split.
      + intros [H|(p & ext & -> & Hm)].
        * exists EmptyString, (String c s). split; [reflexivity|exact H].
        * exists (String c p), ext. split; [reflexivity|exact Hm].
      + intros ([|c' p] & ext & Hs & Hm); cbn in Hs.
        * left. subst ext. exact Hm.
        * injection Hs as -> ->. right. exists p, ext.
          split; [reflexivity|exact Hm]. }
  rewrite Hsplit. unfold has_suffix_ci. split.
  - intros (p & ext & -> & Hm). apply match_image_here_iff in Hm.
    destruct Hm as [H|[H|H]]; [left|right; left|right; right];
      exists p, ext; split; (reflexivity || exact H).
  - intros [H|[H|H]]; destruct H as (p & ext & -> & Hm);
      exists p, ext; (split; [reflexivity|]);
      apply match_image_here_iff; auto.
Qed.

(** C10: the filter of a [gallery] page keeps a token exactly when it
    ends with [.jpg], [.png] or [.jpeg] written in lower case, while the
    image test of the info pages accepts a token exactly when it ends
    with one of these extensions in any letter case.  The token
    [PHOTO.JPG] is an image for an info page, where the single-column
    routine draws its record, and is filtered out of a gallery page,
    which then draws nothing even when the project has a record of that
    name. *)
Theorem gallery_filter_is_case_sensitive :
  (forall item : string,
      (galleryFilter item = true <->
       has_suffix item ".jpg" \/ has_suffix item ".png"
       \/ has_suffix item ".jpeg") /\
      (isImageToken item = true <->
       has_suffix_ci item ".jpg" \/ has_suffix_ci item ".jpeg"
       \/ has_suffix_ci item ".png")) /\
  isImageToken "PHOTO.JPG" = true /\
  galleryFilter "PHOTO.JPG" = false /\
  (forall (cfg : Config) (doc : Doc) (project : Project),
      createProjectPage cfg doc project
        (mkLayoutPage "gallery" ["PHOTO.JPG"%string]) = doc) /\
  (forall (cfg : Config) (doc : Doc) (project : Project) (image : ImageRecord),
      findImage "PHOTO.JPG" (processedImages project) = Some image ->
      existsb isImageToken ["PHOTO.JPG"%string] = true /\
      createSingleColumnInfoPage cfg doc project
        (mkLayoutPage "info" ["PHOTO.JPG"%string]) =
      addImageToPage cfg doc image (margin_of cfg) (margin_of cfg + 20)
        (doc_width doc - margin_of cfg * 2)
        (Qmin3 ((doc_height doc - (margin_of cfg + 20) - margin_of cfg)
                * (6 # 10))
               (doc_height doc * (4 # 10)) 400)).
Proof.
  split; [|split; [|split; [|split]]].
  - intro item. split.
    + unfold galleryFilter. rewrite !orb_true_iff, !endsWith_iff.
      split; [intros [[H|H]|H]|intros [H|[H|H]]]; auto.
    + apply isImageToken_iff.
  - reflexivity.
  - reflexivity.
  - intros cfg doc project. reflexivity.
  - intros cfg doc project image Hfind. split; [reflexivity|].
    unfold createSingleColumnInfoPage. cbn [page_content fold_left].
    unfold singleColumnItem.
    change (String.eqb "PHOTO.JPG" "title") with false.
    change (String.eqb "PHOTO.JPG" "medium") with false.
    change (String.eqb "PHOTO.JPG" "year") with false.
    change (String.eqb "PHOTO.JPG" "credits") with false.
    change (String.eqb "PHOTO.JPG" "description") with false.
    change (String.eqb "PHOTO.JPG" "link") with false.
    change (isImageToken "PHOTO.JPG") with true.
    cbv iota. rewrite Hfind. reflexivity.
Qed.

(** ** The two-column info page *)

Lemma stays_on_page_iff (doc : Doc) (y height : Q) :
  stays_on_page doc y height = true <->
  0 < height /\ y + height < doc_height doc - doc_marginBottom doc.
Proof.
  unfold stays_on_page. rewrite andb_true_iff, !Qltb_true. reflexivity.
Qed.

(** The cursor after a text that stays on the page. *)
Lemma doc_text_on_page (d : Doc) (text : string) (x y : Q)
    (width : option Q) (align : option string) :
  let wrap :=
    match width with
    | Some w => w
    | None => doc_width d - x - doc_marginRight d
    end in
  let height := measure (doc_font d) (doc_fontSize d) text wrap in
  0 < height -> y + height < doc_height d - doc_marginBottom d ->
  doc_y (doc_text d text x y width align) = y + height.
Proof.
  cbv zeta. intros H0 Hfit. unfold doc_text. cbv zeta.
  rewrite (proj2 (stays_on_page_iff d y _) (conj H0 Hfit)).
  reflexivity.
Qed.

(** C4, as the code has it: for a two-column info page whose content is
    the title, the description and one image token, the first pass adds
    up the fixed entry of the table [lineSpacing] for the title and the
    measured height of the description plus 20.  When the title and the
    description stay on the page, the second pass draws them at the
    text-column width and advances the cursor by the height of each plus
    20; the two sums then share the description's part and agree exactly
    when the rendered title plus 20 is as high as the entry of the
    table. *)
Theorem two_column_text_height_uses_title_allowance :
  forall (cfg : Config) (doc : Doc) (project : Project) (imageToken : string),
    isImageToken imageToken = true ->
    let page := mkLayoutPage "info" ["title"%string; "description"%string;
                                     imageToken] in
    let width := textColumnWidth cfg doc in
    let fonts := fonts_of cfg in
    let titleHeight :=
      measure (font_title fonts) 24 (proj_title project) width in
    let descriptionHeight :=
      measure (font_body fonts) 12 (proj_description project) width in
    let textHeight := twoColumnTextHeight cfg doc project page in
    let startY := twoColumnStartY cfg doc project page in
    let rendered := twoColumnRenderText cfg doc project page in
    let bottom := doc_height doc - doc_marginBottom doc in
    textHeight == lineSpacing_title + (descriptionHeight + 20) /\
    (0 < titleHeight -> startY + titleHeight < bottom ->
     0 < descriptionHeight ->
     startY + titleHeight + 20 + descriptionHeight < bottom ->
     emitted (fun d => fst (twoColumnRenderText cfg d project page)) doc =
       [OpText (font_title fonts) 24 (proj_title project) (margin_of cfg)
               startY (Some width) None;
        OpText (font_body fonts) 12 (proj_description project) (margin_of cfg)
               (startY + titleHeight + 20) (Some width) None] /\
     snd rendered - startY == (titleHeight + 20) + (descriptionHeight + 20) /\
     (textHeight == snd rendered - startY <->
      titleHeight + 20 == lineSpacing_title)).
Proof.
  intros cfg doc project imageToken Himg. cbv zeta.
  assert (Hheight :
    twoColumnTextHeight cfg doc project
      (mkLayoutPage "info" ["title"%string; "description"%string; imageToken])
    == lineSpacing_title
       + (measure (font_body (fonts_of cfg)) 12
            (proj_description project) (textColumnWidth cfg doc) + 20)).
  { unfold twoColumnTextHeight, heightOfString. cbn [page_content fold_left].
    unfold textHeightItem. rewrite Himg.
    change (isImageToken "title") with false.
    change (isImageToken "description") with false.
    change (String.eqb "title" "title") with true.
    change (String.eqb "description" "title") with false.
    change (String.eqb "description" "medium") with false.
    change (String.eqb "description" "year") with false.
    change (String.eqb "description" "description") with true.
    cbv iota. cbn [doc_font doc_fontSize font fontSize].
    unfold textColumnWidth. cbn [doc_width font fontSize]. ring. }
  split; [exact Hheight|].
  intros Ht0 Htfit Hd0 Hdfit.
  set (startY := twoColumnStartY cfg doc project
                   (mkLayoutPage "info" ["title"%string; "description"%string;
                                         imageToken])) in *.
  set (width := textColumnWidth cfg doc) in *.
  set (doc0 := font (font_title (fonts_of cfg))
                 (fontSize 24 (font (font_body (fonts_of cfg))
                                 (fontSize 12 doc)))).
  set (doc1 := doc_text doc0 (proj_title project) (margin_of cfg) startY
                        (Some width) None).
  set (doc2 := doc_text (font (font_body (fonts_of cfg)) (fontSize 12 doc1))
                        (proj_description project) (margin_of cfg)
                        (doc_y doc1 + 20) (Some width) None).
  assert (Hrender :
    twoColumnRenderText cfg doc project
      (mkLayoutPage "info" ["title"%string; "description"%string; imageToken])
    = (doc2, doc_y doc2 + 20)).
  { unfold twoColumnRenderText. cbn [page_content fold_left].
    unfold twoColumnItem. rewrite Himg.
    change (isImageToken "title") with false.
    change (isImageToken "description") with false.
    change (String.eqb "title" "title") with true.
    change (String.eqb "description" "title") with false.
    change (String.eqb "description" "medium") with false.
    change (String.eqb "description" "year") with false.
    change (String.eqb "description" "description") with true.
    cbv iota zeta.
    unfold textColumnWidth. cbn [doc_width font fontSize]. reflexivity. }
  assert (Hy1 : doc_y doc1
                = startY + measure (font_title (fonts_of cfg)) 24
                             (proj_title project) width).
  { unfold doc1. apply (doc_text_on_page doc0); assumption. }
  assert (Hpage1 : doc_height doc1 = doc_height doc /\
                   doc_marginBottom doc1 = doc_marginBottom doc).
  { split; reflexivity. }
  assert (Hy2 : doc_y doc2
                = doc_y doc1 + 20
                  + measure (font_body (fonts_of cfg)) 12
                      (proj_description project) width).
  { unfold doc2.
    apply (doc_text_on_page (font (font_body (fonts_of cfg))
                               (fontSize 12 doc1)));
      cbn [doc_font doc_fontSize font fontSize doc_height doc_marginBottom];
      [exact Hd0|].
    destruct Hpage1 as [-> ->]. rewrite Hy1. lra. }
  assert (Hsnd :
    snd (twoColumnRenderText cfg doc project
           (mkLayoutPage "info" ["title"%string; "description"%string;
                                 imageToken]))
    - startY
    == measure (font_title (fonts_of cfg)) 24 (proj_title project) width + 20 +
       (measure (font_body (fonts_of cfg)) 12 (proj_description project)
          width + 20)).
  { rewrite Hrender. cbn [snd]. rewrite Hy2, Hy1. ring. }
  split; [|split; [exact Hsnd|]].
  - apply emitted_app. rewrite Hrender. cbn [fst].
    unfold doc2, doc_text. cbv zeta. cbn [doc_ops set_y emit].
    cbn [doc_font doc_fontSize font fontSize doc_ops].
    rewrite Hy1. unfold doc1, doc_text. cbv zeta. cbn [doc_ops set_y emit].
    unfold doc0. cbn [doc_font doc_fontSize font fontSize doc_ops].
    rewrite <- app_assoc. reflexivity.
  - rewrite Hheight, Hsnd. split; intro H; lra.
Qed.

(** ** The sub-layout of an info page *)

(** X2: an info page of the layout is rendered in two columns exactly
    when one of its content tokens ends with an image extension, in any
    letter case, and the page is wider than high; otherwise it is
    rendered in a single column. *)
Theorem info_page_two_columns_iff_image_and_landscape :
  forall (cfg : Config) (doc : Doc) (project : Project) (page : LayoutPage),
    let image_token item :=
      has_suffix_ci item ".jpg" \/ has_suffix_ci item ".jpeg"
      \/ has_suffix_ci item ".png" in
    let two_columns :=
      (exists item, In item (page_content page) /\ image_token item) /\
      doc_height doc < doc_width doc in
    (two_columns ->
     createInfoPageFromLayout cfg doc project page =
     createTwoColumnInfoPage cfg doc project page) /\
    (~ two_columns ->
     createInfoPageFromLayout cfg doc project page =
     createSingleColumnInfoPage cfg doc project page).
Proof.
  intros cfg doc project page. cbv zeta. unfold createInfoPageFromLayout.
  destruct (existsb isImageToken (page_content page)) eqn:Himg;
    destruct (Qgtb (doc_width doc) (doc_height doc)) eqn:Hland;
    cbn [andb]; split; intro H; try reflexivity; exfalso.
  - apply H. split; [|apply Qgtb_true; exact Hland].
    apply existsb_exists in Himg. destruct Himg as (item & Hin & Htok).
    exists item. split; [exact Hin|]. apply isImageToken_iff. exact Htok.
  - destruct H as [_ H]. apply Qgtb_false in Hland. lra.
  - destruct H as [(item & Hin & Htok) _].
    apply isImageToken_iff in Htok.
    assert (Hex : existsb isImageToken (page_content page) = true)
      by (apply existsb_exists; exists item; split; assumption).
    congruence.
  - destruct H as [_ H]. apply Qgtb_false in Hland. lra.
Qed.

(** ** The catalog in general *)

(** The loop of the catalog with an accumulator is the loop started
    empty, after the accumulator. *)
Lemma processImageItems_acc (path : string) (items : list ImageItem) :
  forall processed,
    processImageItems path items processed =
    match processImageItems path items [] with
    | Some records => Some (processed ++ records)
    | None => None
    end.
Proof.
  induction items as [|item items IH]; intro processed.
  - cbn. rewrite app_nil_r. reflexivity.
  - cbn [processImageItems].
    destruct (imageName item) as [name|]; [|reflexivity].
    destruct (probe (path_join path name)) as [metadata|].
    + rewrite IH. rewrite (IH ([] ++ _)).
      destruct (processImageItems path items []) as [records|];
        [|reflexivity].
      cbn [app]. rewrite <- app_assoc. reflexivity.
    + apply IH.
Qed.

(** One turn of the loop: the reference is refused, dropped or kept. *)
Lemma processImageItems_cons (path : string) (item : ImageItem)
    (items : list ImageItem) :
  processImageItems path (item :: items) [] =
  match imageName item with
  | None => None
  | Some name =>
      match processImageItems path items [] with
      | None => None
      | Some records =>
          match probe (path_join path name) with
          | Some metadata =>
              Some (mkImageRecord name (path_join path name)
                      (md_width metadata) (md_height metadata)
                      (md_format metadata) (imageConfigBorder item)
                    :: records)
          | None => Some records
          end
      end
  end.
Proof.
  cbn [processImageItems].
  destruct (imageName item) as [name|]; [|reflexivity].
  destruct (probe (path_join path name)) as [metadata|].
  - rewrite processImageItems_acc.
    destruct (processImageItems path items []); reflexivity.
  - destruct (processImageItems path items []); reflexivity.
Qed.

(** X3: when [processProjectImages] returns, it has only set
    [processedImages]; every record comes from a reference whose probe
    succeeded and carries the joined path, the probed metadata and the
    border override of that reference; every reference whose probe
    succeeds has its record; and there are exactly as many records as
    references with a successful probe, so never more than references. *)
Theorem catalog_is_sound_and_complete :
  forall (project loaded : Project),
    processProjectImages project = Some loaded ->
    let path := proj_path project in
    let items := references project in
    let records := processedImages loaded in
    loaded = set_processedImages project records /\
    (forall r, In r records ->
       exists item,
         In item items /\ imageName item = Some (img_name r) /\
         img_path r = path_join path (img_name r) /\
         probe (img_path r) =
           Some (mkMetadata (img_width r) (img_height r) (img_format r)) /\
         img_border r = imageConfigBorder item) /\
    (forall item name metadata,
       In item items -> imageName item = Some name ->
       probe (path_join path name) = Some metadata ->
       exists r,
         In r records /\ img_name r = name /\
         img_width r = md_width metadata /\
         img_height r = md_height metadata /\
         img_border r = imageConfigBorder item) /\
    List.length records =
      List.length (filter (reference_found path) items) /\
    (List.length records <= List.length items)%nat.
Proof.
  intros project loaded Hload. cbv zeta.
  unfold processProjectImages in Hload. fold (references project) in Hload.
  destruct (processImageItems (proj_path project) (references project) [])
    as [records|] eqn:Hrun; [|discriminate].
  injection Hload as <-. cbn [processedImages set_processedImages].
  split; [reflexivity|].
  generalize dependent records.
  induction (references project) as [|item items IH]; intros records Hrun.
  - cbn in Hrun. injection Hrun as <-.
    split; [intros r []|]. split; [intros item name metadata []|].
    split; [reflexivity|apply Nat.le_refl].
  - rewrite processImageItems_cons in Hrun.
    destruct (imageName item) as [name|] eqn:Hname; [|discriminate].
    destruct (processImageItems (proj_path project) items [])
      as [records'|]; [|discriminate].
    destruct (IH records' eq_refl) as (Hsound & Hcomplete & Hcount & Hle).
    cbn [filter]. unfold reference_found at 1. rewrite Hname.
    destruct (probe (path_join (proj_path project) name))
      as [metadata|] eqn:Hprobe; injection Hrun as <-.
    + split; [|split; [|split]].
      * intros r [<-|Hin].
        -- exists item. cbn. rewrite Hprobe. destruct metadata.
           split; [left; reflexivity|]. split; [exact Hname|].
           split; [reflexivity|]. split; reflexivity.
        -- destruct (Hsound r Hin) as (it & Hit & H).
           exists it. split; [right; exact Hit|exact H].
      * intros it n md [<-|Hin] Hn Hp.
        -- rewrite Hname in Hn. injection Hn as <-.
           rewrite Hprobe in Hp. injection Hp as <-.
           eexists. split; [left; reflexivity|]. cbn.
           split; [reflexivity|]. split; [reflexivity|].
           split; reflexivity.
        -- destruct (Hcomplete it n md Hin Hn Hp) as (r & Hr & H).
           exists r. split; [right; exact Hr|exact H].
      * cbn [List.length]. rewrite Hcount. reflexivity.
      * cbn [List.length]. lia.
    + split; [|split; [|split]].
      * intros r Hin. destruct (Hsound r Hin) as (it & Hit & H).
        exists it. split; [right; exact Hit|exact H].
      * intros it n md [<-|Hin] Hn Hp.
        -- rewrite Hname in Hn. injection Hn as <-. congruence.
        -- exact (Hcomplete it n md Hin Hn Hp).
      * exact Hcount.
      * cbn [List.length]. lia.
Qed.

(** The catalog throws exactly when some reference has no name. *)
Lemma catalog_nameless_iff (project : Project) :
  (processProjectImages project = None ->
   exists item, In item (references project) /\ imageName item = None) /\
  ((exists item, In item (references project) /\ imageName item = None) ->
   processProjectImages project = None).
Proof.
  unfold processProjectImages. fold (references project).
  assert (H : processImageItems (proj_path project) (references project) []
              = None <->
              exists item, In item (references project) /\
                           imageName item = None).
  { induction (references project) as [|item items IH].
    - cbn. split; [discriminate|]. intros (item & [] & _).
    - rewrite processImageItems_cons.
      destruct (imageName item) as [name|] eqn:Hname.
      + destruct (processImageItems (proj_path project) items [])
          as [records|].
        * split.
          -- destruct (probe _); discriminate.
          -- intros (it & [<-|Hin] & Hnone); [congruence|].
             assert (Hex : exists it, In it items /\ imageName it = None)
               by (exists it; split; assumption).
             apply IH in Hex. discriminate.
        * split; [|reflexivity]. intros _.
          destruct IH as [IH _].
          destruct (IH eq_refl) as (it & Hin & Hnone).
          exists it. split; [right; exact Hin|exact Hnone].
      + split; [|reflexivity]. intros _.
        exists item. split; [left; reflexivity|exact Hname]. }
  destruct (processImageItems (proj_path project) (references project) [])
    as [records|].
  - split; [discriminate|]. intro Hex. apply H in Hex. discriminate.
  - split; [intros _; apply H; reflexivity|reflexivity].
Qed.

(** X4: [processProjectImages] throws exactly when some reference has
    no name, whatever the other references are; a reference has no name
    exactly when it is an object without [file] whose [name] is missing
    or empty. *)
Theorem catalog_throws_iff_nameless_reference :
  forall project : Project,
    (processProjectImages project = None <->
     exists item, In item (references project) /\ imageName item = None) /\
    (forall item,
        imageName item = None <->
        exists border,
          item = ItemObject None None border \/
          item = ItemObject (Some ""%string) None border).
Proof.
  intro project. split.
  - destruct (catalog_nameless_iff project) as [H1 H2].
    split; assumption.
  - intros [token|[[|c n]|] [f|] border]; cbn;
      (split; [intros H|intros (b & [H|H])]);
      try discriminate; try reflexivity.
    + exists border. right. reflexivity.
    + exists border. left. reflexivity.
Qed.

(** ** Loading the projects *)

(** A loop that appends at most one element per turn collects the
    elements of every turn, in order. *)
Lemma fold_left_collect {A B : Type} (f : A -> option B) (l : list A) :
  forall acc,
    fold_left (fun acc a => match f a with
                            | Some b => acc ++ [b]
                            | None => acc
                            end) l acc =
    acc ++ flat_map (fun a => match f a with
                              | Some b => [b]
                              | None => []
                              end) l.
Proof.
  induction l as [|a l IH]; intro acc; cbn.
  - rewrite app_nil_r. reflexivity.
  - rewrite IH. destruct (f a); [|reflexivity].
    rewrite <- app_assoc. reflexivity.
Qed.

Lemma loadProjects_flat_map (inputDir : string) (entries : list DirEntry) :
  loadProjects inputDir entries =
  flat_map (fun dir => match loadProject inputDir dir with
                       | Some loaded => [loaded]
                       | None => []
                       end)
           (filter entry_isDirectory entries).
Proof.
  unfold loadProjects. cbv zeta.
  exact (fold_left_collect (loadProject inputDir) _ []).
Qed.

Lemma set_path_references (project : Project) (path : string) :
  references (set_path project path) = references project.
Proof. reflexivity. Qed.

(** X5: [loadProjects] treats every directory on its own.  The projects
    of a listing are those of its first part followed by those of the
    rest; a project is loaded exactly for the directories whose
    [project.json] is read and whose image references all have a name,
    and a directory that fails is skipped without touching the others;
    a loaded project has the joined path of its directory and a catalog
    made of successfully probed files. *)
Theorem loadProjects_isolates_failures :
  forall (inputDir : string) (entries more : list DirEntry),
    loadProjects inputDir (entries ++ more) =
      loadProjects inputDir entries ++ loadProjects inputDir more /\
    (forall name project,
        In (name, project) (loadProjects inputDir entries) <->
        exists dir,
          In dir entries /\ entry_isDirectory dir = true /\
          loadProject inputDir dir = Some (name, project)) /\
    (forall dir,
        loadProject inputDir dir = None <->
        read_project
          (path_join (path_join inputDir (entry_name dir)) "project.json")
          = None \/
        exists parsed item,
          read_project
            (path_join (path_join inputDir (entry_name dir)) "project.json")
            = Some parsed /\
          In item (references parsed) /\ imageName item = None) /\
    (forall name project,
        In (name, project) (loadProjects inputDir entries) ->
        proj_path project = path_join inputDir name /\
        forall r, In r (processedImages project) ->
                  probe (path_join (proj_path project) (img_name r))
                  <> None) /\
    (List.length (loadProjects inputDir entries)
     <= List.length (filter entry_isDirectory entries))%nat.
Proof.
  intros inputDir entries more.
  assert (Hmem : forall name project,
            In (name, project) (loadProjects inputDir entries) <->
            exists dir,
              In dir entries /\ entry_isDirectory dir = true /\
              loadProject inputDir dir = Some (name, project)).
  { intros name project. rewrite loadProjects_flat_map, in_flat_map. split.
    - intros (dir & Hin & Hl). apply filter_In in Hin. destruct Hin as [Hin Hd].
      exists dir. split; [exact Hin|]. split; [exact Hd|].
      destruct (loadProject inputDir dir) as [loaded|]; [|destruct Hl].
      destruct Hl as [->|[]]. reflexivity.
    - intros (dir & Hin & Hd & Hl). exists dir.
      split; [apply filter_In; split; assumption|].
      rewrite Hl. left. reflexivity. }
  split; [|split; [exact Hmem|split; [|split]]].
  - rewrite !loadProjects_flat_map, filter_app, flat_map_app. reflexivity.
  - intro dir. unfold loadProject. cbv zeta.
    destruct (read_project _) as [parsed|] eqn:Hread.
    + destruct (catalog_nameless_iff
                  (set_path parsed (path_join inputDir (entry_name dir))))
        as [Hthrow Hok].
      destruct (processProjectImages _) as [loaded|] eqn:Hrun.
      * split; [discriminate|].
        intros [H|(p & item & Hp & Hin & Hnone)]; [discriminate|].
        injection Hp as <-.
        assert (Hex : exists item,
                  In item (references
                             (set_path parsed
                                (path_join inputDir (entry_name dir)))) /\
                  imageName item = None)
          by (exists item; split; assumption).
        apply Hok in Hex. discriminate.
      * split; [|reflexivity]. intros _. right.
        destruct (Hthrow eq_refl) as (item & Hin & Hnone).
        exists parsed, item. split; [reflexivity|]. split; assumption.
    + split; [|reflexivity]. intros _. left. reflexivity.
  - intros name project Hin. apply Hmem in Hin.
    destruct Hin as (dir & _ & _ & Hl). unfold loadProject in Hl.
    cbv zeta in Hl.
    destruct (read_project _) as [parsed|]; [|discriminate].
    destruct (processProjectImages _) as [loaded|] eqn:Hrun; [|discriminate].
    injection Hl as <- <-.
    unfold processProjectImages in Hrun.
    destruct (processImageItems _ _ []) as [records|] eqn:Hitems;
      [|discriminate].
    injection Hrun as <-. cbn [proj_path processedImages set_processedImages
                                 set_path].
    split; [reflexivity|]. intros r Hr.
    destruct (processImageItems_probed _ _ _ _ Hitems r Hr) as [[]|[_ Hp]].
    exact Hp.
  - rewrite loadProjects_flat_map.
    induction (filter entry_isDirectory entries) as [|dir dirs IH];
      [apply Nat.le_refl|].
    cbn [flat_map]. rewrite length_app.
    destruct (loadProject inputDir dir); cbn [List.length]; lia.
Qed.

(** ** The source of a drawn image *)

(** The three outcomes of the drawing part of [addImageToPage]. *)
Lemma drawnSource_cases (cfg : Config) (image : ImageRecord) (r : Rect) :
  (drawnSource cfg image r = Some (resizedBuffer cfg image r) /\
   wants_resize cfg image r /\
   sharp_ok (img_path image) (targetWidth cfg r) (targetHeight cfg r)
            (jpegQuality cfg) = true /\
   image_ok (resizedBuffer cfg image r) = true) \/
  (drawnSource cfg image r = Some (FromPath (img_path image)) /\
   image_ok (FromPath (img_path image)) = true /\
   ~ (wants_resize cfg image r /\
      sharp_ok (img_path image) (targetWidth cfg r) (targetHeight cfg r)
               (jpegQuality cfg) = true /\
      image_ok (resizedBuffer cfg image r) = true)) \/
  (drawnSource cfg image r = None /\
   image_ok (FromPath (img_path image)) = false /\
   ~ (wants_resize cfg image r /\
      sharp_ok (img_path image) (targetWidth cfg r) (targetHeight cfg r)
               (jpegQuality cfg) = true /\
      image_ok (resizedBuffer cfg image r) = true)).
Proof.
  unfold drawnSource, wants_resize, resizedBuffer. cbv zeta.
  fold (targetWidth cfg r) (targetHeight cfg r) (jpegQuality cfg).
  destruct (Qltb (dpi_of cfg) 300) eqn:Hdpi;
    [apply Qltb_true in Hdpi|apply Qltb_false in Hdpi];
    destruct (Z.gtb_spec (img_width image) (targetWidth cfg r * 2)) as [Hw|Hw];
    cbn [orb];
    try (destruct (sharp_ok _ _ _ _) eqn:Hsharp;
         [destruct (image_ok (FromBuffer _ _ _ _)) eqn:Hbuf|]; cbn [andb]);
    try (left; repeat split; solve [auto | lia]);
    destruct (image_ok (FromPath _)) eqn:Horig;
    try (right; left; split; [reflexivity|];
         split; [reflexivity|]; intros (H1 & H2 & H3);
         solve [congruence | destruct H1; [lra|lia]]);
    try (right; right; split; [reflexivity|];
         split; [reflexivity|]; intros (H1 & H2 & H3);
         solve [congruence | destruct H1; [lra|lia]]).
Qed.

(** X6: [addImageToPage] draws the image exactly when the writer accepts
    the original file, or the image is to be resampled and both the
    resampling and the drawing of the buffer succeed.  A failed
    resampling therefore never loses an image whose original file the
    writer accepts; when nothing is accepted the routine logs nothing
    and returns the writer unchanged. *)
Theorem image_drawn_iff_a_source_is_accepted :
  forall (cfg : Config) (doc : Doc) (image : ImageRecord) (x y w h : Q),
    let r := placement image x y w h in
    let ops := emitted (fun d => addImageToPage cfg d image x y w h) doc in
    let buffer_accepted :=
      wants_resize cfg image r /\
      sharp_ok (img_path image) (targetWidth cfg r) (targetHeight cfg r)
               (jpegQuality cfg) = true /\
      image_ok (resizedBuffer cfg image r) = true in
    let original_accepted := image_ok (FromPath (img_path image)) = true in
    ((exists src, In (OpImage src r) ops) <->
     original_accepted \/ buffer_accepted) /\
    (original_accepted -> exists src, In (OpImage src r) ops) /\
    (~ (original_accepted \/ buffer_accepted) ->
     ops = [] /\ addImageToPage cfg doc image x y w h = doc) /\
    (List.length ops <= 2)%nat.
Proof.
  intros cfg doc image x y w h. cbv zeta.
  rewrite (emitted_app _ doc _ (addImageToPage_ops cfg doc image x y w h)).
  unfold addImageToPage.
  set (r := placement image x y w h).
  destruct (drawnSource_cases cfg image r)
    as [(-> & Hbuf)|[(-> & Horig & Hnot)|(-> & Horig & Hnot)]].
  - split; [|split; [|split]].
    + split; [intros _; right; exact Hbuf|].
      intros _. eexists. left. reflexivity.
    + intros _. eexists. left. reflexivity.
    + intro H. exfalso. apply H. right. exact Hbuf.
    + destruct (img_border image || globalBorder cfg); cbn; lia.
  - split; [|split; [|split]].
    + split; [intros _; left; exact Horig|].
      intros _. eexists. left. reflexivity.
    + intros _. eexists. left. reflexivity.
    + intro H. exfalso. apply H. left. exact Horig.
    + destruct (img_border image || globalBorder cfg); cbn; lia.
  - split; [|split; [|split]].
    + split; [intros (src & [])|].
      intros [H|H]; [congruence|contradiction].
    + intro H. congruence.
    + intros _. split; reflexivity.
    + cbn. lia.
Qed.

(** X7: what [addImageToPage] hands to the writer.  The source of a
    drawn image is the original file or the buffer resampled to the
    target size; the buffer is only used when the DPI is below 300 or
    the image is more than twice as wide as the target, so at 300 DPI or
    more an image at most twice as wide as the target is drawn from its
    file.  The JPEG quality is 95 at 300 DPI or more and 85 below, and
    the target size is the size of the placement times [dpi / 72],
    rounded to the nearest integer. *)
Theorem image_source_and_quality :
  forall (cfg : Config) (doc : Doc) (image : ImageRecord) (x y w h : Q),
    let r := placement image x y w h in
    let ops := emitted (fun d => addImageToPage cfg d image x y w h) doc in
    (forall src r',
        In (OpImage src r') ops ->
        src = FromPath (img_path image) \/
        src = resizedBuffer cfg image r /\ wants_resize cfg image r) /\
    (300 <= dpi_of cfg ->
     (img_width image <= targetWidth cfg r * 2)%Z ->
     forall src r', In (OpImage src r') ops ->
                    src = FromPath (img_path image)) /\
    ((300 <= dpi_of cfg -> jpegQuality cfg = 95%Z) /\
     (dpi_of cfg < 300 -> jpegQuality cfg = 85%Z)) /\
    (rw r * dpi_of cfg / 72 - (1 # 2) < inject_Z (targetWidth cfg r) /\
     inject_Z (targetWidth cfg r) <= rw r * dpi_of cfg / 72 + (1 # 2)) /\
    (rh r * dpi_of cfg / 72 - (1 # 2) < inject_Z (targetHeight cfg r) /\
     inject_Z (targetHeight cfg r) <= rh r * dpi_of cfg / 72 + (1 # 2)).
Proof.
  intros cfg doc image x y w h. cbv zeta.
  rewrite (emitted_app _ doc _ (addImageToPage_ops cfg doc image x y w h)).
  set (r := placement image x y w h).
  assert (Hsrc : forall src r',
            In (OpImage src r')
               match drawnSource cfg image r with
               | Some src0 =>
                   OpImage src0 r ::
                   (if img_border image || globalBorder cfg
                    then [OpBorder (borderWidth cfg) (borderColor cfg) r]
                    else [])
               | None => []
               end ->
            src = FromPath (img_path image) \/
            src = resizedBuffer cfg image r /\ wants_resize cfg image r).
  { intros src r'.
    destruct (drawnSource_cases cfg image r)
      as [(-> & Hwant & _)|[(-> & _)|(-> & _)]].
    - destruct (img_border image || globalBorder cfg);
        intros [H|H]; try (injection H as <- _; right; split;
                           [reflexivity|exact Hwant]);
        try destruct H as [H|[]]; try discriminate; try destruct H.
    - destruct (img_border image || globalBorder cfg);
        intros [H|H]; try (injection H as <- _; left; reflexivity);
        try destruct H as [H|[]]; try discriminate; try destruct H.
    - intros []. }
  assert (Hround : forall q,
            q - (1 # 2) < inject_Z (Math_round q) /\
            inject_Z (Math_round q) <= q + (1 # 2)).
  { intro q. unfold Math_round.
    pose proof (Qfloor_le (q + (1 # 2))) as Hle.
    pose proof (Qlt_floor (q + (1 # 2))) as Hlt.
    rewrite inject_Z_plus in Hlt. change (inject_Z 1) with 1 in Hlt.
    split; lra. }
  split; [exact Hsrc|]. split; [|split; [|split]].
  - intros Hdpi Hwidth src r' Hin.
    destruct (Hsrc src r' Hin) as [H|[_ [Hw|Hw]]]; [exact H|lra|lia].
  - unfold jpegQuality. split; intro H.
    + apply Qle_bool_iff in H. rewrite H. reflexivity.
    + destruct (Qle_bool 300 (dpi_of cfg)) eqn:E; [|reflexivity].
      apply Qle_bool_iff in E. lra.
  - apply Hround.
  - apply Hround.
Qed.

(** ** Tokens, names and the shape of the grid *)

Lemma has_suffix_ci_of_lower (s suffix : string) :
  lower suffix = suffix -> has_suffix s suffix -> has_suffix_ci s suffix.
Proof.
  intros Hlow [prefix ->]. exists prefix, suffix. split; [reflexivity|exact Hlow].
Qed.

(** X13: a token that the filter of a gallery page keeps is an image
    token for the info pages as well. *)
Theorem gallery_tokens_are_image_tokens :
  forall item : string,
    galleryFilter item = true -> isImageToken item = true.
Proof.
  intros item H. apply isImageToken_iff.
  unfold galleryFilter in H. rewrite !orb_true_iff, !endsWith_iff in H.
  destruct H as [[H|H]|H].
  - left. apply has_suffix_ci_of_lower; [reflexivity|exact H].
  - right. right. apply has_suffix_ci_of_lower; [reflexivity|exact H].
  - right. left. apply has_suffix_ci_of_lower; [reflexivity|exact H].
Qed.

(** X16: a name is resolved to the first record of the catalog that
    carries it: the records before it have other names, and a later
    record of the same name, with its own border override, is never
    returned. *)
Theorem names_resolve_to_first_record :
  forall (name : string) (images : list ImageRecord) (r : ImageRecord),
    findImage name images = Some r <->
    exists before after,
      images = before ++ r :: after /\ img_name r = name /\
      forall r', In r' before -> img_name r' <> name.
Proof.
  intros name images r. unfold findImage. split.
  - induction images as [|a images IH]; [discriminate|].
    cbn [find]. destruct (String.eqb_spec (img_name a) name) as [E|E].
    + intro H. injection H as <-. exists [], images.
      split; [reflexivity|]. split; [exact E|]. intros r' [].
    + intro H. destruct (IH H) as (before & after & -> & Hn & Hb).
      exists (a :: before), after. split; [reflexivity|].
      split; [exact Hn|]. intros r' [<-|Hin]; [exact E|exact (Hb r' Hin)].
  - intros (before & after & -> & Hn & Hb).
    induction before as [|a before IH]; cbn [app find].
    + rewrite Hn, String.eqb_refl. reflexivity.
    + destruct (String.eqb_spec (img_name a) name) as [E|E].
      * exfalso. exact (Hb a (or_introl eq_refl) E).
      * apply IH. intros r' Hin. apply Hb. right. exact Hin.
Qed.

(** X17: a gallery page of three images or more, the only case in which
    the page builds a grid, hands its images the cells of a grid that
    has two columns and two rows or more, is square or one row short of
    square, has room for every image, and leaves fewer cells empty than
    a row holds. *)
Theorem grid_is_nearly_square :
  forall (cfg : Config) (doc : Doc) (images : list ImageRecord),
    let n := Z.of_nat (List.length images) in
    let margin := margin_of cfg in
    let cell :=
      gridCell margin (doc_width doc - margin * 2)
               (doc_height doc - margin * 2) n in
    (3 <= n)%Z ->
    galleryCalls cfg doc images
    = map (fun indexed_image =>
             (snd indexed_image, cell (fst indexed_image)))
          (indexed 0 images) /\
    (2 <= gridCols n)%Z /\ (2 <= gridRows n)%Z /\
    (gridCols n - 1 <= gridRows n <= gridCols n)%Z /\
    (n <= gridCols n * gridRows n)%Z /\
    (gridCols n * gridRows n - n < gridCols n)%Z.
Proof.
  intros cfg doc images. cbv zeta. intro Hn.
  split.
  { destruct images as [|a [|b [|c rest]]]; cbn in Hn; try lia.
    unfold galleryCalls. cbv zeta. apply map_ext.
    intros [i image]. reflexivity. }
  set (n := Z.of_nat (List.length images)) in *.
  destruct (ceil_sqrt_spec n ltac:(lia)) as [Hc1 Hc2].
  fold (gridCols n) in Hc1, Hc2.
  pose proof (gridRows_spec n ltac:(lia)) as Hr.
  assert (Hc : (2 <= gridCols n)%Z) by nia.
  assert (Hnc : (gridCols n < n)%Z) by nia.
  split; [exact Hc|]. split; [nia|].
  split; [split|split]; nia.
Qed.

(** ** Images of a gallery page stay apart and inside the margins *)

Lemma FOP_map {A B : Type} (f : A -> B) (R : B -> B -> Prop) (l : list A) :
  ForallOrdPairs (fun a b => R (f a) (f b)) l -> ForallOrdPairs R (map f l).
Proof.
  induction 1 as [|a l Ha _ IH]; cbn; constructor; [|exact IH].
  apply Forall_map. exact Ha.
Qed.

Lemma FOP_impl {A : Type} (R R' : A -> A -> Prop) (l : list A) :
  (forall a b, In a l -> In b l -> R a b -> R' a b) ->
  ForallOrdPairs R l -> ForallOrdPairs R' l.
Proof.
  intros Himp H. induction H as [|a l Ha _ IH]; constructor.
  - rewrite Forall_forall in *. intros b Hb.
    apply Himp; [left; reflexivity|right; exact Hb|exact (Ha b Hb)].
  - apply IH. intros x y Hx Hy. apply Himp; right; assumption.
Qed.

(** When every element gives one value or none, the values given are
    pairwise related as soon as the values of the elements are. *)
Lemma FOP_flat_map_optional {A B : Type} (g : A -> list B) (f : A -> B)
    (R : B -> B -> Prop) (l : list A) :
  (forall a, g a = [f a] \/ g a = []) ->
  ForallOrdPairs (fun a b => R (f a) (f b)) l ->
  ForallOrdPairs R (flat_map g l).
Proof.
  intros Hg H. induction H as [|a l Ha _ IH]; cbn; [constructor|].
  destruct (Hg a) as [-> | ->]; cbn [app]; [|exact IH].
  constructor; [|exact IH].
  rewrite Forall_forall in *. intros b Hb.
  apply in_flat_map in Hb. destruct Hb as (x & Hx & Hb).
  destruct (Hg x) as [E|E]; rewrite E in Hb; [|destruct Hb].
  destruct Hb as [<-|[]]. exact (Ha x Hx).
Qed.

Lemma drawnRects_app (ops ops' : list DrawOp) :
  drawnRects (ops ++ ops') = drawnRects ops ++ drawnRects ops'.
Proof.
  induction ops as [|op ops IH]; [reflexivity|].
  destruct op; cbn; rewrite IH; reflexivity.
Qed.

Lemma drawnRects_flat_map {A : Type} (g : A -> list DrawOp) (l : list A) :
  drawnRects (flat_map g l) = flat_map (fun a => drawnRects (g a)) l.
Proof.
  induction l as [|a l IH]; [reflexivity|].
  cbn. rewrite drawnRects_app, IH. reflexivity.
Qed.

(** One call draws its placement, or nothing. *)
Lemma drawnRects_imageOps (cfg : Config) (call : ImageRecord * Rect) :
  let r := placement (fst call) (rx (snd call)) (ry (snd call))
                     (rw (snd call)) (rh (snd call)) in
  (drawnRects (imageOps cfg call) = [r] /\
   drawnSource cfg (fst call) r <> None) \/
  (drawnRects (imageOps cfg call) = [] /\
   drawnSource cfg (fst call) r = None).
Proof.
  destruct call as [image box]. cbn [fst snd]. unfold imageOps. cbv zeta.
  destruct (drawnSource cfg image _) as [src|].
  - left. split; [|discriminate].
    destruct (img_border image || globalBorder cfg); reflexivity.
  - right. split; reflexivity.
Qed.

(** The log of a gallery page: the calls of each image, in order. *)
Lemma createGalleryPage_ops (cfg : Config) (doc : Doc)
    (images : list ImageRecord) :
  doc_ops (createGalleryPage cfg doc images) =
  doc_ops doc ++ flat_map (imageOps cfg) (galleryCalls cfg doc images).
Proof.
  unfold createGalleryPage.
  generalize (galleryCalls cfg doc images) as calls.
  intro calls. revert doc.
  induction calls as [|[image box] calls IH]; intro doc; cbn [fold_left flat_map].
  - rewrite app_nil_r. reflexivity.
  - rewrite IH, addImageToPage_ops, <- app_assoc. reflexivity.
Qed.

Lemma placement_within (image : ImageRecord) (box : Rect) :
  positive_size image -> positive_box box ->
  rect_within (placement image (rx box) (ry box) (rw box) (rh box)) box.
Proof.
  intros [Hw Hh] [Hbw Hbh].
  destruct (placement_cases image (rx box) (ry box) (rw box) (rh box)
              Hw Hh Hbw Hbh) as (Hx & Hy & [Hw0 Hw1] & [Hh0 Hh1] & _).
  unfold rect_within.
  generalize dependent (placement image (rx box) (ry box) (rw box) (rh box)).
  intros r Hx Hy Hw0 Hw1 Hh0 Hh1.
  split; [|split; [|split]]; rewrite ?Hx, ?Hy; qarith.
Qed.

Lemma rect_within_trans (a b c : Rect) :
  rect_within a b -> rect_within b c -> rect_within a c.
Proof.
  unfold rect_within. intros (H1 & H2 & H3 & H4) (K1 & K2 & K3 & K4).
  split; [|split; [|split]]; lra.
Qed.

(** Rectangles inside boxes that do not overlap do not overlap. *)
Lemma rect_overlap_within (a b a' b' : Rect) :
  rect_within a a' -> rect_within b b' ->
  rect_overlap a b -> rect_overlap a' b'.
Proof.
  unfold rect_within, rect_overlap.
  intros (H1 & H2 & H3 & H4) (K1 & K2 & K3 & K4) (O1 & O2 & O3 & O4).
  split; [|split; [|split]]; lra.
Qed.

Lemma indexed_bounds {A : Type} (l : list A) :
  forall k : Z,
    Forall (fun c => (k <= fst c < k + Z.of_nat (List.length l))%Z)
           (indexed k l) /\
    ForallOrdPairs (fun c c' => fst c <> fst c') (indexed k l).
Proof.
  induction l as [|a l IH]; intro k; cbn [indexed List.length].
  - split; constructor.
  - destruct (IH (k + 1)%Z) as [Hb Hd]. split.
    + constructor; [cbn; lia|].
      rewrite Forall_forall in *. intros c Hc. specialize (Hb c Hc). lia.
    + constructor; [|exact Hd].
      rewrite Forall_forall in *. intros c Hc. specialize (Hb c Hc).
      cbn. lia.
Qed.

Lemma galleryCalls_fst (cfg : Config) (doc : Doc) (images : list ImageRecord) :
  map fst (galleryCalls cfg doc images) = images.
Proof.
  destruct images as [|a [|b [|c rest]]]; try reflexivity.
  unfold galleryCalls. rewrite map_map.
  rewrite <- (map_snd_indexed (a :: b :: c :: rest) 0) at 2.
  apply map_ext. intros [i image]. reflexivity.
Qed.

Lemma grid_col_row_bounds (n i : Z) :
  (1 <= n)%Z -> (0 <= i < n)%Z ->
  gridCol n i = (i mod gridCols n)%Z /\
  gridRow n i = (i / gridCols n)%Z /\
  (0 <= gridCol n i <= gridCols n - 1)%Z /\
  (0 <= gridRow n i <= gridRows n - 1)%Z.
Proof.
  intros Hn Hi.
  destruct (ceil_sqrt_spec n Hn) as [Hc1 Hc2]. fold (gridCols n) in Hc1, Hc2.
  pose proof (gridRows_spec n Hn) as Hr.
  rewrite gridCol_mod by lia. rewrite gridRow_div.
  pose proof (Z.mod_pos_bound i (gridCols n) ltac:(lia)) as Hm.
  pose proof (Z.div_mod i (gridCols n) ltac:(lia)) as Hdm.
  assert (H0 : (0 <= i / gridCols n)%Z) by (apply Z.div_pos; lia).
  assert (H1 : (i / gridCols n < gridRows n)%Z)
    by (apply Z.div_lt_upper_bound; nia).
  repeat split; lia.
Qed.

Lemma gridCell_disjoint (margin aw ah : Q) (n i j : Z) :
  (1 <= n)%Z -> (0 <= i)%Z -> (0 <= j)%Z -> i <> j ->
  ~ rect_overlap (gridCell margin aw ah n i) (gridCell margin aw ah n j).
Proof.
  intros Hn Hi Hj Hij.
  destruct (ceil_sqrt_spec n Hn) as [Hc1 _]. fold (gridCols n) in Hc1.
  unfold gridCell. apply cells_disjoint.
  rewrite !gridCol_mod, !gridRow_div by lia.
  pose proof (Z.div_mod i (gridCols n) ltac:(lia)).
  pose proof (Z.div_mod j (gridCols n) ltac:(lia)).
  destruct (Z.eq_dec (i mod gridCols n) (j mod gridCols n)) as [E|E];
    [|left; exact E].
  right. intro E'. apply Hij. congruence.
Qed.

(** A strip of [count] cells of size [size], 20 apart, that fills a
    length [total]: the cell of index [k] lies inside the length. *)
Lemma strip_within (total size : Q) (count k : Z) :
  (0 <= k <= count - 1)%Z -> 0 < size ->
  size * inject_Z count == total - 20 * (inject_Z count - 1) ->
  0 <= inject_Z k * (size + 20) /\
  inject_Z k * (size + 20) + size <= total.
Proof.
  intros [Hk0 Hk1] Hsize Hfill.
  rewrite Zle_Qle in Hk0, Hk1.
  replace (count - 1)%Z with (count + - 1)%Z in Hk1 by lia.
  rewrite inject_Z_plus in Hk1.
  change (inject_Z 0) with 0 in Hk0. change (inject_Z (- 1)) with (- (1)) in Hk1.
  generalize dependent (inject_Z k). generalize dependent (inject_Z count).
  intros qc Hfill qk Hk0 Hk1. split; nra.
Qed.

Lemma gridCell_within (margin aw ah : Q) (n i : Z) :
  (1 <= n)%Z -> (0 <= i < n)%Z ->
  positive_box (gridCell margin aw ah n i) ->
  rect_within (gridCell margin aw ah n i) (mkRect margin margin aw ah).
Proof.
  intros Hn Hi [Hw Hh]. cbn [gridCell rw rh] in Hw, Hh.
  destruct (grid_col_row_bounds n i Hn Hi) as (_ & _ & Hc & Hr).
  destruct (ceil_sqrt_spec n Hn) as [Hc1 _]. fold (gridCols n) in Hc1.
  assert (Hr1 : (1 <= gridRows n)%Z) by lia.
  assert (Hcq : 0 < inject_Z (gridCols n)) by (apply inject_Z_pos; lia).
  assert (Hrq : 0 < inject_Z (gridRows n)) by (apply inject_Z_pos; lia).
  assert (Hfw : cellWidth aw n * inject_Z (gridCols n)
                == aw - 20 * (inject_Z (gridCols n) - 1))
    by (unfold cellWidth; field; lra).
  assert (Hfh : cellHeight ah n * inject_Z (gridRows n)
                == ah - 20 * (inject_Z (gridRows n) - 1))
    by (unfold cellHeight; field; lra).
  destruct (strip_within aw (cellWidth aw n) (gridCols n) (gridCol n i)
              Hc Hw Hfw) as [Hx0 Hx1].
  destruct (strip_within ah (cellHeight ah n) (gridRows n) (gridRow n i)
              Hr Hh Hfh) as [Hy0 Hy1].
  unfold rect_within, gridCell. cbn [rx ry rw rh].
  split; [|split; [|split]]; lra.
Qed.

(** The boxes of a gallery page, when they have positive sizes, lie
    between the margins and do not overlap. *)
Lemma gallery_boxes (cfg : Config) (doc : Doc) (images : list ImageRecord) :
  Forall (fun call => positive_box (snd call)) (galleryCalls cfg doc images) ->
  Forall (fun call => rect_within (snd call) (contentArea cfg doc))
         (galleryCalls cfg doc images) /\
  ForallOrdPairs (fun c c' => ~ rect_overlap (snd c) (snd c'))
                 (galleryCalls cfg doc images).
Proof.
  unfold contentArea.
  destruct images as [|a [|b [|c rest]]].
  - intros _. split; constructor.
  - intros _. cbn. split.
    + constructor; [|constructor]. unfold rect_within. cbn.
      split; [|split; [|split]]; lra.
    + constructor; constructor.
  - intro Hpos. inversion Hpos as [|? ? [_ Hh] _]; subst.
    cbn [snd rh] in Hh. cbn [galleryCalls]. split.
    + constructor; [|constructor; [|constructor]];
        unfold rect_within; cbn [snd rx ry rw rh];
        (split; [|split; [|split]]); qarith.
    + constructor; [|constructor; constructor].
      constructor; [|constructor].
      unfold rect_overlap. cbn [snd rx ry rw rh]. intros (_ & _ & _ & H). lra.
  - intro Hpos.
    set (images := a :: b :: c :: rest) in *.
    assert (Hn : (3 <= Z.of_nat (List.length images))%Z) by (cbn; lia).
    unfold galleryCalls in *. fold images in Hpos |- *.
    cbv zeta in Hpos |- *.
    change (match images with
            | [] | _ => _ end) with
      (map (fun '(i, image) =>
              (image,
               gridCell (margin_of cfg)
                 (doc_width doc - margin_of cfg * 2)
                 (doc_height doc - margin_of cfg * 2)
                 (Z.of_nat (List.length images)) i))
           (indexed 0 images)) in Hpos |- *.
    destruct (indexed_bounds images 0) as [Hb Hd].
    rewrite Forall_map in Hpos. split.
    + rewrite Forall_map. rewrite Forall_forall in *.
      intros [i image] Hin. specialize (Hpos _ Hin). specialize (Hb _ Hin).
      cbn [fst snd] in *. apply gridCell_within; [lia|lia|exact Hpos].
    + apply FOP_map.
      apply (FOP_impl (fun c c' => fst c <> fst c')); [|exact Hd].
      intros [i image] [j image'] Hi Hj Hij. cbn [fst snd] in *.
      rewrite Forall_forall in Hb.
      pose proof (Hb _ Hi) as Hbi. pose proof (Hb _ Hj) as Hbj.
      cbn [fst] in Hbi, Hbj.
      apply gridCell_disjoint; [lia|lia|lia|exact Hij].
Qed.

(** When the writer accepts every source, every call draws its
    placement. *)
Lemma drawnRects_all_accepted (cfg : Config)
    (calls : list (ImageRecord * Rect)) :
  (forall src, image_ok src = true) ->
  drawnRects (flat_map (imageOps cfg) calls)
  = map (fun call =>
           placement (fst call) (rx (snd call)) (ry (snd call))
                     (rw (snd call)) (rh (snd call)))
        calls.
Proof.
  intro Hok. induction calls as [|call calls IH]; [reflexivity|].
  cbn [flat_map map]. rewrite drawnRects_app, IH.
  destruct (drawnRects_imageOps cfg call) as [[E _]|[_ E]].
  - rewrite E. reflexivity.
  - exfalso.
    destruct (drawnSource_cases cfg (fst call)
                (placement (fst call) (rx (snd call)) (ry (snd call))
                           (rw (snd call)) (rh (snd call))))
      as [(H & _)|[(H & _)|(_ & H & _)]];
      [congruence|congruence|rewrite Hok in H; discriminate].
Qed.

(** C2: a gallery page of [n >= 3] images.  The number of columns is the
    least integer whose square is at least [n] and the number of rows the
    least integer [r] with [n <= r * columns]; the image of index [i] is
    handed, in the order of the images, the cell of column [i mod columns]
    and row [i / columns], a row below the number of rows; the page logs
    the calls of [addImageToPage] for each image in its cell, in that
    order, and when the writer accepts every source the images it draws
    are the placements of the images in their cells; the cells have
    the width [(availableWidth - 20 * (columns - 1)) / columns] and the
    height [(availableHeight - 20 * (rows - 1)) / rows] and are 20 points
    apart; two different images get cells that do not overlap; a cell of
    the grid is used exactly when its row-major index is below [n], so
    that the cells after the last image stay empty.  For [n = 5] this is
    a grid of 3 columns and 2 rows whose cell of column 2 and row 1 is
    empty. *)
Theorem gallery_grid_layout :
  forall (cfg : Config) (doc : Doc) (images : list ImageRecord),
    let n := Z.of_nat (List.length images) in
    let margin := margin_of cfg in
    let availableWidth := doc_width doc - margin * 2 in
    let availableHeight := doc_height doc - margin * 2 in
    let cols := gridCols n in
    let rows := gridRows n in
    let calls := galleryCalls cfg doc images in
    let cell := gridCell margin availableWidth availableHeight n in
    (3 <= n)%Z ->
    ((1 <= cols)%Z /\ ((cols - 1) * (cols - 1) < n <= cols * cols)%Z) /\
    ((1 <= rows)%Z /\ ((rows - 1) * cols < n <= rows * cols)%Z) /\
    (map fst calls = images /\
     forall (i : nat) (image : ImageRecord),
       nth_error images i = Some image ->
       nth_error calls i = Some (image, cell (Z.of_nat i))) /\
    (emitted (fun d => createGalleryPage cfg d images) doc
     = flat_map (imageOps cfg) calls /\
     ((forall src, image_ok src = true) ->
      drawnRects (emitted (fun d => createGalleryPage cfg d images) doc)
      = map (fun call =>
               placement (fst call) (rx (snd call)) (ry (snd call))
                         (rw (snd call)) (rh (snd call)))
            calls)) /\
    (forall i : Z,
        (0 <= i < n)%Z ->
        gridCol n i = (i mod cols)%Z /\ gridRow n i = (i / cols)%Z /\
        (0 <= gridCol n i < cols)%Z /\ (0 <= gridRow n i < rows)%Z /\
        rw (cell i) ==
          (availableWidth - 20 * (inject_Z cols - 1)) / inject_Z cols /\
        rh (cell i) ==
          (availableHeight - 20 * (inject_Z rows - 1)) / inject_Z rows /\
        rx (cell i) == margin + inject_Z (i mod cols) * (rw (cell i) + 20) /\
        ry (cell i) == margin + inject_Z (i / cols) * (rh (cell i) + 20)) /\
    (forall i j : Z,
        (0 <= i < n)%Z -> (0 <= j < n)%Z -> i <> j ->
        ~ rect_overlap (cell i) (cell j)) /\
    (forall c r : Z,
        (0 <= c < cols)%Z -> (0 <= r < rows)%Z ->
        ((exists i, (0 <= i < n)%Z /\ gridCol n i = c /\ gridRow n i = r) <->
         (r * cols + c < n)%Z)) /\
    (n = 5%Z ->
     cols = 3%Z /\ rows = 2%Z /\
     ~ exists i, (0 <= i < n)%Z /\ gridCol n i = 2%Z /\ gridRow n i = 1%Z).
Proof.
  intros cfg doc images. cbv zeta. intro Hn.
  set (n := Z.of_nat (List.length images)) in *.
  destruct (ceil_sqrt_spec n ltac:(lia)) as [Hc1 Hc2].
  fold (gridCols n) in Hc1, Hc2.
  pose proof (gridRows_spec n ltac:(lia)) as Hr.
  assert (Hr1 : (1 <= gridRows n)%Z) by nia.
  assert (Hcolrow : forall i, (0 <= i < n)%Z ->
            gridCol n i = (i mod gridCols n)%Z /\
            gridRow n i = (i / gridCols n)%Z /\
            (0 <= i mod gridCols n < gridCols n)%Z /\
            (0 <= i / gridCols n < gridRows n)%Z).
  { intros i Hi.
    split; [apply gridCol_mod; lia|]. split; [apply gridRow_div|].
    pose proof (Z.mod_pos_bound i (gridCols n) ltac:(lia)) as Hm.
    pose proof (Z.div_mod i (gridCols n) ltac:(lia)) as Hdm.
    split; [exact Hm|]. split; [apply Z.div_pos; lia|].
    apply Z.div_lt_upper_bound; nia. }
  split; [split; assumption|]. split; [split; assumption|].
  split; [|split; [|split; [|split; [|split]]]].
  - destruct images as [|a [|b [|c rest]]]; cbn in Hn; try lia.
    unfold galleryCalls. fold n. split.
    + rewrite map_map.
      rewrite <- (map_snd_indexed (a :: b :: c :: rest) 0) at 2.
      apply map_ext. intros [i image]. reflexivity.
    + intros i image Hnth.
      rewrite nth_error_map, (nth_error_indexed _ 0%Z i image Hnth).
      reflexivity.
  - rewrite (emitted_app (fun d => createGalleryPage cfg d images) doc _
               (createGalleryPage_ops cfg doc images)).
    split; [reflexivity|].
    intro Hok. apply drawnRects_all_accepted. exact Hok.
  - intros i Hi. destruct (Hcolrow i Hi) as (Hcol & Hrow & Hcb & Hrb).
    rewrite Hcol, Hrow.
    split; [reflexivity|]. split; [reflexivity|].
    split; [exact Hcb|]. split; [exact Hrb|].
    unfold gridCell. cbn [rx ry rw rh]. rewrite Hcol, Hrow.
    split; [reflexivity|]. split; [reflexivity|].
    split; reflexivity.
  - intros i j Hi Hj Hij.
    destruct (Hcolrow i Hi) as (Hci & Hri & _).
    destruct (Hcolrow j Hj) as (Hcj & Hrj & _).
    unfold gridCell. apply cells_disjoint.
    rewrite Hci, Hri, Hcj, Hrj.
    pose proof (Z.div_mod i (gridCols n) ltac:(lia)).
    pose proof (Z.div_mod j (gridCols n) ltac:(lia)).
    destruct (Z.eq_dec (i mod gridCols n) (j mod gridCols n)) as [E|E];
      [|left; exact E].
    right. intro E'. apply Hij. congruence.
  - intros c r Hc Hrw. split.
    + intros (i & Hi & Hci & Hri).
      destruct (Hcolrow i Hi) as (Hci' & Hri' & _).
      pose proof (Z.div_mod i (gridCols n) ltac:(lia)). nia.
    + intro Hlt.
      assert (Hi : (0 <= r * gridCols n + c < n)%Z) by nia.
      exists (r * gridCols n + c)%Z. split; [exact Hi|].
      destruct (Hcolrow _ Hi) as (-> & -> & _).
      split.
      * symmetry. apply (Z.mod_unique _ _ r); [left; lia|lia].
      * symmetry. apply (Z.div_unique _ _ r c); [left; lia|lia].
  - intro H5. rewrite H5. split; [reflexivity|]. split; [reflexivity|].
    intros (i & Hi & Hci & Hri).
    rewrite gridRow_div in Hri.
    rewrite gridCol_mod in Hci by (try reflexivity; lia).
    change (gridCols 5) with 3%Z in Hci, Hri.
    pose proof (Z.div_mod i 3 ltac:(lia)). lia.
Qed.

(** X8: on a gallery page whose images have positive sizes and whose
    boxes have positive sizes, every drawn image lies between the
    margins, no two drawn images overlap, no image is drawn twice, and
    every image is drawn when the writer accepts every source. *)
Theorem gallery_images_inside_margins_and_apart :
  forall (cfg : Config) (doc : Doc) (images : list ImageRecord),
    Forall positive_size images ->
    Forall (fun call => positive_box (snd call))
           (galleryCalls cfg doc images) ->
    let ops := emitted (fun d => createGalleryPage cfg d images) doc in
    Forall (fun r => rect_within r (contentArea cfg doc)) (drawnRects ops) /\
    ForallOrdPairs (fun r r' => ~ rect_overlap r r') (drawnRects ops) /\
    (List.length (drawnRects ops) <= List.length images)%nat /\
    ((forall src, image_ok src = true) ->
     List.length (drawnRects ops) = List.length images).
Proof.
  intros cfg doc images Hsize Hpos. cbv zeta.
  rewrite (emitted_app (fun d => createGalleryPage cfg d images) doc _
             (createGalleryPage_ops cfg doc images)).
  rewrite drawnRects_flat_map.
  destruct (gallery_boxes cfg doc images Hpos) as [Hwithin Hapart].
  pose proof (galleryCalls_fst cfg doc images) as Hfst.
  assert (Hsizes : Forall (fun call => positive_size (fst call))
                          (galleryCalls cfg doc images)).
  { rewrite <- Hfst in Hsize. rewrite Forall_map in Hsize. exact Hsize. }
  set (place := fun call : ImageRecord * Rect =>
                  placement (fst call) (rx (snd call)) (ry (snd call))
                            (rw (snd call)) (rh (snd call))).
  assert (Hone : forall call,
            drawnRects (imageOps cfg call) = [place call] \/
            drawnRects (imageOps cfg call) = []).
  { intro call. destruct (drawnRects_imageOps cfg call) as [[H _]|[H _]];
      [left|right]; exact H. }
  assert (Hin : forall call,
            In call (galleryCalls cfg doc images) ->
            rect_within (place call) (snd call)).
  { intros call Hcall. rewrite Forall_forall in Hsizes, Hpos.
    apply placement_within; [exact (Hsizes _ Hcall)|exact (Hpos _ Hcall)]. }
  assert (Hlen : List.length images
                 = List.length (galleryCalls cfg doc images))
    by (rewrite <- Hfst at 1; apply length_map).
  rewrite Hlen. clear Hlen.
  generalize dependent (galleryCalls cfg doc images). intros calls.
  intros Hpos Hwithin Hapart _ Hsizes Hin.
  split; [|split; [|split]].
  - rewrite Forall_forall in *. intros r Hr.
    apply in_flat_map in Hr. destruct Hr as (call & Hcall & Hr).
    destruct (Hone call) as [E|E]; rewrite E in Hr; [|destruct Hr].
    destruct Hr as [<-|[]].
    exact (rect_within_trans _ _ _ (Hin call Hcall) (Hwithin call Hcall)).
  - apply (FOP_flat_map_optional _ place); [exact Hone|].
    apply (FOP_impl (fun c c' => ~ rect_overlap (snd c) (snd c')));
      [|exact Hapart].
    intros c c' Hc Hc' Hno Hov. apply Hno.
    exact (rect_overlap_within _ _ _ _ (Hin c Hc) (Hin c' Hc') Hov).
  - clear - Hone. induction calls as [|call calls IH]; [apply Nat.le_refl|].
    cbn [flat_map]. rewrite length_app.
    destruct (Hone call) as [E|E]; rewrite E; cbn [List.length]; lia.
  - intro Hok. clear - Hok. induction calls as [|call calls IH]; [reflexivity|].
    cbn [flat_map]. rewrite length_app, IH.
    destruct (drawnRects_imageOps cfg call) as [[E _]|[_ E]].
    + rewrite E. reflexivity.
    + exfalso.
      destruct (drawnSource_cases cfg (fst call)
                  (placement (fst call) (rx (snd call)) (ry (snd call))
                             (rw (snd call)) (rh (snd call))))
        as [(H & _)|[(H & _)|(_ & H & _)]];
        [congruence|congruence|rewrite Hok in H; discriminate].
Qed.

(** ** Images of the info pages *)

(** An image token is none of the keywords. *)
Lemma image_token_is_no_keyword (item : string) :
  isImageToken item = true ->
  String.eqb item "title" = false /\ String.eqb item "medium" = false /\
  String.eqb item "year" = false /\ String.eqb item "credits" = false /\
  String.eqb item "description" = false /\ String.eqb item "link" = false.
Proof.
  intro H.
  repeat match goal with
         | |- _ /\ _ => split
         | |- String.eqb item ?k = false =>
             destruct (String.eqb_spec item k) as [E|E];
               [rewrite E in H; discriminate H|reflexivity]
         end.
Qed.

Lemma Qmin3_bounds (a b c : Q) :
  Qmin3 a b c <= a /\ Qmin3 a b c <= b /\ Qmin3 a b c <= c /\
  (0 < a -> 0 < b -> 0 < c -> 0 < Qmin3 a b c).
Proof.
  unfold Qmin3.
  pose proof (Q.le_min_l a (Qmin b c)).
  pose proof (Q.le_min_r a (Qmin b c)).
  pose proof (Q.le_min_l b c). pose proof (Q.le_min_r b c).
  split; [assumption|]. split; [lra|]. split; [lra|].
  intros Ha Hb Hc. apply Q.min_glb_lt; [exact Ha|].
  apply Q.min_glb_lt; assumption.
Qed.

Lemma drawnRects_addImageToPage (cfg : Config) (doc : Doc)
    (image : ImageRecord) (x y w h : Q) :
  forall r,
    In r (drawnRects
            (emitted (fun d => addImageToPage cfg d image x y w h) doc)) ->
    r = placement image x y w h.
Proof.
  intros r.
  rewrite (emitted_app (fun d => addImageToPage cfg d image x y w h) doc _
             (addImageToPage_ops cfg doc image x y w h)).
  destruct (drawnSource cfg image _) as [src|]; [|intros []].
  destruct (img_border image || globalBorder cfg); cbn;
    intros [<-|[]]; reflexivity.
Qed.

(** X9: an image token of a single-column info page that names a record
    of positive size, met while the cursor is above the bottom margin of
    a page with room between its side margins, is given a box as wide as
    the content area and at most 400 points, 40% of the page height and
    60% of the height left above the bottom margin high; the image is
    drawn inside that box, so between the margins and above the bottom
    margin, and the cursor moves 20 points under the box. *)
Theorem single_column_image_stays_on_page :
  forall (cfg : Config) (project : Project) (doc : Doc) (currentY : Q)
         (item : string) (image : ImageRecord),
    isImageToken item = true ->
    findImage item (processedImages project) = Some image ->
    positive_size image ->
    0 < doc_width doc - margin_of cfg * 2 ->
    0 < doc_height doc ->
    currentY < doc_height doc - margin_of cfg ->
    let margin := margin_of cfg in
    let remaining := doc_height doc - currentY - margin in
    let maxImageHeight :=
      Qmin3 (remaining * (6 # 10)) (doc_height doc * (4 # 10)) 400 in
    let step d := singleColumnItem cfg project (d, currentY) item in
    (0 < maxImageHeight /\ maxImageHeight <= 400 /\
     maxImageHeight <= doc_height doc * (4 # 10) /\
     maxImageHeight <= remaining * (6 # 10)) /\
    snd (step doc) == currentY + maxImageHeight + 20 /\
    snd (step doc) < doc_height doc - margin + 20 /\
    Forall (fun r =>
              rect_within r (mkRect margin currentY
                               (doc_width doc - margin * 2) maxImageHeight) /\
              margin <= rx r /\ rx r + rw r <= doc_width doc - margin /\
              currentY <= ry r /\ ry r + rh r < doc_height doc - margin)
           (drawnRects (emitted (fun d => fst (step d)) doc)).
Proof.
  intros cfg project doc currentY item image Htoken Hfind Hsize Hw Hh Hy.
  cbv zeta.
  destruct (image_token_is_no_keyword item Htoken)
    as (K1 & K2 & K3 & K4 & K5 & K6).
  assert (Hstep : forall d,
    doc_width d = doc_width doc -> doc_height d = doc_height doc ->
    singleColumnItem cfg project (d, currentY) item =
    (addImageToPage cfg d image (margin_of cfg) currentY
       (doc_width doc - margin_of cfg * 2)
       (Qmin3 ((doc_height doc - currentY - margin_of cfg) * (6 # 10))
              (doc_height doc * (4 # 10)) 400),
     currentY +
     (Qmin3 ((doc_height doc - currentY - margin_of cfg) * (6 # 10))
            (doc_height doc * (4 # 10)) 400 + 20))).
  { intros d Hdw Hdh. unfold singleColumnItem.
    rewrite K1, K2, K3, K4, K5, K6, Htoken, Hfind, Hdw, Hdh. reflexivity. }
  destruct (Qmin3_bounds ((doc_height doc - currentY - margin_of cfg) * (6 # 10))
              (doc_height doc * (4 # 10)) 400) as (B1 & B2 & B3 & Bpos).
  assert (Hpos : 0 < Qmin3 ((doc_height doc - currentY - margin_of cfg)
                            * (6 # 10))
                           (doc_height doc * (4 # 10)) 400)
    by (apply Bpos; lra).
  split; [split; [exact Hpos|split; [exact B3|split; [exact B2|exact B1]]]|].
  rewrite (Hstep doc eq_refl eq_refl). cbn [snd].
  split; [ring|]. split; [lra|].
  unfold emitted. rewrite (Hstep doc eq_refl eq_refl). cbn [fst].
  fold (emitted (fun d => addImageToPage cfg d image (margin_of cfg) currentY
                    (doc_width doc - margin_of cfg * 2)
                    (Qmin3 ((doc_height doc - currentY - margin_of cfg)
                            * (6 # 10))
                           (doc_height doc * (4 # 10)) 400)) doc).
  rewrite Forall_forall. intros r Hr.
  apply drawnRects_addImageToPage in Hr. subst r.
  pose proof (placement_within image
                (mkRect (margin_of cfg) currentY
                        (doc_width doc - margin_of cfg * 2)
                        (Qmin3 ((doc_height doc - currentY - margin_of cfg)
                                * (6 # 10))
                               (doc_height doc * (4 # 10)) 400))
                Hsize (conj Hw Hpos)) as Hin.
  cbn [rx ry rw rh] in Hin. split; [exact Hin|].
  unfold rect_within in Hin. cbn [rx ry rw rh] in Hin.
  destruct Hin as (I1 & I2 & I3 & I4).
  generalize dependent (Qmin3 ((doc_height doc - currentY - margin_of cfg)
                               * (6 # 10))
                              (doc_height doc * (4 # 10)) 400).
  intros. split; [|split; [|split]]; lra.
Qed.

(** ** The shape of a two-column info page *)

Lemma doc_text_ops (d : Doc) (text : string) (x y : Q) (width : option Q)
    (align : option string) :
  doc_ops (doc_text d text x y width align) =
  doc_ops d ++ [OpText (doc_font d) (doc_fontSize d) text x y width align].
Proof. reflexivity. Qed.

(** One turn of the text loop adds texts of the column. *)
Lemma twoColumnItem_ops (cfg : Config) (project : Project) (width : Q)
    (st : Doc * Q) (item : string) :
  exists texts,
    doc_ops (fst (twoColumnItem cfg project width st item)) =
      doc_ops (fst st) ++ texts /\
    Forall (column_text cfg project width) texts.
Proof.
  destruct st as [d y]. unfold twoColumnItem.
  assert (Hnone : exists texts : list DrawOp,
            doc_ops d = doc_ops d ++ texts /\
            Forall (column_text cfg project width) texts)
    by (exists []; rewrite app_nil_r; split; [reflexivity|constructor]).
  assert (Hone : forall fontName size text,
            (text = proj_title project \/ text = mediumText project \/
             text = proj_year project \/ text = proj_description project \/
             text = ostr (proj_link project)) ->
            exists texts : list DrawOp,
              doc_ops (doc_text (font fontName (fontSize size d)) text
                         (margin_of cfg) y (Some width) None) =
              doc_ops d ++ texts /\
              Forall (column_text cfg project width) texts).
  { intros fontName size text Htext. eexists. split; [reflexivity|].
    constructor; [|constructor].
    exists fontName, size, text, y. split; [reflexivity|exact Htext]. }
  destruct (isImageToken item); [exact Hnone|].
  destruct (String.eqb item "title"); [apply Hone; auto|].
  destruct (String.eqb item "medium"); [apply Hone; auto|].
  destruct (String.eqb item "year"); [apply Hone; auto|].
  destruct (String.eqb item "description"); [apply Hone; auto 6|].
  destruct (String.eqb item "link"); [|exact Hnone].
  destruct (truthy_ostr (proj_link project)); [apply Hone; auto 6|exact Hnone].
Qed.

Lemma twoColumn_fold_ops (cfg : Config) (project : Project) (width : Q)
    (content : list string) :
  forall st : Doc * Q,
  exists texts,
    doc_ops (fst (fold_left (twoColumnItem cfg project width) content st)) =
      doc_ops (fst st) ++ texts /\
    Forall (column_text cfg project width) texts.
Proof.
  induction content as [|item content IH]; intro st.
  - exists []. cbn. rewrite app_nil_r. split; [reflexivity|constructor].
  - cbn [fold_left].
    destruct (twoColumnItem_ops cfg project width st item) as (t1 & H1 & F1).
    destruct (IH (twoColumnItem cfg project width st item))
      as (t2 & H2 & F2).
    exists (t1 ++ t2). split.
    + rewrite H2, H1, app_assoc. reflexivity.
    + apply Forall_app. split; assumption.
Qed.

Lemma twoColumnRenderText_ops (cfg : Config) (doc : Doc) (project : Project)
    (page : LayoutPage) :
  exists texts,
    doc_ops (fst (twoColumnRenderText cfg doc project page)) =
      doc_ops doc ++ texts /\
    Forall (column_text cfg project (textColumnWidth cfg doc)) texts.
Proof.
  exact (twoColumn_fold_ops cfg project (textColumnWidth cfg doc)
           (page_content page)
           (font (font_body (fonts_of cfg)) (fontSize 12 doc),
            twoColumnStartY cfg doc project page)).
Qed.

(** The log of a two-column info page: texts of the column, then the
    calls of the image. *)
Lemma createTwoColumnInfoPage_ops (cfg : Config) (doc : Doc)
    (project : Project) (page : LayoutPage) :
  exists texts,
    doc_ops (createTwoColumnInfoPage cfg doc project page) =
      doc_ops doc ++ texts ++ imageColumnOps cfg doc project page /\
    Forall (column_text cfg project (textColumnWidth cfg doc)) texts.
Proof.
  destruct (twoColumnRenderText_ops cfg doc project page) as (texts & Hops & Ht).
  exists texts. split; [|exact Ht].
  assert (Hw : doc_width (fst (twoColumnRenderText cfg doc project page))
               = doc_width doc).
  { assert (Hr : renders doc (fst (twoColumnRenderText cfg doc project page))).
    { unfold twoColumnRenderText. cbv zeta.
      eapply renders_trans;
        [|apply (renders_fold_state
                   (twoColumnItem cfg project (textColumnWidth cfg doc))
                   (renders_twoColumnItem cfg project _))].
      cbn [fst]. renders_steps. }
    destruct Hr as (Hw & _). exact Hw. }
  unfold createTwoColumnInfoPage, imageColumnOps. cbv zeta.
  destruct (find isImageToken (page_content page)) as [item|];
    [|rewrite app_nil_r; exact Hops].
  destruct (findImage item (processedImages project)) as [image|];
    [|rewrite app_nil_r; exact Hops].
  rewrite addImageToPage_ops, Hops, <- app_assoc.
  unfold imageOps, imageColumnBox, imageColumnWidth. cbn [rx ry rw rh].
  rewrite Hw. reflexivity.
Qed.

Lemma drawnRects_texts (cfg : Config) (project : Project) (width : Q)
    (texts : list DrawOp) :
  Forall (column_text cfg project width) texts -> drawnRects texts = [].
Proof.
  induction 1 as [|op texts (f & s & t & y & -> & _) _ IH]; [reflexivity|].
  exact IH.
Qed.

(** X10: on a two-column info page the text column takes 45% and the
    image column 55% of the width between the margins less the gap of
    40 points.  Every text is drawn at the left margin and wrapped at
    the width of the text column, and the image, when its record has a
    positive size and the page has room for the two columns, is drawn
    inside the image column: 40 points or more to the right of the text
    column, not beyond the right margin, 20 points or more under the top
    margin, and above the bottom margin as soon as the margin is 20
    points or more. *)
Theorem two_column_image_beside_text :
  forall (cfg : Config) (doc : Doc) (project : Project) (page : LayoutPage),
    Forall positive_size (processedImages project) ->
    0 < doc_width doc - margin_of cfg * 2 - 40 ->
    0 < doc_height doc - margin_of cfg * 3 ->
    let margin := margin_of cfg in
    let width := textColumnWidth cfg doc in
    let ops :=
      emitted (fun d => createTwoColumnInfoPage cfg d project page) doc in
    (width == (doc_width doc - margin * 2 - 40) * (45 # 100) /\
     rw (imageColumnBox cfg doc)
     == (doc_width doc - margin * 2 - 40) * (55 # 100) /\
     rx (imageColumnBox cfg doc) == margin + width + 40) /\
    (forall fontName size text x y wrap align,
        In (OpText fontName size text x y wrap align) ops ->
        x = margin /\ wrap = Some width) /\
    Forall (fun r =>
              rect_within r (imageColumnBox cfg doc) /\
              margin + width + 40 <= rx r /\
              rx r + rw r <= doc_width doc - margin /\
              margin + 20 <= ry r /\
              ry r + rh r <= doc_height doc - margin * 2 + 20 /\
              (20 <= margin -> ry r + rh r <= doc_height doc - margin))
           (drawnRects ops).
Proof.
  intros cfg doc project page Hsizes Hw Hh. cbv zeta.
  destruct (createTwoColumnInfoPage_ops cfg doc project page)
    as (texts & Hops & Htexts).
  rewrite (emitted_app (fun d => createTwoColumnInfoPage cfg d project page)
             doc _ Hops).
  split; [|split].
  - unfold imageColumnBox, imageColumnWidth, textColumnWidth.
    cbn [rx rw]. split; [reflexivity|]. split; reflexivity.
  - intros fontName size text x y wrap align Hin.
    apply in_app_or in Hin. destruct Hin as [Hin|Hin].
    + rewrite Forall_forall in Htexts.
      destruct (Htexts _ Hin) as (f & s & t & y' & E & _).
      injection E as _ _ _ -> _ -> _. split; reflexivity.
    + exfalso. unfold imageColumnOps in Hin.
      destruct (find isImageToken (page_content page)); [|destruct Hin].
      destruct (findImage _ _); [|destruct Hin].
      unfold imageOps in Hin. cbv zeta in Hin.
      destruct (drawnSource _ _ _); [|destruct Hin].
      destruct (img_border _ || globalBorder cfg);
        repeat (destruct Hin as [Hin|Hin]; [discriminate|]); destruct Hin.
  - rewrite drawnRects_app, (drawnRects_texts _ _ _ _ Htexts). cbn [app].
    unfold imageColumnOps.
    destruct (find isImageToken (page_content page)) as [item|];
      [|constructor].
    destruct (findImage item (processedImages project)) as [image|] eqn:Hfind;
      [|constructor].
    assert (Hsize : positive_size image).
    { rewrite Forall_forall in Hsizes. apply Hsizes.
      unfold findImage in Hfind. apply find_some in Hfind. apply Hfind. }
    assert (Hbox : positive_box (imageColumnBox cfg doc)).
    { unfold positive_box, imageColumnBox, imageColumnWidth. cbn [rw rh].
      split; [cbv zeta; nra|exact Hh]. }
    pose proof (placement_within image (imageColumnBox cfg doc) Hsize Hbox)
      as Hin.
    destruct (drawnRects_imageOps cfg (image, imageColumnBox cfg doc))
      as [[E _]|[E _]]; rewrite E; [|constructor].
    cbn [fst snd]. constructor; [|constructor].
    split; [exact Hin|].
    unfold rect_within in Hin.
    generalize dependent (placement image (rx (imageColumnBox cfg doc))
                            (ry (imageColumnBox cfg doc))
                            (rw (imageColumnBox cfg doc))
                            (rh (imageColumnBox cfg doc))).
    intros r Hin. clear E Hbox.
    unfold imageColumnBox, imageColumnWidth, textColumnWidth in *.
    cbn [rx ry rw rh] in *. cbv zeta in *.
    destruct Hin as (I1 & I2 & I3 & I4).
    generalize dependent (doc_width doc). generalize dependent (doc_height doc).
    generalize dependent (margin_of cfg).
    intros m H Hh I2 I4 W Hw I1 I3.
    split; [lra|]. split; [lra|]. split; [lra|]. split; [lra|]. intro; lra.
Qed.

(** X11: a two-column info page draws one image at most, that of its
    first image token; when that token names no record nothing is
    drawn, whatever the later tokens are. *)
Theorem two_column_draws_first_image_token_only :
  forall (cfg : Config) (doc : Doc) (project : Project) (page : LayoutPage),
    let rects :=
      drawnRects
        (emitted (fun d => createTwoColumnInfoPage cfg d project page) doc) in
    (List.length rects <= 1)%nat /\
    (forall r, In r rects ->
       exists item image,
         find isImageToken (page_content page) = Some item /\
         findImage item (processedImages project) = Some image /\
         r = placement image (rx (imageColumnBox cfg doc))
               (ry (imageColumnBox cfg doc)) (rw (imageColumnBox cfg doc))
               (rh (imageColumnBox cfg doc))) /\
    (forall item,
        find isImageToken (page_content page) = Some item ->
        findImage item (processedImages project) = None ->
        rects = []) /\
    (find isImageToken (page_content page) = None -> rects = []).
Proof.
  intros cfg doc project page. cbv zeta.
  destruct (createTwoColumnInfoPage_ops cfg doc project page)
    as (texts & Hops & Htexts).
  rewrite (emitted_app (fun d => createTwoColumnInfoPage cfg d project page)
             doc _ Hops).
  rewrite drawnRects_app, (drawnRects_texts _ _ _ _ Htexts). cbn [app].
  unfold imageColumnOps.
  destruct (find isImageToken (page_content page)) as [item|].
  - destruct (findImage item (processedImages project)) as [image|] eqn:Hi.
    + destruct (drawnRects_imageOps cfg (image, imageColumnBox cfg doc))
        as [[E _]|[E _]]; rewrite E; cbn [fst snd List.length].
      * split; [lia|]. split; [|split; [|discriminate]].
        -- intros r [<-|[]]. exists item, image.
           split; [reflexivity|split; [exact Hi|reflexivity]].
        -- intros item' H Hn. injection H as <-. congruence.
      * split; [lia|]. split; [intros r []|].
        split; [reflexivity|reflexivity].
    + cbn. split; [lia|]. split; [intros r []|].
      split; [reflexivity|reflexivity].
  - cbn. split; [lia|]. split; [intros r []|].
    split; [reflexivity|reflexivity].
Qed.

(** ** Tokens a two-column info page never reads *)

Lemma fold_left_filter {A S : Type} (f : S -> A -> S) (p : A -> bool)
    (l : list A) :
  (forall st a, p a = false -> f st a = st) ->
  forall st, fold_left f (filter p l) st = fold_left f l st.
Proof.
  intros Hskip. induction l as [|a l IH]; intro st; [reflexivity|].
  cbn [filter fold_left]. destruct (p a) eqn:E.
  - cbn [fold_left]. apply IH.
  - rewrite (Hskip st a E). apply IH.
Qed.

Lemma find_filter {A : Type} (q p : A -> bool) (l : list A) :
  (forall a, q a = true -> p a = true) ->
  find q (filter p l) = find q l.
Proof.
  intros Hqp. induction l as [|a l IH]; [reflexivity|].
  cbn [filter find]. destruct (p a) eqn:Ep; cbn [find].
  - rewrite IH. reflexivity.
  - destruct (q a) eqn:Eq; [|exact IH].
    rewrite (Hqp a Eq) in Ep. discriminate.
Qed.

Lemma two_column_token_false (item : string) :
  two_column_token item = false ->
  isImageToken item = false /\ String.eqb item "title" = false /\
  String.eqb item "medium" = false /\ String.eqb item "year" = false /\
  String.eqb item "description" = false /\ String.eqb item "link" = false.
Proof.
  unfold two_column_token. rewrite !orb_false_iff.
  intros (((((H1 & H2) & H3) & H4) & H5) & H6). repeat split; assumption.
Qed.

(** X12: a two-column info page reads the image tokens and the keywords
    [title], [medium], [year], [description] and [link] only: every
    other token of the content, the keyword [credits] included, changes
    neither the height counted for the centring nor the page, while a
    single-column page draws the credits of a project that has some. *)
Theorem two_column_reads_five_keywords_only :
  forall (cfg : Config) (doc : Doc) (project : Project) (page : LayoutPage),
    let read :=
      mkLayoutPage (page_type page)
                   (filter two_column_token (page_content page)) in
    twoColumnTextHeight cfg doc project page =
      twoColumnTextHeight cfg doc project read /\
    createTwoColumnInfoPage cfg doc project page =
      createTwoColumnInfoPage cfg doc project read /\
    two_column_token "credits" = false /\
    (truthy_ostr (proj_collective project)
     || truthy_ostr (proj_curator project)
     || truthy_ostr (proj_publisher project) = true ->
     forall y, exists op,
       emitted (fun d => fst (singleColumnItem cfg project (d, y) "credits"))
               doc = [op]).
Proof.
  intros cfg doc project page. cbv zeta.
  assert (Hheight : forall d,
                    twoColumnTextHeight cfg d project page =
                    twoColumnTextHeight cfg d project
                      (mkLayoutPage (page_type page)
                         (filter two_column_token (page_content page)))).
  { intro d. unfold twoColumnTextHeight. cbv zeta. cbn [page_content].
    symmetry. apply fold_left_filter. intros h item Hskip.
    destruct (two_column_token_false item Hskip)
      as (K0 & K1 & K2 & K3 & K4 & K5).
    unfold textHeightItem. rewrite K0, K1, K2, K3, K4, K5. reflexivity. }
  split; [apply Hheight|]. split; [|split; [reflexivity|]].
  - unfold createTwoColumnInfoPage, twoColumnRenderText, twoColumnStartY.
    cbv zeta. rewrite <- !Hheight. cbn [page_content].
    rewrite (find_filter isImageToken two_column_token).
    + rewrite (fold_left_filter
                 (twoColumnItem cfg project (textColumnWidth cfg doc))
                 two_column_token (page_content page)).
      * reflexivity.
      * intros [d y] item Hskip.
        destruct (two_column_token_false item Hskip)
          as (K0 & K1 & K2 & K3 & K4 & K5).
        unfold twoColumnItem. rewrite K0, K1, K2, K3, K4, K5. reflexivity.
    + intros item Hitem. unfold two_column_token. rewrite Hitem. reflexivity.
  - intros Hcredits y. eexists. apply emitted_app.
    unfold singleColumnItem.
    change (String.eqb "credits" "title") with false.
    change (String.eqb "credits" "medium") with false.
    change (String.eqb "credits" "year") with false.
    change (String.eqb "credits" "credits") with true.
    cbv iota. rewrite Hcredits. cbv zeta. cbn [fst].
    rewrite doc_text_ops. cbn [doc_ops font fontSize doc_font doc_fontSize].
    reflexivity.
Qed.

(** ** Page breaks of a whole document *)

Lemma pageBreaks_app (ops ops' : list DrawOp) :
  pageBreaks (ops ++ ops') = (pageBreaks ops + pageBreaks ops')%nat.
Proof.
  induction ops as [|op ops IH]; [reflexivity|].
  destruct op; cbn; rewrite IH; reflexivity.
Qed.

Lemma pageBreaks_none (ops : list DrawOp) :
  ~ In OpAddPage ops -> pageBreaks ops = 0%nat.
Proof.
  induction ops as [|op ops IH]; intro H; [reflexivity|].
  destruct op; cbn; try (apply IH; intro Hin; apply H; right; exact Hin).
  exfalso. apply H. left. reflexivity.
Qed.

Lemma pageBreaks_segments (doc : Doc) {A : Type} (f : A -> Doc -> Doc)
    (l : list A) (segs : list (list DrawOp)) :
  Forall2 (fun a seg => page_segment doc (f a) seg) l segs ->
  pageBreaks (flat_map (fun seg => seg ++ [OpAddPage]) segs) = List.length l /\
  pageBreaks (intercalate [OpAddPage] segs) = Nat.pred (List.length l) /\
  Forall (fun seg => pageBreaks seg = 0%nat) segs.
Proof.
  induction 1 as [|a seg l segs [Hno _] Hrest (IH1 & IH2 & IH3)].
  - repeat split. constructor.
  - pose proof (pageBreaks_none seg Hno) as Hseg.
    split; [|split].
    + cbn [flat_map List.length]. rewrite !pageBreaks_app, Hseg, IH1.
      reflexivity.
    + cbn [intercalate List.length Nat.pred].
      destruct Hrest as [|a' seg' l' segs' _ _]; [exact Hseg|].
      rewrite !pageBreaks_app, Hseg, IH2. reflexivity.
    + constructor; assumption.
Qed.

Lemma chunks2_length {A : Type} (l : list A) :
  List.length (chunks2 l) = Nat.div2 (S (List.length l)).
Proof.
  induction l as [|a|a b l IH] using list_ind2; [reflexivity..|].
  cbn [chunks2 List.length]. rewrite IH. reflexivity.
Qed.

(** The calls one project adds, and how many page breaks are among
    them. *)
Lemma createProjectPages_breaks (cfg : Config) (doc : Doc)
    (project : Project) :
  exists ops,
    doc_ops (createProjectPages cfg doc project) = doc_ops doc ++ ops /\
    pageBreaks ops = layout_page_breaks project.
Proof.
  assert (Hdoc : same_page doc doc) by (split; reflexivity).
  unfold createProjectPages, layout_page_breaks, explicitPages.
  destruct (proj_layout project) as [[[pages|]]|];
    cbn [layout_pages].
  - destruct (explicit_pages_ops cfg project doc pages doc Hdoc)
      as (segs & Hsegs & Hops).
    eexists. split; [exact Hops|].
    exact (proj1 (pageBreaks_segments doc
                    (fun page d => createProjectPage cfg d project page)
                    pages segs Hsegs)).
  - unfold createDefaultProjectLayout. cbv zeta.
    rewrite (galleryLoop_chunks cfg _ [] (processedImages project) _
               (Nat.le_refl _)).
    pose proof (renders_createInfoPage cfg doc project) as Hr.
    destruct (renders_segment doc doc
                (fun d => createInfoPage cfg d project) Hdoc Hr)
      as (info & [Hinfo _] & Hops).
    destruct (galleryPages_ops cfg doc (chunks2 (processedImages project))
                (addPage (createInfoPage cfg doc project)))
      as (segs & Hsegs & Hops').
    { apply same_page_addPage. exact (renders_same_page _ _ Hr). }
    exists (info ++ [OpAddPage] ++ intercalate [OpAddPage] segs). split.
    + rewrite Hops'. cbn [addPage set_y emit doc_ops]. rewrite Hops.
      rewrite <- !app_assoc. reflexivity.
    + destruct (pageBreaks_segments doc
                  (fun chunk d => createGalleryPage cfg d chunk)
                  _ segs Hsegs) as (_ & Hbetween & _).
      rewrite !pageBreaks_app, (pageBreaks_none info Hinfo), Hbetween.
      rewrite chunks2_length. cbn [pageBreaks]. lia.
  - unfold createDefaultProjectLayout. cbv zeta.
    rewrite (galleryLoop_chunks cfg _ [] (processedImages project) _
               (Nat.le_refl _)).
    pose proof (renders_createInfoPage cfg doc project) as Hr.
    destruct (renders_segment doc doc
                (fun d => createInfoPage cfg d project) Hdoc Hr)
      as (info & [Hinfo _] & Hops).
    destruct (galleryPages_ops cfg doc (chunks2 (processedImages project))
                (addPage (createInfoPage cfg doc project)))
      as (segs & Hsegs & Hops').
    { apply same_page_addPage. exact (renders_same_page _ _ Hr). }
    exists (info ++ [OpAddPage] ++ intercalate [OpAddPage] segs). split.
    + rewrite Hops'. cbn [addPage set_y emit doc_ops]. rewrite Hops.
      rewrite <- !app_assoc. reflexivity.
    + destruct (pageBreaks_segments doc
                  (fun chunk d => createGalleryPage cfg d chunk)
                  _ segs Hsegs) as (_ & Hbetween & _).
      rewrite !pageBreaks_app, (pageBreaks_none info Hinfo), Hbetween.
      rewrite chunks2_length. cbn [pageBreaks]. lia.
Qed.

(** X15: the page breaks of a document add up over its projects: a
    project whose [layout] has [pages] issues one page break per
    instruction, a project without [layout], or whose [layout] has no
    [pages], issues one page break when it has at most two images and
    one per pair of images, the last pair perhaps incomplete,
    otherwise. *)
Theorem page_breaks_add_up :
  forall (cfg : Config) (doc : Doc) (projects : list Project),
    pageBreaks
      (emitted (fun d => createAllProjectPages cfg d projects) doc) =
    list_sum (map layout_page_breaks projects) /\
    (forall project pages,
        has_layout project pages ->
        layout_page_breaks project = List.length pages) /\
    (forall project,
        no_layout project ->
        layout_page_breaks project =
        Nat.max 1 (Nat.div2 (S (List.length (processedImages project))))).
Proof.
  intros cfg doc projects.
  split; [|split].
  2: { intros project pages (layout & Hlayout & Hpages).
       unfold layout_page_breaks. rewrite Hlayout.
       destruct layout as [pages']. cbn [layout_pages] in Hpages.
       rewrite Hpages. reflexivity. }
  2: { intros project [Hlayout|(layout & Hlayout & Hpages)];
         unfold layout_page_breaks; rewrite Hlayout; [reflexivity|].
       destruct layout as [pages']. cbn [layout_pages] in Hpages.
       rewrite Hpages. reflexivity. }
  assert (H : exists ops,
            doc_ops (createAllProjectPages cfg doc projects) =
              doc_ops doc ++ ops /\
            pageBreaks ops = list_sum (map layout_page_breaks projects)).
  { unfold createAllProjectPages. revert doc.
    induction projects as [|project projects IH]; intro doc.
    - exists []. cbn. rewrite app_nil_r. split; reflexivity.
    - cbn [fold_left map list_sum].
      destruct (createProjectPages_breaks cfg doc project) as (o1 & H1 & B1).
      destruct (IH (createProjectPages cfg doc project)) as (o2 & H2 & B2).
      exists (o1 ++ o2). split.
      + rewrite H2, H1, app_assoc. reflexivity.
      + rewrite pageBreaks_app, B1, B2. reflexivity. }
  destruct H as (ops & Hops & Hcount).
  rewrite (emitted_app (fun d => createAllProjectPages cfg d projects)
             doc ops Hops).
  exact Hcount.
Qed.

(** ** Where a project leaves the writer *)

Lemma ends_with_draw_app (ops ops' : list DrawOp) :
  ends_with_draw ops' -> ends_with_draw (ops ++ ops').
Proof.
  intros (before & op & -> & Hop). exists (ops ++ before), op.
  split; [rewrite app_assoc; reflexivity|exact Hop].
Qed.

Lemma imageOps_ends_with_draw (cfg : Config) (call : ImageRecord * Rect) :
  (forall src, image_ok src = true) -> ends_with_draw (imageOps cfg call).
Proof.
  intro Hok. destruct call as [image box]. unfold imageOps. cbv zeta.
  destruct (drawnSource_cases cfg image
              (placement image (rx box) (ry box) (rw box) (rh box)))
    as [(-> & _)|[(-> & _)|(_ & H & _)]];
    [| |rewrite Hok in H; discriminate].
  - destruct (img_border image || globalBorder cfg).
    + eexists [_], _. split; [reflexivity|]. right. eauto.
    + exists [], (OpImage (resizedBuffer cfg image
                            (placement image (rx box) (ry box) (rw box)
                                       (rh box)))
                         (placement image (rx box) (ry box) (rw box)
                                    (rh box))).
      split; [reflexivity|]. left. eauto.
  - destruct (img_border image || globalBorder cfg).
    + eexists [_], _. split; [reflexivity|]. right. eauto.
    + exists [], (OpImage (FromPath (img_path image))
                         (placement image (rx box) (ry box) (rw box)
                                    (rh box))).
      split; [reflexivity|]. left. eauto.
Qed.

Lemma flat_map_ends_with_draw {A : Type} (g : A -> list DrawOp) (l : list A) :
  l <> [] -> (forall a, ends_with_draw (g a)) ->
  ends_with_draw (flat_map g l).
Proof.
  intros Hne Hg. induction l as [|a l IH]; [contradiction|].
  cbn [flat_map]. destruct l as [|b l].
  - cbn. rewrite app_nil_r. apply Hg.
  - apply ends_with_draw_app. apply IH. discriminate.
Qed.

(** A gallery page of at least one image, all accepted by the writer,
    ends with a drawing. *)
Lemma gallery_segment_ends_with_draw (cfg : Config) (d : Doc)
    (chunk : list ImageRecord) :
  (forall src, image_ok src = true) -> chunk <> [] ->
  ends_with_draw (emitted (fun d => createGalleryPage cfg d chunk) d).
Proof.
  intros Hok Hne.
  rewrite (emitted_app (fun d => createGalleryPage cfg d chunk) d _
             (createGalleryPage_ops cfg d chunk)).
  apply flat_map_ends_with_draw.
  - intro E. apply Hne. rewrite <- (galleryCalls_fst cfg d chunk), E.
    reflexivity.
  - intro call. apply imageOps_ends_with_draw. exact Hok.
Qed.

Lemma intercalate_ends_with_draw (sep : list DrawOp)
    (segs : list (list DrawOp)) :
  segs <> [] -> Forall ends_with_draw segs ->
  ends_with_draw (intercalate sep segs).
Proof.
  intros Hne Hall. induction Hall as [|seg segs Hseg Hrest IH];
    [contradiction|].
  destruct segs as [|seg' segs]; [exact Hseg|].
  cbn [intercalate]. apply ends_with_draw_app, ends_with_draw_app.
  apply IH. discriminate.
Qed.

(** X14: where a project leaves the writer.  When its [layout] has
    [pages], with at least one instruction, the last call is a page
    break, so the next project starts on a fresh page; so it is without
    [layout], or without [pages] in it, and without images.  Without
    explicit layout and with at least one image, all accepted by the
    writer, the last call is the drawing of the last gallery page: no
    page break follows, and the calls of the next project come right
    after that drawing. *)
Theorem default_layout_leaves_last_gallery_page_open :
  forall (cfg : Config) (doc : Doc) (project next : Project),
    let ops := emitted (fun d => createProjectPages cfg d project) doc in
    (forall pages,
        has_layout project pages -> pages <> [] ->
        ends_with_break ops) /\
    (has_layout project [] -> ops = []) /\
    (no_layout project -> processedImages project = [] ->
     ends_with_break ops) /\
    (no_layout project -> processedImages project <> [] ->
     (forall src, image_ok src = true) ->
     ends_with_draw ops) /\
    emitted (fun d => createAllProjectPages cfg d [project; next]) doc =
      ops ++ emitted (fun d => createProjectPages cfg d next)
                     (createProjectPages cfg doc project).
Proof.
  intros cfg doc project next. cbv zeta.
  assert (Hdoc : same_page doc doc) by (split; reflexivity).
  destruct (createProjectPages_breaks cfg doc project) as (ops & Hops & _).
  destruct (createProjectPages_breaks cfg (createProjectPages cfg doc project)
              next) as (ops' & Hops' & _).
  rewrite (emitted_app (fun d => createProjectPages cfg d project) doc ops Hops).
  rewrite (emitted_app (fun d => createProjectPages cfg d next) _ ops' Hops').
  split; [|split; [|split; [|split]]].
  - intros pages Hpages Hne. apply explicitPages_has_layout in Hpages.
    unfold createProjectPages in Hops. rewrite Hpages in Hops.
    destruct (explicit_pages_ops cfg project doc pages doc Hdoc)
      as (segs & Hsegs & Hlog).
    rewrite Hlog in Hops. apply app_inv_head in Hops. subst ops.
    destruct (exists_last Hne) as (pages' & page & ->).
    apply Forall2_app_inv_l in Hsegs.
    destruct Hsegs as (segs' & segs'' & _ & Hlast & ->).
    inversion Hlast as [|? seg ? ? _ Hnil]; subst. inversion Hnil; subst.
    rewrite flat_map_app. cbn [flat_map]. rewrite app_nil_r.
    exists (flat_map (fun seg0 => seg0 ++ [OpAddPage]) segs' ++ seg).
    rewrite <- app_assoc. reflexivity.
  - intro Hpages. apply explicitPages_has_layout in Hpages.
    unfold createProjectPages in Hops. rewrite Hpages in Hops.
    cbn [fold_left] in Hops.
    rewrite <- (app_nil_r (doc_ops doc)) in Hops at 1.
    apply app_inv_head in Hops. symmetry. exact Hops.
  - intros Hnone Himages. apply explicitPages_no_layout in Hnone.
    unfold createProjectPages in Hops. rewrite Hnone in Hops.
    unfold createDefaultProjectLayout in Hops. rewrite Himages in Hops.
    cbn [List.length galleryLoop] in Hops.
    pose proof (renders_createInfoPage cfg doc project)
      as (_ & _ & _ & _ & info & Hinfo & _).
    cbn [addPage set_y emit doc_ops] in Hops. rewrite Hinfo in Hops.
    rewrite <- app_assoc in Hops. apply app_inv_head in Hops. subst ops.
    exists info. reflexivity.
  - intros Hnone Himages Hok. apply explicitPages_no_layout in Hnone.
    unfold createProjectPages in Hops. rewrite Hnone in Hops.
    unfold createDefaultProjectLayout in Hops. cbv zeta in Hops.
    rewrite (galleryLoop_chunks cfg _ [] (processedImages project) _
               (Nat.le_refl _)) in Hops.
    pose proof (renders_createInfoPage cfg doc project) as Hr.
    destruct (galleryPages_ops cfg doc (chunks2 (processedImages project))
                (addPage (createInfoPage cfg doc project)))
      as (segs & Hsegs & Hlog).
    { apply same_page_addPage. exact (renders_same_page _ _ Hr). }
    destruct Hr as (_ & _ & _ & _ & info & Hinfo & _).
    rewrite Hlog in Hops. cbn [addPage set_y emit doc_ops] in Hops.
    rewrite Hinfo, <- !app_assoc in Hops. apply app_inv_head in Hops.
    subst ops. apply ends_with_draw_app, ends_with_draw_app.
    apply intercalate_ends_with_draw.
    + intro E. subst segs. inversion Hsegs as [E'|]; subst.
      destruct (processedImages project) as [|a [|b l]];
        [contradiction|discriminate|discriminate].
    + pose proof (chunks2_sizes (processedImages project)) as Hsizes.
      clear Hlog. induction Hsegs as [|chunk seg chunks segs Hseg _ IH];
        [constructor|].
      inversion Hsizes as [|? ? Hsize Hsizes']; subst.
      constructor; [|exact (IH Hsizes')].
      destruct Hseg as (_ & d & _ & ->).
      apply gallery_segment_ends_with_draw; [exact Hok|].
      intro E. subst chunk. cbn in Hsize. lia.
  - apply emitted_app. unfold createAllProjectPages. cbn [fold_left].
    rewrite Hops', Hops, app_assoc. reflexivity.
Qed.

(** ** Instructions that draw nothing *)

Lemma filterBoolean_none {A B : Type} (f : A -> option B) (l : list A) :
  (forall a, In a l -> f a = None) -> filterBoolean (map f l) = [].
Proof.
  intro H. induction l as [|a l IH]; [reflexivity|].
  cbn. rewrite (H a (or_introl eq_refl)). cbn.
  apply IH. intros b Hb. apply H. right. exact Hb.
Qed.

(** X18: an instruction of an explicit layout that resolves to nothing
    still takes a page.  An instruction whose type is none of [info],
    [gallery] and [full], and a [gallery] instruction none of whose
    tokens both passes the filter and names a record, draw nothing; the
    layout then issues the page break alone. *)
Theorem unresolved_instruction_leaves_blank_page :
  forall (cfg : Config) (doc : Doc) (project : Project) (page : LayoutPage),
    (page_type page <> "info"%string /\ page_type page <> "gallery"%string /\
     page_type page <> "full"%string) \/
    (page_type page = "gallery"%string /\
     forall token, In token (page_content page) ->
                   galleryFilter token = true ->
                   findImage token (processedImages project) = None) ->
    createProjectPage cfg doc project page = doc /\
    forall layout,
      proj_layout project = Some layout ->
      layout_pages layout = Some [page] ->
      emitted (fun d => createProjectPages cfg d project) doc = [OpAddPage].
Proof.
  intros cfg doc project page Hcase.
  assert (Hsame : forall d, createProjectPage cfg d project page = d).
  { intro d. unfold createProjectPage.
    destruct Hcase as [(H1 & H2 & H3)|[Hg Htokens]].
    - apply String.eqb_neq in H1, H2, H3. rewrite H1, H2, H3. reflexivity.
    - rewrite Hg.
      change (String.eqb "gallery" "info") with false.
      change (String.eqb "gallery" "gallery") with true. cbv iota.
      rewrite filterBoolean_none; [reflexivity|].
      intros token Hin. apply filter_In in Hin. destruct Hin as [Hin Hf].
      exact (Htokens token Hin Hf). }
  split; [apply Hsame|].
  intros layout Hlayout Hpages. apply emitted_app.
  unfold createProjectPages, explicitPages. rewrite Hlayout, Hpages.
  cbn [fold_left]. rewrite Hsame. reflexivity.
Qed.

(** ** Texts go down the page *)

(** One text drawn by a writer with the layout of [doc]: the call that
    is logged, and the cursor when the text stays on the page. *)
Lemma doc_text_step (doc d : Doc) (fontName : string) (size : Q)
    (text : string) (x y : Q) (width : option Q) (align : option string) :
  same_layout doc d ->
  let op := OpText fontName size text x y width align in
  let d' := doc_text (font fontName (fontSize size d)) text x y width align in
  same_layout doc d' /\
  doc_ops d' = doc_ops d ++ [op] /\
  (text_on_page doc op -> doc_y d' = text_bottom doc op).
Proof.
  intros (Hw & Hh & Hb & Hr). cbv zeta.
  split; [repeat split; assumption|].
  split; [reflexivity|].
  cbn [text_on_page text_bottom]. intros [H0 Hfit].
  rewrite <- Hw, <- Hr. rewrite <- Hw, <- Hr in H0, Hfit.
  rewrite <- Hh, <- Hb in Hfit.
  apply (doc_text_on_page (font fontName (fontSize size d))
                          text x y width align).
  - cbn [doc_font doc_fontSize doc_width doc_marginRight font fontSize].
    lra.
  - exact Hfit.
Qed.

(** A text is on the page or it is not. *)
Lemma text_on_page_dec (doc : Doc) (op : DrawOp) :
  text_on_page doc op \/ ~ text_on_page doc op.
Proof.
  destruct op; cbn [text_on_page]; try (left; exact I).
  destruct (Qlt_le_dec 0 (text_bottom doc (OpText font0 size text x y width
                                                  align) - y)) as [H0|H0];
    [|right; intros [H _]; lra].
  destruct (Qlt_le_dec (text_bottom doc (OpText font0 size text x y width
                                                align))
                       (doc_height doc - doc_marginBottom doc)) as [H1|H1];
    [left; split; assumption|right; intros [_ H]; lra].
Qed.

Lemma draw_below_flow (doc : Doc) (gap x : Q) :
  forall (calls : list (string * Q * string * option Q * option string * Q))
         (d : Doc) (floor : Q),
    Forall (fun call => gap <= snd call) calls ->
    same_layout doc d ->
    floor <= doc_y d + gap ->
    exists texts,
      doc_ops (draw_below x calls d) = doc_ops d ++ texts /\
      (Forall (text_on_page doc) texts -> flows_down doc gap floor texts).
Proof.
  induction calls as [|[[[[[f s] t] w] a] inc] calls IH];
    intros d floor Hgaps Hd Hfloor.
  - exists []. cbn. rewrite app_nil_r. split; [reflexivity|intros _; exact I].
  - inversion Hgaps as [|? ? Hinc Hrest]; subst. cbn [snd] in Hinc.
    cbn [draw_below]. cbv zeta.
    change (doc_y (font f (fontSize s d))) with (doc_y d).
    destruct (doc_text_step doc d f s t x (doc_y d + inc) w a Hd)
      as (Hd' & Hops & Hy).
    set (d' := doc_text (font f (fontSize s d)) t x (doc_y d + inc) w a) in *.
    set (op := OpText f s t x (doc_y d + inc) w a) in *.
    destruct (text_on_page_dec doc op) as [Hon|Hoff].
    + destruct (IH d' (text_bottom doc op + gap) Hrest Hd')
        as (texts & Hops' & Hflow); [rewrite (Hy Hon); lra|].
      exists (op :: texts). split.
      * rewrite Hops', Hops, <- app_assoc. reflexivity.
      * intro Hall. inversion Hall; subst.
        unfold op at 1. cbn [flows_down]. fold op.
        split; [lra|]. apply Hflow. assumption.
    + destruct (IH d' (doc_y d' + gap) Hrest Hd')
        as (texts & Hops' & _); [lra|].
      exists (op :: texts). split.
      * rewrite Hops', Hops, <- app_assoc. reflexivity.
      * intro Hall. inversion Hall; subst. contradiction.
Qed.

Lemma text_steps_flow (doc : Doc) (gap x : Q)
    (step : Doc * Q -> string -> Doc * Q) (content : list string) :
  Forall (text_step gap x step) content ->
  forall d y floor,
    same_layout doc d ->
    floor <= y ->
    exists texts,
      doc_ops (fst (fold_left step content (d, y))) = doc_ops d ++ texts /\
      (Forall (text_on_page doc) texts -> flows_down doc gap floor texts).
Proof.
  induction 1 as [|item content Hitem _ IH]; intros d y floor Hd Hfloor.
  - exists []. cbn. rewrite app_nil_r. split; [reflexivity|intros _; exact I].
  - cbn [fold_left].
    destruct (Hitem d y) as [-> |(f & s & t & w & inc & Hinc & ->)].
    + exact (IH d y floor Hd Hfloor).
    + destruct (doc_text_step doc d f s t x y w None Hd) as (Hd' & Hops & Hy).
      set (d' := doc_text (font f (fontSize s d)) t x y w None) in *.
      set (op := OpText f s t x y w None) in *.
      destruct (text_on_page_dec doc op) as [Hon|Hoff].
      * destruct (IH d' (doc_y d' + inc) (text_bottom doc op + gap) Hd')
          as (texts & Hops' & Hflow); [rewrite (Hy Hon); lra|].
        exists (op :: texts). split.
        -- rewrite Hops', Hops, <- app_assoc. reflexivity.
        -- intro Hall. inversion Hall; subst.
           unfold op at 1. cbn [flows_down]. fold op.
           split; [exact Hfloor|]. apply Hflow. assumption.
      * destruct (IH d' (doc_y d' + inc) (doc_y d' + inc) Hd')
          as (texts & Hops' & _); [lra|].
        exists (op :: texts). split.
        -- rewrite Hops', Hops, <- app_assoc. reflexivity.
        -- intro Hall. inversion Hall; subst. contradiction.
Qed.

(** The info page of the default layout draws its title and then the
    other texts one under the other. *)
Lemma createInfoPage_draw_below (cfg : Config) (doc : Doc)
    (project : Project) :
  exists mediumYearText creditsText,
    createInfoPage cfg doc project =
    draw_below (margin_of cfg)
      ([("Helvetica"%string, 14, mediumYearText, None, None, 20)]
       ++ (if truthy_ostr (proj_collective project)
              || truthy_ostr (proj_curator project)
              || truthy_ostr (proj_publisher project)
           then [("Helvetica-Oblique"%string, 12, creditsText, None, None, 15)]
           else [])
       ++ (if truthy_str (proj_description project)
           then [("Helvetica"%string, 12, proj_description project,
                  Some (doc_width doc - margin_of cfg * 2),
                  Some "left"%string, 30)]
           else [])
       ++ (if truthy_ostr (proj_link project)
           then [("Helvetica-Oblique"%string, 10, ostr (proj_link project),
                  Some (doc_width doc - margin_of cfg * 2),
                  Some "left"%string, 20)]
           else []))
      (doc_text (font "Helvetica-Bold" (fontSize 24 doc))
                (proj_title project) (margin_of cfg) (margin_of cfg + 20)
                None None).
Proof.
  exists (if truthy_ostr (proj_duration project)
          then ((proj_medium project ++ bullet ++ proj_year project)
                ++ bullet ++ ostr (proj_duration project))%string
          else (proj_medium project ++ bullet ++ proj_year project)%string).
  exists (let creditsText := ""%string in
          let creditsText :=
            if truthy_ostr (proj_collective project)
            then (creditsText ++ "Collective: "
                  ++ ostr (proj_collective project))%string
            else creditsText in
          let creditsText :=
            if truthy_ostr (proj_curator project)
            then (creditsText ++ "Curator: "
                  ++ ostr (proj_curator project))%string
            else creditsText in
          if truthy_ostr (proj_publisher project)
          then (creditsText ++ "Published by: "
                ++ ostr (proj_publisher project))%string
          else creditsText).
  cbv delta [createInfoPage]. cbv beta zeta.
  generalize (truthy_ostr (proj_collective project)
              || truthy_ostr (proj_curator project)
              || truthy_ostr (proj_publisher project)).
  intros [|];
    destruct (truthy_str (proj_description project));
    destruct (truthy_ostr (proj_link project));
    cbn [draw_below app]; cbv zeta; reflexivity.
Qed.

Lemma singleColumnItem_text_step (cfg : Config) (project : Project)
    (item : string) :
  isImageToken item = false ->
  text_step 10 (margin_of cfg) (singleColumnItem cfg project) item.
Proof.
  intros Himg d y. unfold singleColumnItem. rewrite Himg.
  assert (Hstep : forall fontName size text width increment,
            10 <= increment ->
            (doc_text (font fontName (fontSize size d)) text (margin_of cfg) y
                      width None,
             doc_y (doc_text (font fontName (fontSize size d)) text
                             (margin_of cfg) y width None) + increment)
            = (d, y) \/
            exists fontName' size' text' width' increment',
              10 <= increment' /\
              (doc_text (font fontName (fontSize size d)) text (margin_of cfg)
                        y width None,
               doc_y (doc_text (font fontName (fontSize size d)) text
                               (margin_of cfg) y width None) + increment)
              = (doc_text (font fontName' (fontSize size' d)) text'
                          (margin_of cfg) y width' None,
                 doc_y (doc_text (font fontName' (fontSize size' d)) text'
                                 (margin_of cfg) y width' None)
                 + increment')).
  { intros fontName size text width increment Hinc. right.
    exists fontName, size, text, width, increment.
    split; [exact Hinc|reflexivity]. }
  destruct (String.eqb item "title"); [apply Hstep; lra|].
  destruct (String.eqb item "medium"); [apply Hstep; lra|].
  destruct (String.eqb item "year"); [apply Hstep; lra|].
  destruct (String.eqb item "credits").
  { destruct (truthy_ostr (proj_collective project)
              || truthy_ostr (proj_curator project)
              || truthy_ostr (proj_publisher project));
      [apply Hstep; lra|left; reflexivity]. }
  destruct (String.eqb item "description"); [apply Hstep; lra|].
  destruct (String.eqb item "link"); [|left; reflexivity].
  destruct (truthy_ostr (proj_link project));
    [apply Hstep; lra|left; reflexivity].
Qed.

Lemma twoColumnItem_text_step (cfg : Config) (project : Project) (width : Q)
    (item : string) :
  text_step 10 (margin_of cfg) (twoColumnItem cfg project width) item.
Proof.
  intros d y. unfold twoColumnItem.
  assert (Hstep : forall fontName size text increment,
            10 <= increment ->
            (doc_text (font fontName (fontSize size d)) text (margin_of cfg) y
                      (Some width) None,
             doc_y (doc_text (font fontName (fontSize size d)) text
                             (margin_of cfg) y (Some width) None) + increment)
            = (d, y) \/
            exists fontName' size' text' width' increment',
              10 <= increment' /\
              (doc_text (font fontName (fontSize size d)) text (margin_of cfg)
                        y (Some width) None,
               doc_y (doc_text (font fontName (fontSize size d)) text
                               (margin_of cfg) y (Some width) None)
               + increment)
              = (doc_text (font fontName' (fontSize size' d)) text'
                          (margin_of cfg) y width' None,
                 doc_y (doc_text (font fontName' (fontSize size' d)) text'
                                 (margin_of cfg) y width' None)
                 + increment')).
  { intros fontName size text increment Hinc. right.
    exists fontName, size, text, (Some width), increment.
    split; [exact Hinc|reflexivity]. }
  destruct (isImageToken item); [left; reflexivity|].
  destruct (String.eqb item "title"); [apply Hstep; lra|].
  destruct (String.eqb item "medium"); [apply Hstep; lra|].
  destruct (String.eqb item "year"); [apply Hstep; lra|].
  destruct (String.eqb item "description"); [apply Hstep; lra|].
  destruct (String.eqb item "link"); [|left; reflexivity].
  destruct (truthy_ostr (proj_link project));
    [apply Hstep; lra|left; reflexivity].
Qed.

(** X19: the texts of an info page go down the page as long as they
    stay on it.  On the info page of the default layout, when every
    text stays on the page, the first text starts at [margin + 20] and
    each later text starts 15 points or more under the end of the text
    before it.  On a single-column page of an explicit layout without
    image token, and on a two-column page, whose texts are all its calls
    before the image, when every text stays on the page the first text
    starts at [margin + 20], or at the centred start, or below, and each
    later text starts 10 points or more under the end of the text before
    it. *)
Theorem info_page_texts_flow_down :
  forall (cfg : Config) (doc : Doc) (project : Project) (page : LayoutPage),
    let info := emitted (fun d => createInfoPage cfg d project) doc in
    let single :=
      emitted (fun d => createSingleColumnInfoPage cfg d project page) doc in
    let columns :=
      emitted (fun d => fst (twoColumnRenderText cfg d project page)) doc in
    (Forall (text_on_page doc) info ->
     flows_down doc 15 (margin_of cfg + 20) info) /\
    (Forall (fun item => isImageToken item = false) (page_content page) ->
     Forall (text_on_page doc) single ->
     flows_down doc 10 (margin_of cfg + 20) single) /\
    (Forall (text_on_page doc) columns ->
     flows_down doc 10 (twoColumnStartY cfg doc project page) columns).
Proof.
  intros cfg doc project page. cbv zeta.
  assert (Hdoc : same_layout doc doc) by (repeat split).
  split; [|split].
  - destruct (createInfoPage_draw_below cfg doc project)
      as (mediumYearText & creditsText & Hinfo).
    destruct (doc_text_step doc doc "Helvetica-Bold" 24 (proj_title project)
                (margin_of cfg) (margin_of cfg + 20) None None Hdoc)
      as (Hd1 & Hops1 & Hy1).
    set (d1 := doc_text (font "Helvetica-Bold" (fontSize 24 doc))
                 (proj_title project) (margin_of cfg) (margin_of cfg + 20)
                 None None) in *.
    set (op1 := OpText "Helvetica-Bold" 24 (proj_title project)
                  (margin_of cfg) (margin_of cfg + 20) None None) in *.
    set (calls :=
           [("Helvetica"%string, 14, mediumYearText, None, None, 20)]
           ++ (if truthy_ostr (proj_collective project)
                  || truthy_ostr (proj_curator project)
                  || truthy_ostr (proj_publisher project)
               then [("Helvetica-Oblique"%string, 12, creditsText, None, None,
                      15)]
               else [])
           ++ (if truthy_str (proj_description project)
               then [("Helvetica"%string, 12, proj_description project,
                      Some (doc_width doc - margin_of cfg * 2),
                      Some "left"%string, 30)]
               else [])
           ++ (if truthy_ostr (proj_link project)
               then [("Helvetica-Oblique"%string, 10, ostr (proj_link project),
                      Some (doc_width doc - margin_of cfg * 2),
                      Some "left"%string, 20)]
               else [])) in *.
    assert (Hgaps : Forall (fun call => 15 <= snd call) calls).
    { unfold calls.
      destruct (truthy_ostr (proj_collective project)
                || truthy_ostr (proj_curator project)
                || truthy_ostr (proj_publisher project));
        destruct (truthy_str (proj_description project));
        destruct (truthy_ostr (proj_link project));
        repeat constructor; cbn [snd]; lra. }
    destruct (text_on_page_dec doc op1) as [Hon|Hoff].
    + destruct (draw_below_flow doc 15 (margin_of cfg) calls d1
                  (text_bottom doc op1 + 15) Hgaps Hd1)
        as (texts & Hops & Hflow); [rewrite (Hy1 Hon); lra|].
      rewrite (emitted_app (fun d => createInfoPage cfg d project) doc
                 (op1 :: texts)).
      * intro Hall. inversion Hall; subst.
        unfold op1 at 1. cbn [flows_down]. fold op1.
        split; [lra|]. apply Hflow. assumption.
      * cbv beta. rewrite Hinfo, Hops, Hops1, <- app_assoc. reflexivity.
    + destruct (draw_below_flow doc 15 (margin_of cfg) calls d1
                  (doc_y d1 + 15) Hgaps Hd1)
        as (texts & Hops & _); [lra|].
      rewrite (emitted_app (fun d => createInfoPage cfg d project) doc
                 (op1 :: texts)).
      * intro Hall. inversion Hall; subst. contradiction.
      * cbv beta. rewrite Hinfo, Hops, Hops1, <- app_assoc. reflexivity.
  - intro Hno.
    assert (Hsteps : Forall (text_step 10 (margin_of cfg)
                               (singleColumnItem cfg project))
                            (page_content page)).
    { rewrite Forall_forall in *. intros item Hin.
      apply singleColumnItem_text_step. exact (Hno item Hin). }
    destruct (text_steps_flow doc 10 (margin_of cfg)
                (singleColumnItem cfg project) (page_content page) Hsteps
                doc (margin_of cfg + 20) (margin_of cfg + 20)
                Hdoc ltac:(lra)) as (texts & Hops & Hflow).
    rewrite (emitted_app
               (fun d => createSingleColumnInfoPage cfg d project page)
               doc texts Hops).
    exact Hflow.
  - assert (Hsteps : Forall (text_step 10 (margin_of cfg)
                               (twoColumnItem cfg project
                                  (textColumnWidth cfg doc)))
                            (page_content page)).
    { rewrite Forall_forall. intros item _.
      apply twoColumnItem_text_step. }
    destruct (text_steps_flow doc 10 (margin_of cfg)
                (twoColumnItem cfg project (textColumnWidth cfg doc))
                (page_content page) Hsteps
                (font (font_body (fonts_of cfg)) (fontSize 12 doc))
                (twoColumnStartY cfg doc project page)
                (twoColumnStartY cfg doc project page)
                ltac:(repeat split) ltac:(lra)) as (texts & Hops & Hflow).
    rewrite (emitted_app
               (fun d => fst (twoColumnRenderText cfg d project page))
               doc texts Hops).
    exact Hflow.
Qed.

End Generator.

(** ** The statements at sample inputs *)

Local Open Scope list_scope.
Local Open Scope Q_scope.

(** C1 at an 800 by 600 image in a box of 100 by 100 points. *)
Lemma placement_landscape_photo_in_square_box :
  rect_within (placement (photo "a.jpg" 800 600 false) 10 20 100 100)
              (mkRect 10 20 100 100) /\
  rw (placement (photo "a.jpg" 800 600 false) 10 20 100 100) == 100 /\
  rh (placement (photo "a.jpg" 800 600 false) 10 20 100 100) == 75.
Proof.
  pose proof (placement_fits_touches_keeps_ratio_centered
                (photo "a.jpg" 800 600 false) 10 20 100 100
                eq_refl eq_refl eq_refl eq_refl) as H.
  cbv zeta in H. destruct H as (_ & Hwithin & _).
  split; [exact Hwithin|]. split; reflexivity.
Defined.

(** C2 at five images on the square page: three columns, two rows, the
    cell of column 2 and row 1 empty, and the five images drawn in
    their cells. *)
Lemma five_photos_grid :
  gridCols 5 = 3%Z /\ gridRows 5 = 2%Z /\
  ~ (exists i, (0 <= i < 5)%Z /\ gridCol 5 i = 2%Z /\ gridRow 5 i = 1%Z) /\
  drawnRects
    (emitted (fun d => createGalleryPage resize_ok draw_ok sample_config d
                         five_photos) square_doc)
  = map (fun call =>
           placement (fst call) (rx (snd call)) (ry (snd call))
                     (rw (snd call)) (rh (snd call)))
        (galleryCalls sample_config square_doc five_photos).
Proof.
  assert (Hn : (3 <= Z.of_nat (List.length five_photos))%Z)
    by (intro H; discriminate H).
  pose proof (gallery_grid_layout resize_ok draw_ok sample_config square_doc
                five_photos Hn) as H.
  destruct H as (_ & _ & _ & [_ Hdrawn] & _ & _ & _ & H5).
  destruct (H5 eq_refl) as (Hcols & Hrows & Hempty).
  split; [exact Hcols|]. split; [exact Hrows|]. split; [exact Hempty|].
  exact (Hdrawn (fun src => eq_refl)).
Defined.

(** C3 at two landscape images on the landscape page. *)
Lemma two_landscape_photos_are_stacked :
  let margin := margin_of sample_config in
  let availableWidth := doc_width landscape_doc - margin * 2 in
  let imageHeight := (doc_height landscape_doc - margin * 2 - 20) / 2 in
  let p1 := placement (photo "a.jpg" 800 600 false) margin margin
                      availableWidth imageHeight in
  let p2 := placement (photo "d.jpg" 1600 900 false) margin
                      (margin + imageHeight + 20) availableWidth imageHeight in
  ry p1 + rh p1 + 20 <= ry p2 /\ rx p1 + rw p1 / 2 == rx p2 + rw p2 / 2.
Proof.
  pose proof (two_images_stacked_vertically resize_ok draw_ok sample_config
                landscape_doc (photo "a.jpg" 800 600 false)
                (photo "d.jpg" 1600 900 false)) as H.
  cbv zeta in H. destruct H as (_ & _ & _ & _ & _ & _ & _ & _ & _ & H).
  cbv zeta. exact (H eq_refl eq_refl eq_refl eq_refl eq_refl eq_refl).
Defined.

(** C5 at three drawn references.  With [imageBorder.enabled] false, the
    reference whose [border] is [true] gets a border and the bare
    reference gets none; with [imageBorder.enabled] true, a reference
    whose [border] is [false] gets a border all the same. *)
Lemma overridden_photo_gets_border :
  (exists lineWidth color,
      In (OpBorder lineWidth color
            (placement (photo "a.jpg" 800 600 true) 30 30 500 400))
         (emitted
            (fun d => addImageToPage resize_ok draw_ok sample_config d
                        (photo "a.jpg" 800 600 true) 30 30 500 400)
            landscape_doc)) /\
  ~ (exists lineWidth color,
        In (OpBorder lineWidth color
              (placement (photo "b.jpg" 600 800 false) 30 30 500 400))
           (emitted
              (fun d => addImageToPage resize_ok draw_ok sample_config d
                          (photo "b.jpg" 600 800 false) 30 30 500 400)
              landscape_doc)) /\
  (exists lineWidth color,
      In (OpBorder lineWidth color
            (placement (photo "c.jpg" 800 800 false) 30 30 500 400))
         (emitted
            (fun d => addImageToPage resize_ok draw_ok bordered_config d
                        (photo "c.jpg" 800 800 false) 30 30 500 400)
            landscape_doc)).
Proof.
  assert (Hoff : ~ policy_enabled sample_config).
  { intros (borderConfig & Hconfig & Henabled).
    injection Hconfig as <-. discriminate Henabled. }
  assert (Hon : policy_enabled bordered_config).
  { eexists. split; reflexivity. }
  split; [|split].
  - pose proof (border_iff_override_or_global resize_ok draw_ok sample_config
                  landscape_doc (photo "a.jpg" 800 600 true)
                  30 30 500 400) as H.
    cbv zeta in H. destruct H as (_ & _ & _ & H).
    destruct (H (ItemObject (Some "a.jpg"%string) None (Some true)) eq_refl)
      as [H' _]; [eexists; left; reflexivity|].
    apply (H' Hoff). exists (Some "a.jpg"%string), None. reflexivity.
  - pose proof (border_iff_override_or_global resize_ok draw_ok sample_config
                  landscape_doc (photo "b.jpg" 600 800 false)
                  30 30 500 400) as H.
    cbv zeta in H. destruct H as (_ & _ & _ & H).
    destruct (H (ItemString "b.jpg") eq_refl) as [H' _];
      [eexists; left; reflexivity|].
    intro Hbordered. apply (H' Hoff) in Hbordered.
    destruct Hbordered as (name & file & Hitem). discriminate Hitem.
  - pose proof (border_iff_override_or_global resize_ok draw_ok
                  bordered_config landscape_doc (photo "c.jpg" 800 800 false)
                  30 30 500 400) as H.
    cbv zeta in H. destruct H as (_ & _ & _ & H).
    destruct (H (ItemObject (Some "c.jpg"%string) None (Some false)) eq_refl)
      as [_ H']; [eexists; left; reflexivity|].
    exact (H' Hon).
Defined.

(** C6 at an array that mixes the two forms, repeats a file and holds
    an object whose [name] is empty: the records that are stored carry
    the names and the overrides of the references, in their order. *)
Lemma mixed_references_are_normalized :
  exists loaded,
    processProjectImages slash_join demo_probe
      (demo_project
         (Some [ItemObject (Some "a.jpg"%string) None (Some true);
                ItemString "b.png";
                ItemObject None (Some "c.jpg"%string) None;
                ItemString "a.jpg";
                ItemObject (Some ""%string) (Some "d.jpg"%string)
                           (Some false)])
         None []) = Some loaded /\
    map img_name (processedImages loaded)
    = ["a.jpg"; "b.png"; "c.jpg"; "a.jpg"; "d.jpg"]%string /\
    map img_border (processedImages loaded)
    = [true; false; false; false; false].
Proof.
  destruct (processProjectImages_normalizes_in_order slash_join demo_probe
              (demo_project
                 (Some [ItemObject (Some "a.jpg"%string) None (Some true);
                        ItemString "b.png";
                        ItemObject None (Some "c.jpg"%string) None;
                        ItemString "a.jpg";
                        ItemObject (Some ""%string) (Some "d.jpg"%string)
                                   (Some false)])
                 None [])
              [ItemObject (Some "a.jpg"%string) None (Some true);
               ItemString "b.png";
               ItemObject None (Some "c.jpg"%string) None;
               ItemString "a.jpg";
               ItemObject (Some ""%string) (Some "d.jpg"%string) (Some false)]
              eq_refl)
    as (loaded & Hrun & _ & _ & _ & Hnames & Hborders).
  - repeat constructor;
      eexists; exists (mkMetadata 800 600 "jpeg");
      (split; reflexivity).
  - exists loaded. split; [exact Hrun|]. split; [|exact Hborders].
    cbn in Hnames. clear Hrun Hborders.
    destruct (processedImages loaded)
      as [|r1 [|r2 [|r3 [|r4 [|r5 [|r6 rest]]]]]];
      try discriminate Hnames.
    injection Hnames as H1 H2 H3 H4 H5. cbn. congruence.
Defined.

(** C7 at a project whose file [missing.jpg] was not found. *)
Lemma full_page_of_missing_file_draws_nothing :
  createProjectPage one_line_measure restart_at_top no_trim resize_ok draw_ok
    sample_config landscape_doc
    (demo_project (Some [ItemString "a.jpg"; ItemString "missing.jpg"]) None
                  [photo "a.jpg" 800 600 false])
    (mkLayoutPage "full" ["missing.jpg"%string]) = landscape_doc.
Proof.
  apply (full_page_unresolved_emits_nothing one_line_measure restart_at_top
           no_trim
           slash_join demo_probe resize_ok draw_ok sample_config landscape_doc
           (demo_project (Some [ItemString "a.jpg"; ItemString "missing.jpg"])
                         None [photo "a.jpg" 800 600 false])
           (mkLayoutPage "full" ["missing.jpg"%string]) eq_refl).
  intros token rest Hcontent r [<-|[]]. injection Hcontent as <- _.
  discriminate.
Defined.

(** C8 at a project whose layout has two instructions, each followed by
    a page break, and at a project without layout and with three
    images, whose two gallery pages have a page break between them and
    none after the second. *)
Lemma default_layout_of_three_photos :
  (exists first second,
      doc_ops
        (createProjectPages one_line_measure restart_at_top no_trim resize_ok
           draw_ok sample_config landscape_doc
           (demo_project None
              (Some (mkLayout (Some [mkLayoutPage "info" ["title"%string];
                                     mkLayoutPage "full" ["a.jpg"%string]])))
              [photo "a.jpg" 800 600 false]))
      = first ++ [OpAddPage] ++ second ++ [OpAddPage] /\
      ~ In OpAddPage first /\ ~ In OpAddPage second) /\
  createProjectPages one_line_measure restart_at_top no_trim resize_ok draw_ok
    sample_config landscape_doc
    (demo_project None None
       [photo "a.jpg" 800 600 false; photo "b.jpg" 600 800 false;
        photo "c.jpg" 800 800 false]) =
  galleryPages resize_ok draw_ok sample_config
    [[photo "a.jpg" 800 600 false; photo "b.jpg" 600 800 false];
     [photo "c.jpg" 800 800 false]]
    (addPage (createInfoPage one_line_measure restart_at_top sample_config
                landscape_doc
                (demo_project None None
                   [photo "a.jpg" 800 600 false; photo "b.jpg" 600 800 false;
                    photo "c.jpg" 800 800 false]))).
Proof.
  split.
  - destruct (page_breaks_per_layout one_line_measure restart_at_top no_trim
                resize_ok draw_ok sample_config landscape_doc
                (demo_project None
                   (Some (mkLayout
                            (Some [mkLayoutPage "info" ["title"%string];
                                   mkLayoutPage "full" ["a.jpg"%string]])))
                   [photo "a.jpg" 800 600 false])) as [H _].
    destruct (H [mkLayoutPage "info" ["title"%string];
                 mkLayoutPage "full" ["a.jpg"%string]])
      as (segs & Hsegs & Hops).
    { eexists. split; reflexivity. }
    inversion Hsegs as [|? first ? rest [Hfirst _] Hrest]; subst.
    inversion Hrest as [|? second ? rest' [Hsecond _] Hnil]; subst.
    inversion Hnil; subst.
    exists first, second. split; [|split; assumption].
    rewrite Hops. cbn [landscape_doc doc_ops flat_map app].
    rewrite app_nil_r, <- !app_assoc. reflexivity.
  - destruct (page_breaks_per_layout one_line_measure restart_at_top no_trim
                resize_ok draw_ok sample_config landscape_doc
                (demo_project None None
                   [photo "a.jpg" 800 600 false; photo "b.jpg" 600 800 false;
                    photo "c.jpg" 800 800 false])) as [_ H].
    destruct (H (or_introl eq_refl)) as (_ & Hloop & _). exact Hloop.
Defined.

(** C9 at a configuration without [margin] and [dpi]. *)
Lemma absent_margin_and_dpi_default :
  margin_of sample_config = 30 /\ dpi_of sample_config = 300.
Proof.
  destruct (numeric_fields_default_when_absent_or_zero sample_config)
    as (Hmargin & Hdpi & _).
  split.
  - apply Hmargin. left. reflexivity.
  - apply Hdpi. left. reflexivity.
Defined.

(** C9 fails for negative values: a [margin] of -10 and a [dpi] of -72
    are non-positive, and both are used in place of the defaults. *)
Lemma negative_margin_and_dpi_are_used :
  absent_or (fun q => q <= 0) (cfg_margin negative_config) /\
  absent_or (fun q => q <= 0) (cfg_dpi negative_config) /\
  margin_of negative_config == - (10) /\
  opt_top (pdfOptions negative_config) == - (10) /\
  dpi_of negative_config == - (72) /\
  ~ margin_of negative_config == 30 /\
  ~ dpi_of negative_config == 300.
Proof.
  split; [right; exists (- (10)); split; [reflexivity|discriminate]|].
  split; [right; exists (- (72)); split; [reflexivity|discriminate]|].
  split; [reflexivity|]. split; [reflexivity|]. split; [reflexivity|].
  split; discriminate.
Qed.

(** C10 at a project that has a record named [PHOTO.JPG]. *)
Lemma uppercase_photo_on_info_page :
  createSingleColumnInfoPage one_line_measure restart_at_top no_trim resize_ok
    draw_ok sample_config landscape_doc
    (demo_project None None [photo "PHOTO.JPG" 800 600 false])
    (mkLayoutPage "info" ["PHOTO.JPG"%string]) =
  addImageToPage resize_ok draw_ok sample_config landscape_doc
    (photo "PHOTO.JPG" 800 600 false)
    (margin_of sample_config) (margin_of sample_config + 20)
    (doc_width landscape_doc - margin_of sample_config * 2)
    (Qmin3 ((doc_height landscape_doc - (margin_of sample_config + 20)
             - margin_of sample_config) * (6 # 10))
           (doc_height landscape_doc * (4 # 10)) 400).
Proof.
  destruct (gallery_filter_is_case_sensitive one_line_measure restart_at_top
              no_trim resize_ok draw_ok) as (_ & _ & _ & _ & H).
  destruct (H sample_config landscape_doc
              (demo_project None None [photo "PHOTO.JPG" 800 600 false])
              (photo "PHOTO.JPG" 800 600 false) eq_refl) as [_ Hpage].
  exact Hpage.
Defined.

(** C4 at a title and a description of one line each, which stay on
    the page: the first pass counts the entry of the table for the
    title, the second pass advances by the heights of the two lines
    plus 20 each. *)
Lemma one_line_title_text_height :
  twoColumnTextHeight one_line_measure sample_config landscape_doc
    (demo_project None None [])
    (mkLayoutPage "info" ["title"; "description"; "cover.jpg"]%string)
  == lineSpacing_title
     + (one_line_measure "Helvetica" 12 "A short text."
          (textColumnWidth sample_config landscape_doc) + 20) /\
  snd (twoColumnRenderText one_line_measure restart_at_top sample_config
         landscape_doc (demo_project None None [])
         (mkLayoutPage "info" ["title"; "description"; "cover.jpg"]%string))
  - twoColumnStartY one_line_measure sample_config landscape_doc
      (demo_project None None [])
      (mkLayoutPage "info" ["title"; "description"; "cover.jpg"]%string)
  == (one_line_measure "Helvetica-Bold" 24 "Untitled"
        (textColumnWidth sample_config landscape_doc) + 20)
     + (one_line_measure "Helvetica" 12 "A short text."
          (textColumnWidth sample_config landscape_doc) + 20).
Proof.
  pose proof (two_column_text_height_uses_title_allowance one_line_measure
                restart_at_top sample_config landscape_doc
                (demo_project None None []) "cover.jpg" eq_refl) as H.
  cbv zeta in H. destruct H as (Hfirst & Hsecond).
  split; [exact Hfirst|].
  destruct (Hsecond eq_refl eq_refl eq_refl eq_refl) as (_ & Hsnd & _).
  exact Hsnd.
Defined.

(** C4 fails at that input.  The title, in Helvetica-Bold at 24 points,
    is 28.56 points high and the description, in Helvetica at 12
    points, 13.872; the first pass counts 64 + 13.872 + 20 = 97.872
    points, the text column starts at 248.704, both texts stay above
    the bottom margin, and the second pass advances by
    28.56 + 20 + 13.872 + 20 = 82.432 points. *)
Lemma one_line_title_heights_differ :
  twoColumnTextHeight one_line_measure sample_config landscape_doc
    (demo_project None None [])
    (mkLayoutPage "info" ["title"; "description"; "cover.jpg"]%string)
  == 97872 # 1000 /\
  one_line_measure "Helvetica-Bold" 24 "Untitled"
    (textColumnWidth sample_config landscape_doc) == 2856 # 100 /\
  one_line_measure "Helvetica" 12 "A short text."
    (textColumnWidth sample_config landscape_doc) == 13872 # 1000 /\
  twoColumnStartY one_line_measure sample_config landscape_doc
    (demo_project None None [])
    (mkLayoutPage "info" ["title"; "description"; "cover.jpg"]%string)
  == 248704 # 1000 /\
  (248704 # 1000) + (2856 # 100) + 20 + (13872 # 1000)
  < doc_height landscape_doc - doc_marginBottom landscape_doc /\
  emitted
    (fun d =>
       fst (twoColumnRenderText one_line_measure restart_at_top sample_config
              d (demo_project None None [])
              (mkLayoutPage "info"
                 ["title"; "description"; "cover.jpg"]%string)))
    landscape_doc =
  [OpText "Helvetica-Bold" 24 "Untitled" 30
          (twoColumnStartY one_line_measure sample_config landscape_doc
             (demo_project None None [])
             (mkLayoutPage "info"
                ["title"; "description"; "cover.jpg"]%string))
          (Some (textColumnWidth sample_config landscape_doc)) None;
   OpText "Helvetica" 12 "A short text." 30
          (twoColumnStartY one_line_measure sample_config landscape_doc
             (demo_project None None [])
             (mkLayoutPage "info"
                ["title"; "description"; "cover.jpg"]%string)
           + one_line_measure "Helvetica-Bold" 24 "Untitled"
               (textColumnWidth sample_config landscape_doc)
           + 20)
          (Some (textColumnWidth sample_config landscape_doc)) None] /\
  snd (twoColumnRenderText one_line_measure restart_at_top sample_config
         landscape_doc (demo_project None None [])
         (mkLayoutPage "info" ["title"; "description"; "cover.jpg"]%string))
  - twoColumnStartY one_line_measure sample_config landscape_doc
      (demo_project None None [])
      (mkLayoutPage "info" ["title"; "description"; "cover.jpg"]%string)
  == 82432 # 1000 /\
  ~ twoColumnTextHeight one_line_measure sample_config landscape_doc
      (demo_project None None [])
      (mkLayoutPage "info" ["title"; "description"; "cover.jpg"]%string)
    == snd (twoColumnRenderText one_line_measure restart_at_top sample_config
              landscape_doc (demo_project None None [])
              (mkLayoutPage "info"
                 ["title"; "description"; "cover.jpg"]%string))
       - twoColumnStartY one_line_measure sample_config landscape_doc
           (demo_project None None [])
           (mkLayoutPage "info" ["title"; "description"; "cover.jpg"]%string).
Proof.
  split; [vm_compute; reflexivity|].
  split; [vm_compute; reflexivity|].
  split; [vm_compute; reflexivity|].
  split; [vm_compute; reflexivity|].
  split; [vm_compute; reflexivity|].
  split; [reflexivity|].
  split; [vm_compute; reflexivity|].
  vm_compute. discriminate.
Qed.

(** X2 at an info page with an upper-case image token on the landscape
    page. *)
Lemma uppercase_photo_takes_two_columns :
  createInfoPageFromLayout one_line_measure restart_at_top no_trim resize_ok
    draw_ok sample_config landscape_doc (demo_project None None [])
    (mkLayoutPage "info" ["title"; "PHOTO.JPG"]%string) =
  createTwoColumnInfoPage one_line_measure restart_at_top resize_ok draw_ok
    sample_config landscape_doc (demo_project None None [])
    (mkLayoutPage "info" ["title"; "PHOTO.JPG"]%string).
Proof.
  destruct (info_page_two_columns_iff_image_and_landscape one_line_measure
              restart_at_top
              no_trim resize_ok draw_ok sample_config landscape_doc
              (demo_project None None [])
              (mkLayoutPage "info" ["title"; "PHOTO.JPG"]%string)) as [H _].
  apply H. split; [|reflexivity].
  exists "PHOTO.JPG"%string. split; [right; left; reflexivity|].
  left. exists "PHOTO"%string, ".JPG"%string. split; reflexivity.
Defined.

(** X3 at a project with three references, one to a file that is not
    found. *)
Lemma missing_file_is_left_out_of_catalog :
  let project :=
    demo_project (Some [ItemString "a.jpg"; ItemString "missing.jpg";
                        ItemObject (Some "b.png"%string) None (Some true)])
                 None [] in
  let loaded :=
    set_processedImages project
      [photo "a.jpg" 800 600 false; photo "b.png" 800 600 true] in
  processProjectImages slash_join demo_probe project = Some loaded /\
  List.length (processedImages loaded) = 2%nat /\
  forall r, In r (processedImages loaded) ->
            demo_probe (img_path r) =
            Some (mkMetadata (img_width r) (img_height r) (img_format r)).
Proof.
  cbv zeta. split; [reflexivity|].
  pose proof (catalog_is_sound_and_complete slash_join demo_probe
                (demo_project
                   (Some [ItemString "a.jpg"; ItemString "missing.jpg";
                          ItemObject (Some "b.png"%string) None (Some true)])
                   None [])
                (set_processedImages
                   (demo_project
                      (Some [ItemString "a.jpg"; ItemString "missing.jpg";
                             ItemObject (Some "b.png"%string) None
                                        (Some true)])
                      None [])
                   [photo "a.jpg" 800 600 false; photo "b.png" 800 600 true])
                eq_refl) as H.
  cbv zeta in H. destruct H as (_ & Hsound & _ & Hlength & _).
  split; [exact Hlength|].
  intros r Hin. destruct (Hsound r Hin) as (_ & _ & _ & _ & Hprobe & _).
  exact Hprobe.
Defined.

(** X8 at five images on the square page. *)
Lemma five_photos_stay_apart :
  let ops :=
    emitted (fun d => createGalleryPage resize_ok draw_ok sample_config d
                        five_photos) square_doc in
  Forall (fun r => rect_within r (contentArea sample_config square_doc))
         (drawnRects ops) /\
  ForallOrdPairs (fun r r' => ~ rect_overlap r r') (drawnRects ops) /\
  List.length (drawnRects ops) = 5%nat.
Proof.
  assert (Hsizes : Forall positive_size five_photos)
    by (repeat constructor).
  assert (Hboxes : Forall (fun call => positive_box (snd call))
                          (galleryCalls sample_config square_doc five_photos))
    by (repeat constructor).
  pose proof (gallery_images_inside_margins_and_apart resize_ok draw_ok
                sample_config square_doc five_photos Hsizes Hboxes) as H.
  cbv zeta in H. destruct H as (Hwithin & Hapart & _ & Hall).
  cbv zeta. split; [exact Hwithin|]. split; [exact Hapart|].
  exact (Hall (fun src => eq_refl)).
Defined.

(** X9 at an image token that opens a single-column page in landscape. *)
Lemma photo_under_the_top_margin_stays_on_page :
  let project := demo_project None None [photo "PHOTO.JPG" 800 600 false] in
  let step := fun d =>
    singleColumnItem one_line_measure restart_at_top no_trim resize_ok draw_ok
        sample_config
      project (d, margin_of sample_config + 20) "PHOTO.JPG" in
  snd (step landscape_doc)
  < doc_height landscape_doc - margin_of sample_config + 20 /\
  Forall (fun r => ry r + rh r
                   < doc_height landscape_doc - margin_of sample_config)
         (drawnRects (emitted (fun d => fst (step d)) landscape_doc)).
Proof.
  pose proof (single_column_image_stays_on_page one_line_measure
                restart_at_top no_trim resize_ok draw_ok sample_config
                (demo_project None None [photo "PHOTO.JPG" 800 600 false])
                landscape_doc (margin_of sample_config + 20) "PHOTO.JPG"
                (photo "PHOTO.JPG" 800 600 false)
                eq_refl eq_refl (conj eq_refl eq_refl)
                eq_refl eq_refl eq_refl) as H.
  cbv zeta in H. destruct H as (_ & _ & Hcursor & Hrects).
  cbv zeta. split; [exact Hcursor|].
  revert Hrects. apply Forall_impl. intros r (_ & _ & _ & _ & Hbottom).
  exact Hbottom.
Defined.

(** X10 at a two-column page with a title and an image. *)
Lemma photo_beside_the_title :
  let project := demo_project None None [photo "PHOTO.JPG" 800 600 false] in
  let page := mkLayoutPage "info" ["title"; "PHOTO.JPG"]%string in
  let ops :=
    emitted (fun d => createTwoColumnInfoPage one_line_measure restart_at_top
        resize_ok
                        draw_ok sample_config d project page)
            landscape_doc in
  Forall (fun r => rect_within r (imageColumnBox sample_config landscape_doc))
         (drawnRects ops).
Proof.
  assert (Hsizes : Forall positive_size
                     (processedImages
                        (demo_project None None
                           [photo "PHOTO.JPG" 800 600 false])))
    by (repeat constructor).
  pose proof (two_column_image_beside_text one_line_measure restart_at_top
                resize_ok draw_ok sample_config landscape_doc
                (demo_project None None [photo "PHOTO.JPG" 800 600 false])
                (mkLayoutPage "info" ["title"; "PHOTO.JPG"]%string)
                Hsizes eq_refl eq_refl) as H.
  cbv zeta in H. destruct H as (_ & _ & Hrects).
  cbv zeta. revert Hrects. apply Forall_impl. intros r [Hwithin _].
  exact Hwithin.
Defined.

(** X13 at a token of a gallery page. *)
Lemma gallery_token_is_image_token :
  isImageToken "cover.jpg" = true.
Proof.
  exact (gallery_tokens_are_image_tokens "cover.jpg" eq_refl).
Defined.

(** X17 at five images on the square page: three columns, two rows, one
    cell left empty. *)
Lemma five_photos_grid_is_nearly_square :
  (2 <= gridCols 5)%Z /\ (2 <= gridRows 5)%Z /\
  (gridCols 5 - 1 <= gridRows 5 <= gridCols 5)%Z /\
  (5 <= gridCols 5 * gridRows 5)%Z /\
  (gridCols 5 * gridRows 5 - 5 < gridCols 5)%Z.
Proof.
  assert (Hn : (3 <= Z.of_nat (List.length five_photos))%Z)
    by (intro H; discriminate H).
  destruct (grid_is_nearly_square sample_config square_doc five_photos Hn)
    as [_ H].
  exact H.
Defined.

(** X18 at a page of a type the generator does not know. *)
Lemma page_of_unknown_type_is_blank :
  createProjectPage one_line_measure restart_at_top no_trim resize_ok draw_ok
    sample_config landscape_doc (demo_project None None [])
    (mkLayoutPage "cover" ["title"]%string) = landscape_doc.
Proof.
  assert (Hcase :
    (page_type (mkLayoutPage "cover" ["title"]%string) <> "info"%string /\
     page_type (mkLayoutPage "cover" ["title"]%string) <> "gallery"%string /\
     page_type (mkLayoutPage "cover" ["title"]%string) <> "full"%string) \/
    (page_type (mkLayoutPage "cover" ["title"]%string) = "gallery"%string /\
     forall token,
       In token (page_content (mkLayoutPage "cover" ["title"]%string)) ->
       galleryFilter token = true ->
       findImage token (processedImages (demo_project None None [])) = None)).
  { left. split; [discriminate|]. split; discriminate. }
  exact (proj1 (unresolved_instruction_leaves_blank_page one_line_measure
                  restart_at_top
                  no_trim resize_ok draw_ok sample_config landscape_doc
                  (demo_project None None [])
                  (mkLayoutPage "cover" ["title"]%string) Hcase)).
Defined.

(** X14 at a project whose layout has one instruction, which ends with
    a page break, and at a project without layout and with three
    images, which ends with the drawing of the third image. *)
Lemma layout_ends_with_break_default_with_draw :
  ends_with_break
    (emitted
       (fun d => createProjectPages one_line_measure restart_at_top no_trim
                   resize_ok draw_ok sample_config d
                   (demo_project None
                      (Some (mkLayout
                               (Some [mkLayoutPage "full" ["a.jpg"%string]])))
                      [photo "a.jpg" 800 600 false]))
       landscape_doc) /\
  ends_with_draw
    (emitted
       (fun d => createProjectPages one_line_measure restart_at_top no_trim
                   resize_ok draw_ok sample_config d
                   (demo_project None None
                      [photo "a.jpg" 800 600 false;
                       photo "b.jpg" 600 800 false;
                       photo "c.jpg" 800 800 false]))
       landscape_doc).
Proof.
  split.
  - pose proof (default_layout_leaves_last_gallery_page_open one_line_measure
                  restart_at_top no_trim resize_ok draw_ok sample_config
                  landscape_doc
                  (demo_project None
                     (Some (mkLayout
                              (Some [mkLayoutPage "full" ["a.jpg"%string]])))
                     [photo "a.jpg" 800 600 false])
                  (demo_project None None [])) as H.
    cbv zeta in H. destruct H as (H & _).
    apply (H [mkLayoutPage "full" ["a.jpg"%string]]).
    + eexists. split; reflexivity.
    + discriminate.
  - pose proof (default_layout_leaves_last_gallery_page_open one_line_measure
                  restart_at_top no_trim resize_ok draw_ok sample_config
                  landscape_doc
                  (demo_project None None
                     [photo "a.jpg" 800 600 false;
                      photo "b.jpg" 600 800 false;
                      photo "c.jpg" 800 800 false])
                  (demo_project None None [])) as H.
    cbv zeta in H. destruct H as (_ & _ & _ & H & _).
    apply H.
    + left. reflexivity.
    + discriminate.
    + intro src. reflexivity.
Defined.

(** X19 at the sample project on the landscape page: the texts of its
    default info page and those of a single-column page with its title
    and its description stay on the page and go down it. *)
Lemma sample_texts_flow_down :
  flows_down one_line_measure landscape_doc 15 (margin_of sample_config + 20)
    (emitted
       (fun d => createInfoPage one_line_measure restart_at_top sample_config
                   d (demo_project None None []))
       landscape_doc) /\
  flows_down one_line_measure landscape_doc 10 (margin_of sample_config + 20)
    (emitted
       (fun d => createSingleColumnInfoPage one_line_measure restart_at_top
                   no_trim resize_ok draw_ok sample_config d
                   (demo_project None None [])
                   (mkLayoutPage "info" ["title"; "description"]%string))
       landscape_doc).
Proof.
  pose proof (info_page_texts_flow_down one_line_measure restart_at_top
                no_trim resize_ok draw_ok sample_config landscape_doc
                (demo_project None None [])
                (mkLayoutPage "info" ["title"; "description"]%string)) as H.
  cbv zeta in H. destruct H as (Hinfo & Hsingle & _).
  split.
  - apply Hinfo. vm_compute. repeat constructor.
  - apply Hsingle.
    + repeat constructor.
    + vm_compute. repeat constructor.
Defined.

(** X15 at a document of two projects: one whose layout has two
    instructions and one without layout and with three images; four
    page breaks are issued. *)
Lemma two_projects_issue_four_page_breaks :
  pageBreaks
    (emitted
       (fun d =>
          createAllProjectPages one_line_measure restart_at_top no_trim
            resize_ok draw_ok sample_config d
            [demo_project None
               (Some (mkLayout (Some [mkLayoutPage "info" ["title"%string];
                                      mkLayoutPage "full" ["a.jpg"%string]])))
               [photo "a.jpg" 800 600 false];
             demo_project None None
               [photo "a.jpg" 800 600 false; photo "b.jpg" 600 800 false;
                photo "c.jpg" 800 800 false]])
       landscape_doc) = 4%nat.
Proof.
  destruct (page_breaks_add_up one_line_measure restart_at_top no_trim
              resize_ok draw_ok sample_config landscape_doc
              [demo_project None
                 (Some (mkLayout
                          (Some [mkLayoutPage "info" ["title"%string];
                                 mkLayoutPage "full" ["a.jpg"%string]])))
                 [photo "a.jpg" 800 600 false];
               demo_project None None
                 [photo "a.jpg" 800 600 false; photo "b.jpg" 600 800 false;
                  photo "c.jpg" 800 800 false]])
    as (Hsum & Hexplicit & Hdefault).
  rewrite Hsum. cbn [map list_sum].
  rewrite (Hexplicit _ [mkLayoutPage "info" ["title"%string];
                        mkLayoutPage "full" ["a.jpg"%string]])
    by (eexists; split; reflexivity).
  rewrite Hdefault by (left; reflexivity).
  reflexivity.
Defined.

(** ** The options of the document *)

Lemma or_str_nonempty (v : option string) (d : string) :
  d <> ""%string -> or_str v d <> ""%string.
Proof.
  intro Hd. destruct v as [[|a s]|]; cbn; [exact Hd|discriminate|exact Hd].
Qed.

Lemma or_num_never_zero (v : option Q) (d : Q) :
  ~ d == 0 -> ~ or_num v d == 0.
Proof.
  intro Hd. destruct v as [q|]; cbn; [|exact Hd].
  destruct (Qeq_bool q 0) eqn:E; [exact Hd|].
  intro Hq. apply Qeq_bool_iff in Hq. rewrite Hq in E. discriminate E.
Qed.

(** X1: a document is created unless [config.json] holds [null], in
    which case [createPDF] throws before it creates one.  When one is
    created, its page size, layout, title and author are not empty, its
    four margins are equal and are the margin of the page routines,
    which is never zero, and the DPI is never zero.  When the file
    cannot be read or parsed the fallback object gives A4 in landscape,
    "Portfolio" by "Artist", margins of 50 points and 300 DPI; a file
    that is parsed and has no [margin], or a [margin] of zero, gives
    margins of 30 points. *)
Theorem document_options_are_never_empty :
  forall file : ConfigFile,
    (createPDF_options (loadConfig file) = None <-> file = ParsedNull) /\
    (forall options,
        createPDF_options (loadConfig file) = Some options ->
        exists cfg,
          loadConfig file = Some cfg /\
          (opt_size options <> ""%string /\ opt_layout options <> ""%string /\
           opt_Title options <> ""%string /\
           opt_Author options <> ""%string) /\
          (opt_top options = margin_of cfg /\
           opt_bottom options = margin_of cfg /\
           opt_left options = margin_of cfg /\
           opt_right options = margin_of cfg) /\
          (~ margin_of cfg == 0 /\ ~ dpi_of cfg == 0)) /\
    (file = Unreadable ->
     exists cfg,
       loadConfig file = Some cfg /\
       createPDF_options (loadConfig file)
       = Some (mkPDFOptions "A4" "landscape" 50 50 50 50
                            "Portfolio" "Artist") /\
       dpi_of cfg = 300) /\
    (forall cfg,
        file = Parsed cfg ->
        absent_or (fun q => q == 0) (cfg_margin cfg) ->
        loadConfig file = Some cfg /\ margin_of cfg = 30 /\
        exists options,
          createPDF_options (loadConfig file) = Some options /\
          opt_top options = 30 /\ opt_bottom options = 30 /\
          opt_left options = 30 /\ opt_right options = 30).
Proof.
  intro file.
  split; [|split; [|split]].
  - destruct file; cbn; split; intro H; try discriminate; reflexivity.
  - intros options Hoptions.
    destruct (loadConfig file) as [cfg|]; [|discriminate].
    cbn [createPDF_options] in Hoptions. injection Hoptions as <-.
    exists cfg. split; [reflexivity|].
    split.
    { unfold pdfOptions. cbn [opt_size opt_layout opt_Title opt_Author].
      split; [apply or_str_nonempty; discriminate|].
      split; [apply or_str_nonempty; discriminate|].
      split; apply or_str_nonempty; discriminate. }
    split.
    { split; [reflexivity|]. split; [reflexivity|]. split; reflexivity. }
    split; apply or_num_never_zero; discriminate.
  - intros ->. eexists. split; [reflexivity|]. split; reflexivity.
  - intros cfg -> Hmargin. split; [reflexivity|].
    assert (H30 : margin_of cfg = 30)
      by (apply or_num_absent_or_zero; exact Hmargin).
    split; [exact H30|].
    eexists. split; [reflexivity|].
    unfold pdfOptions. cbn [opt_top opt_bottom opt_left opt_right].
    fold (margin_of cfg). rewrite H30.
    split; [reflexivity|]. split; [reflexivity|]. split; reflexivity.
Qed.

(** X1 at the three kinds of [config.json]: a missing file gives the
    fallback options, a file that holds [null] gives no document, and a
    file that holds the sample configuration, which has no [margin],
    gives margins of 30 points. *)
Lemma missing_null_and_sample_config :
  createPDF_options (loadConfig Unreadable)
  = Some (mkPDFOptions "A4" "landscape" 50 50 50 50 "Portfolio" "Artist") /\
  createPDF_options (loadConfig ParsedNull) = None /\
  margin_of sample_config = 30 /\
  exists options,
    createPDF_options (loadConfig (Parsed sample_config)) = Some options /\
    opt_top options = 30.
Proof.
  split; [|split].
  - destruct (document_options_are_never_empty Unreadable)
      as (_ & _ & H & _).
    destruct (H eq_refl) as (cfg & _ & Hoptions & _). exact Hoptions.
  - destruct (document_options_are_never_empty ParsedNull) as (H & _).
    apply H. reflexivity.
  - destruct (document_options_are_never_empty (Parsed sample_config))
      as (_ & _ & _ & H).
    destruct (H sample_config eq_refl (or_introl eq_refl))
      as (_ & Hmargin & options & Hoptions & Htop & _).
    split; [exact Hmargin|]. exists options. split; assumption.
Defined.
